(** * moodle-ts: the runtime client and the OpenAPI generator, embedded in Rocq

    The development follows the repository file by file:

    - [Js]: the fragment of the JavaScript runtime the sources rely on
      (values as produced by [JSON.parse], property order of ordinary
      objects, object spread, the string methods that are called);
    - [src/client/serialize.ts]: [appendParam], [serializeParams],
      [mergeParams];
    - the error classes and [isMoodleErrorResponse] (the module the client
      imports as [./errors.js]);
    - the constructor of [MoodleClient] (imported as [./MoodleClient.js]);
    - [call] (in [src/client/index.ts]), as the segments of the async
      function between its suspension points, stepped by the events of the
      runtime;
    - [scripts/generate-openapi.mjs]: [moodleTypeToOpenAPI], [toPascalCase],
      [getTagFromFunctionName], [generateTags], [generateOpenAPISpec],
      [formatYamlValue], [jsonToYaml].

    The definitions come first, the properties after them.

    Strings are sequences of bytes, read as the UTF-8 encoding of the
    JavaScript string.  Every character the sources inspect is ASCII, and an
    ASCII byte never occurs inside a multi-byte UTF-8 sequence, so searching,
    splitting and replacing behave on the bytes as they do on the code units.
    Numbers are integers ([Z]), printed in decimal as [String(n)] prints an
    integer-valued double of magnitude below 10^21; fractions, NaN and the
    infinities are not represented. *)

From Stdlib Require Import String Ascii List ZArith Bool Arith Lia DecimalString.
Import ListNotations.
Open Scope list_scope.
Open Scope string_scope.

Set Warnings "-register-all".

(* ================================================================== *)
(** * The JavaScript runtime fragment *)
(* ================================================================== *)

Module Js.

(** A JavaScript value: what [JSON.parse] can return, plus [undefined]. An
    object is the list of its own enumerable string-keyed properties in
    property order, the order [Object.entries] reports. *)
Inductive value : Type :=
| VUndef
| VNull
| VBool (b : bool)
| VNum (n : Z)
| VStr (s : string)
| VArr (items : list value)
| VObj (props : list (string * value)).

Definition object := list (string * value).

(** [typeof v === "object" && v !== null] *)
Definition is_object (v : value) : bool :=
  match v with
  | VArr _ | VObj _ => true
  | _ => false
  end.

(** [Array.isArray(v)] *)
Definition isArray (v : value) : bool :=
  match v with
  | VArr _ => true
  | _ => false
  end.

(** ToBoolean; there is no NaN in the model. *)
Definition truthy (v : value) : bool :=
  match v with
  | VUndef | VNull => false
  | VBool b => b
  | VNum n => negb (n =? 0)%Z
  | VStr s => negb (s =? "")
  | VArr _ | VObj _ => true
  end.

(** [String(n)] for a number, [`${i}`] for an index. *)
Definition number_to_string (n : Z) : string :=
  NilZero.string_of_int (Z.to_int n).

Definition index_to_string (i : nat) : string :=
  NilZero.string_of_uint (Nat.to_uint i).

(** ** Strict equality [===] *)

(** On primitives [===] compares by value; two objects are equal only when
    they are the same object, which never holds between a freshly parsed
    value and a literal, the only comparisons made here. *)
Definition strict_eq (a b : value) : bool :=
  match a, b with
  | VUndef, VUndef => true
  | VNull, VNull => true
  | VBool x, VBool y => Bool.eqb x y
  | VNum x, VNum y => (x =? y)%Z
  | VStr x, VStr y => (x =? y)
  | _, _ => false
  end.

(** ** Strings *)

Definition startsWith (s p : string) : bool := String.prefix p s.

Fixpoint includes (s p : string) : bool :=
  String.prefix p s ||
  match s with
  | EmptyString => false
  | String _ rest => includes rest p
  end.

Fixpoint last_char (s : string) : option ascii :=
  match s with
  | EmptyString => None
  | String c EmptyString => Some c
  | String _ rest => last_char rest
  end.

(** [s.endsWith(c)] for a one-character [c] *)
Definition endsWith_char (s : string) (c : ascii) : bool :=
  match last_char s with
  | Some d => Ascii.eqb c d
  | None => false
  end.

(** [s.replace(/c/g, r)] for a one-character pattern *)
Fixpoint replace_all (c : ascii) (r : string) (s : string) : string :=
  match s with
  | EmptyString => EmptyString
  | String d rest =>
      if Ascii.eqb c d then r ++ replace_all c r rest
      else String d (replace_all c r rest)
  end.

Definition is_upper (c : ascii) : bool :=
  ((65 <=? nat_of_ascii c) && (nat_of_ascii c <=? 90))%nat.

Definition is_lower (c : ascii) : bool :=
  ((97 <=? nat_of_ascii c) && (nat_of_ascii c <=? 122))%nat.

Definition is_digit (c : ascii) : bool :=
  ((48 <=? nat_of_ascii c) && (nat_of_ascii c <=? 57))%nat.

Definition lower_char (c : ascii) : ascii :=
  if is_upper c then ascii_of_nat (nat_of_ascii c + 32) else c.

Definition upper_char (c : ascii) : ascii :=
  if is_lower c then ascii_of_nat (nat_of_ascii c - 32) else c.

Fixpoint map_string (f : ascii -> ascii) (s : string) : string :=
  match s with
  | EmptyString => EmptyString
  | String c rest => String (f c) (map_string f rest)
  end.

(** [s.toLowerCase()] on the ASCII letters.  A non-ASCII byte is kept, so a
    string with one is never mapped to an all-ASCII word. *)
Definition toLowerCase (s : string) : string := map_string lower_char s.

(** [s.split(sep)] for a one-character separator: always at least one
    piece. *)
Fixpoint split (sep : ascii) (s : string) : list string :=
  match s with
  | EmptyString => [EmptyString]
  | String c rest =>
      if Ascii.eqb c sep then EmptyString :: split sep rest
      else match split sep rest with
           | piece :: pieces => String c piece :: pieces
           | [] => [String c EmptyString]
           end
  end.

(** [pieces.join(sep)] *)
Definition join (sep : string) (pieces : list string) : string :=
  String.concat sep pieces.

(** The ASCII white space and line terminators that [trim] removes.  The
    white space outside ASCII, which [trim] removes too, is not modelled:
    here it stays where it is. *)
Definition is_space (c : ascii) : bool :=
  let n := nat_of_ascii c in
  ((n =? 9) || (n =? 10) || (n =? 11) || (n =? 12) || (n =? 13) || (n =? 32))%nat.

Fixpoint trimStart (s : string) : string :=
  match s with
  | EmptyString => EmptyString
  | String c rest => if is_space c then trimStart rest else s
  end.

Fixpoint trimEnd (s : string) : string :=
  match s with
  | EmptyString => EmptyString
  | String c rest =>
      match trimEnd rest with
      | EmptyString => if is_space c then EmptyString else String c EmptyString
      | t => String c t
      end
  end.

Definition trim (s : string) : string := trimEnd (trimStart s).

(** ["  ".repeat(n)] *)
Fixpoint repeat_string (s : string) (n : nat) : string :=
  match n with
  | O => EmptyString
  | S m => s ++ repeat_string s m
  end.

(** ** Ordinary objects *)

(** [k in o] for an own property. *)
Fixpoint has (o : object) (k : string) : bool :=
  match o with
  | [] => false
  | (k', _) :: rest => (k' =? k) || has rest k
  end.

(** [o[k]] on an object: [undefined] when absent. *)
Fixpoint lookup (o : object) (k : string) : value :=
  match o with
  | [] => VUndef
  | (k', v) :: rest => if k' =? k then v else lookup rest k
  end.

(** [v.k]: property read on any value that is not [null] or [undefined]
    (reading those raises, and every such read is guarded at its call site).
    Only own data properties of objects are modelled; the other values
    answer [undefined]. *)
Definition get (v : value) (k : string) : value :=
  match v with
  | VObj o => lookup o k
  | _ => VUndef
  end.

(** [k in v] for an object operand. *)
Definition has_property (v : value) (k : string) : bool :=
  match v with
  | VObj o => has o k
  | _ => false
  end.

(** An array index: the canonical decimal form of an integer below
    2^32 - 1.  Such keys come first in property order, ascending. *)
Definition array_index (k : string) : option N :=
  match NilZero.uint_of_string k with
  | Some u =>
      let n := N.of_uint u in
      if (NilZero.string_of_uint (N.to_uint n) =? k) && (n <? 4294967295)%N
      then Some n else None
  | None => None
  end.

Fixpoint replace_value (o : object) (k : string) (v : value) : object :=
  match o with
  | [] => []
  | (k', v') :: rest =>
      if k' =? k then (k', v) :: rest else (k', v') :: replace_value rest k v
  end.

(** Insert a new index key at its place among the index keys. *)
Fixpoint insert_index (o : object) (n : N) (k : string) (v : value) : object :=
  match o with
  | [] => [(k, v)]
  | (k', v') :: rest =>
      match array_index k' with
      | Some m =>
          if (m <? n)%N then (k', v') :: insert_index rest n k v
          else (k, v) :: o
      | None => (k, v) :: o
      end
  end.

(** CreateDataProperty, the step of an object literal and of a spread: an
    existing property keeps its place, a new index key is sorted in, any
    other new key goes last. *)
Definition define (o : object) (k : string) (v : value) : object :=
  if has o k then replace_value o k v
  else match array_index k with
       | Some n => insert_index o n k v
       | None => (o ++ [(k, v)])%list
       end.

(** [o[k] = v] on an ordinary object.  Assigning an object to [__proto__]
    runs the inherited setter: the prototype changes and no own property
    appears; every value assigned under a computed key in the sources is an
    object. *)
Definition assign (o : object) (k : string) (v : value) : object :=
  if (k =? "__proto__") && is_object v then o else define o k v.

(** [{ ...target, ...source }] : copy the source's properties in order. *)
Definition spread (target source : object) : object :=
  fold_left (fun acc kv => define acc (fst kv) (snd kv)) source target.

(** The members of an object literal, [k: v] or [...source]. *)
Inductive member : Type :=
| Field (k : string) (v : value)
| Rest (source : object).

(** An object literal [{ m1, ..., mn }], evaluated left to right. *)
Definition object_literal (members : list member) : object :=
  fold_left
    (fun acc m =>
       match m with
       | Field k v => define acc k v
       | Rest source => spread acc source
       end)
    members [].

(** [c && { ... }] in spread position: the object when [c] is truthy;
    otherwise the falsy primitive [c] itself, whose spread adds nothing. *)
Definition and_then (c : value) (o : object) : object :=
  if truthy c then o else [].

(** [xs.forEach((item, index) => ...)] threading the state the callback
    mutates. *)
Definition forEach_from {A St : Type} (f : St -> A -> nat -> St) :=
  fix go (xs : list A) (index : nat) (st : St) {struct xs} : St :=
    match xs with
    | [] => st
    | x :: rest => go rest (S index) (f st x index)
    end.

Definition forEach {A St : Type} (f : St -> A -> nat -> St) (xs : list A) (st : St) : St :=
  forEach_from f xs 0 st.

Definition indexed_from {A : Type} :=
  fix go (xs : list A) (index : nat) {struct xs} : list (string * A) :=
    match xs with
    | [] => []
    | x :: rest => (index_to_string index, x) :: go rest (S index)
    end.

(** [Object.entries(v)]: the own enumerable properties of an object, the
    elements of an array, the characters of a string; nothing for the other
    primitives. *)
Definition entries (v : value) : object :=
  match v with
  | VObj o => o
  | VArr items => indexed_from items 0
  | VStr s =>
      indexed_from
        (map (fun c => VStr (String c EmptyString)) (list_ascii_of_string s)) 0
  | _ => []
  end.

(** ToString, as the [Error] constructor, a template literal and
    [String(v)] apply it.  [None] is the TypeError "Cannot convert object to
    primitive value": an object whose own [toString] property shadows the
    inherited method has no primitive value, since no parsed value is
    callable. *)
Fixpoint to_string (v : value) : option string :=
  match v with
  | VUndef => Some "undefined"
  | VNull => Some "null"
  | VBool b => Some (if b then "true" else "false")
  | VNum n => Some (number_to_string n)
  | VStr s => Some s
  | VArr items =>
      option_map (join ",")
        ((fix each (items : list value) : option (list string) :=
            match items with
            | [] => Some []
            | item :: rest =>
                match (match item with
                       | VUndef | VNull => Some ""
                       | _ => to_string item
                       end), each rest with
                | Some s, Some ss => Some (s :: ss)
                | _, _ => None
                end
            end) items)
  | VObj o => if has o "toString" then None else Some "[object Object]"
  end.

End Js.

Import Js.

(* ================================================================== *)
(** * src/client/serialize.ts *)
(* ================================================================== *)

(** A [URLSearchParams]: the list of its name/value pairs; [append] adds a
    pair at the end and never replaces one. *)
Definition URLSearchParams := list (string * string).

Definition sp_append (sp : URLSearchParams) (k v : string) : URLSearchParams :=
  (sp ++ [(k, v)])%list.

Definition bracket (key sub : string) : string := key ++ "[" ++ sub ++ "]".

(** [appendParam(key, value)], with the [searchParams] it appends to passed
    in and returned. *)
Fixpoint appendParam (key : string) (value : value) (searchParams : URLSearchParams)
  {struct value} : URLSearchParams :=
  match value with
  | VNull | VUndef => searchParams
  | VBool b => sp_append searchParams key (if b then "1" else "0")
  | VNum n => sp_append searchParams key (number_to_string n)
  | VStr s => sp_append searchParams key s
  | VArr items =>
      forEach
        (fun sp item index =>
           let arrayKey := bracket key (index_to_string index) in
           match item with
           | VObj o =>
               fold_left
                 (fun sp' kv => appendParam (bracket arrayKey (fst kv)) (snd kv) sp')
                 o sp
           | VArr subitems =>
               forEach
                 (fun sp' subValue subIndex =>
                    appendParam (bracket arrayKey (index_to_string subIndex)) subValue sp')
                 subitems sp
           | _ => appendParam arrayKey item sp
           end)
        items searchParams
  | VObj o =>
      fold_left
        (fun sp kv => appendParam (bracket key (fst kv)) (snd kv) sp)
        o searchParams
  end.

(** [serializeParams(params, prefix = "")] *)
Definition serializeParams (params : object) (prefix : string) : URLSearchParams :=
  fold_left
    (fun sp kv =>
       let fullKey := if negb (prefix =? "") then bracket prefix (fst kv) else fst kv in
       appendParam fullKey (snd kv) sp)
    params [].

(** The mapping a caller builds by adding the properties one after the
    other, each with CreateDataProperty, as [JSON.parse], a spread and the
    members of an object literal other than [__proto__: v] do. *)
Definition inserted (kvs : list (string * value)) : object :=
  fold_left (fun o kv => define o (fst kv) (snd kv)) kvs [].

(** Keys that are array indices, in strictly ascending numeric order. *)
Fixpoint indices_ascending (o : object) : bool :=
  match o with
  | [] => true
  | (k, _) :: rest =>
      match array_index k with
      | None => false
      | Some n =>
          match rest with
          | [] => true
          | (k', _) :: _ =>
              match array_index k' with
              | Some m => (n <? m)%N
              | None => false
              end
          end
          && indices_ascending rest
      end
  end.

Definition is_index (k : string) : bool :=
  match array_index k with
  | Some _ => true
  | None => false
  end.

(** Every entry is an index key above [m]. *)
Definition above (m : N) (o : object) : Prop :=
  Forall (fun kv => exists j, array_index (fst kv) = Some j /\ (m < j)%N) o.


(** [params.toString()]: the application/x-www-form-urlencoded serializer.
    A byte is kept when it is an ASCII letter or digit or one of [*-._], a
    space becomes [+], every other byte is percent-encoded in upper-case
    hexadecimal. *)
Definition hex_digit (n : nat) : ascii :=
  (if n <? 10 then ascii_of_nat (48 + n) else ascii_of_nat (55 + n))%nat.

Definition urlencode_byte (c : ascii) : string :=
  let n := nat_of_ascii c in
  if is_upper c || is_lower c || is_digit c
     || (n =? 42)%nat || (n =? 45)%nat || (n =? 46)%nat || (n =? 95)%nat
  then String c EmptyString
  else if (n =? 32)%nat then "+"
  else String "%" (String (hex_digit (n / 16)) (String (hex_digit (n mod 16)) EmptyString)).

Fixpoint urlencode (s : string) : string :=
  match s with
  | EmptyString => EmptyString
  | String c rest => urlencode_byte c ++ urlencode rest
  end.

Definition URLSearchParams_toString (sp : URLSearchParams) : string :=
  join "&" (map (fun kv => urlencode (fst kv) ++ "=" ++ urlencode (snd kv)) sp).

(** [mergeParams(base, additional)] *)
Definition mergeParams (base additional : URLSearchParams) : URLSearchParams :=
  fold_left (fun merged kv => sp_append merged (fst kv) (snd kv)) additional base.

(** What the callback of the array branch does with one element: an object
    or an array is unfolded in place, anything else is appended under the
    index key. *)
Definition append_item (arrayKey : string) (item : value) (sp : URLSearchParams)
  : URLSearchParams :=
  match item with
  | VObj o =>
      fold_left (fun sp' kv => appendParam (bracket arrayKey (fst kv)) (snd kv) sp') o sp
  | VArr subitems =>
      forEach
        (fun sp' subValue subIndex =>
           appendParam (bracket arrayKey (index_to_string subIndex)) subValue sp')
        subitems sp
  | _ => appendParam arrayKey item sp
  end.

(** The number of terminal scalars (strings, numbers, booleans) of a value. *)
Fixpoint scalar_count (v : value) : nat :=
  match v with
  | VUndef | VNull => 0
  | VBool _ | VNum _ | VStr _ => 1
  | VArr items => fold_right (fun item n => scalar_count item + n) 0 items
  | VObj o => fold_right (fun kv n => scalar_count (snd kv) + n) 0 o
  end.

Definition scalar_total (params : object) : nat :=
  fold_right (fun kv n => scalar_count (snd kv) + n) 0 params.

(* ================================================================== *)
(** * src/client/errors.ts *)
(* ================================================================== *)

(** What a [throw] can carry.  [JsError] is an error of the runtime itself
    ([Error], [TypeError], [SyntaxError], a [DOMException]), with its [name]
    and [message]; the four subclasses of [MoodleError] follow the class
    declarations; [Thrown] is a thrown value that is no [Error] at all. *)
Inductive exn : Type :=
| JsError (name message : string)
| MoodleError (message : string) (code debugInfo : value)
| MoodleAuthError (message : string)
| MoodleApiError (message : string) (errorCode exception debugInfo : value)
| MoodleNetworkError (message : string) (cause : option exn)
| MoodleValidationError (message : string) (field : option string)
| Thrown (v : value).

Inductive completion (A : Type) : Type :=
| Return (a : A)
| Throw (e : exn).
Arguments Return {A} a.
Arguments Throw {A} e.

Definition bind {A B : Type} (c : completion A) (k : A -> completion B) : completion B :=
  match c with
  | Return a => k a
  | Throw e => Throw e
  end.

Notation "x <- c ;; k" := (bind c (fun x => k))
  (at level 61, c at next level, right associativity).

(** [e instanceof Error] *)
Definition instanceof_Error (e : exn) : bool :=
  match e with
  | Thrown _ => false
  | _ => true
  end.

(** [e instanceof MoodleApiError] *)
Definition instanceof_MoodleApiError (e : exn) : bool :=
  match e with
  | MoodleApiError _ _ _ _ => true
  | _ => false
  end.

(** [e instanceof MoodleValidationError] *)
Definition instanceof_MoodleValidationError (e : exn) : bool :=
  match e with
  | MoodleValidationError _ _ => true
  | _ => false
  end.

(** [e.name], set by each constructor *)
Definition exn_name (e : exn) : string :=
  match e with
  | JsError name _ => name
  | MoodleError _ _ _ => "MoodleError"
  | MoodleAuthError _ => "MoodleAuthError"
  | MoodleApiError _ _ _ _ => "MoodleApiError"
  | MoodleNetworkError _ _ => "MoodleNetworkError"
  | MoodleValidationError _ _ => "MoodleValidationError"
  | Thrown _ => ""
  end.

(** [e.message] *)
Definition exn_message (e : exn) : string :=
  match e with
  | JsError _ m | MoodleError m _ _ | MoodleAuthError m | MoodleApiError m _ _ _
  | MoodleNetworkError m _ | MoodleValidationError m _ => m
  | Thrown _ => ""
  end.

(** [e.code], the second argument every subclass hands to [super] *)
Definition exn_code (e : exn) : value :=
  match e with
  | MoodleError _ code _ => code
  | MoodleAuthError _ => VStr "auth_failed"
  | MoodleApiError _ errorCode _ _ => errorCode
  | MoodleNetworkError _ _ => VStr "network_error"
  | MoodleValidationError _ _ => VStr "validation_error"
  | JsError _ _ | Thrown _ => VUndef
  end.

Definition cannot_convert : exn :=
  JsError "TypeError" "Cannot convert object to primitive value".

(** [super(message)] in [MoodleError]: the [Error] constructor stores
    ToString of a message that is not [undefined], and may raise doing so. *)
Definition Error_message (message : value) : completion string :=
  match message with
  | VUndef => Return ""
  | _ => match to_string message with
         | Some s => Return s
         | None => Throw cannot_convert
         end
  end.

(** [new MoodleApiError(message, errorCode, exception, debugInfo)] *)
Definition new_MoodleApiError (message errorCode exception debugInfo : value)
  : completion exn :=
  m <- Error_message message ;;
  Return (MoodleApiError m errorCode exception debugInfo).

(** [isMoodleErrorResponse(response)] *)
Definition isMoodleErrorResponse (response : value) : bool :=
  is_object response
  && has_property response "message"
  && (has_property response "exception" || has_property response "errorcode").

(* ================================================================== *)
(** * src/client/MoodleClient.ts *)
(* ================================================================== *)

(** A [MoodleClientConfig] as a caller can pass it: [None] is a property
    that is absent.  The [fetch] override is a transport; the model of
    [call] below takes the transport's behaviour from the events it
    delivers, so the configuration only records whether one was given. *)
Record MoodleClientConfig : Type := {
  cfg_baseUrl : option string;
  cfg_token : option string;
  cfg_timeout : option Z;
  cfg_fetch : bool
}.

(** The private [config] of a constructed client. *)
Record MoodleClient : Type := {
  baseUrl : string;
  token : string;
  timeout : Z;
  fetch : bool
}.

(** [!s] for an optional string *)
Definition missing (s : option string) : bool :=
  match s with
  | None => true
  | Some s => s =? ""
  end.

(** [s.replace(/\/+$/, "")] *)
Fixpoint strip_trailing_slashes (s : string) : string :=
  match s with
  | EmptyString => EmptyString
  | String c rest =>
      match strip_trailing_slashes rest with
      | EmptyString => if Ascii.eqb c "/" then EmptyString else String c EmptyString
      | t => String c t
      end
  end.

Definition or_else {A : Type} (o : option A) (d : A) : A :=
  match o with
  | Some a => a
  | None => d
  end.

(** [new MoodleClient(config)] *)
Definition new_MoodleClient (config : MoodleClientConfig) : completion MoodleClient :=
  if missing (cfg_baseUrl config) then Throw (JsError "Error" "baseUrl is required")
  else if missing (cfg_token config) then Throw (JsError "Error" "token is required")
  else
    Return {| baseUrl := strip_trailing_slashes (or_else (cfg_baseUrl config) "");
              token := or_else (cfg_token config) "";
              timeout := or_else (cfg_timeout config) 30000%Z;
              fetch := cfg_fetch config |}.

(* ================================================================== *)
(** * src/client/call.ts *)
(* ================================================================== *)

Record CallOptions : Type := {
  opt_baseUrl : string;
  opt_token : string;
  opt_timeout : option Z;
  opt_fetch : bool
}.

Record CallResult : Type := {
  data : value;
  warnings : value
}.

(** What [call] hands to the transport. *)
Record Request : Type := {
  req_url : string;
  req_method : string;
  req_headers : list (string * string);
  req_body : string
}.

(** The part of a [Response] that [call] reads before it asks for the body. *)
Record Response : Type := {
  ok : bool;
  status : Z;
  statusText : string
}.

(** [const { timeout = 30000 } = options] *)
Definition call_timeout (options : CallOptions) : Z :=
  or_else (opt_timeout options) 30000%Z.

(** [{ wstoken: token, wsfunction, moodlewsrestformat: "json", ...params }] *)
Definition call_params (wsfunction : string) (params : object) (options : CallOptions)
  : object :=
  object_literal
    [Field "wstoken" (VStr (opt_token options));
     Field "wsfunction" (VStr wsfunction);
     Field "moodlewsrestformat" (VStr "json");
     Rest params].

(** [const body = serializeParams({...})] *)
Definition call_body (wsfunction : string) (params : object) (options : CallOptions)
  : URLSearchParams :=
  serializeParams (call_params wsfunction params options) "".

(** [a ?? b] *)
Definition nullish (a b : value) : value :=
  match a with
  | VUndef | VNull => b
  | _ => a
  end.

(** The deadline timer of one call: armed by [setTimeout], disarmed by
    [clearTimeout], or already run. *)
Inductive timer_state : Type := Armed | Cleared | Fired.

(** [clearTimeout(timeoutId)] *)
Definition clearTimeout (t : timer_state) : timer_state :=
  match t with
  | Armed => Cleared
  | other => other
  end.

(** Where the async function is suspended, or how it settled. *)
Inductive phase : Type :=
| AwaitFetch
| AwaitJson
| Settled (outcome : completion CallResult).

Record call_state : Type := {
  st_timer : timer_state;
  st_aborted : bool;
  st_phase : phase
}.

(** What the runtime can deliver to a call in flight: the timer callback,
    the settlement of the promise [fetchFn(...)] returned, the settlement of
    [response.json()]. *)
Inductive event : Type :=
| TimerFires
| FetchResolves (response : Response)
| FetchRejects (error : exn)
| JsonResolves (parsed : value)
| JsonRejects (error : exn).

Section Call.

(** [new URL(path, base).toString()], the URL parser of the runtime; [None]
    is the TypeError it raises when [base] is not an absolute URL. *)
Variable URL_new : string -> string -> option string.

(** The body of [call] up to its first [await]: the request it issues, and
    the state it suspends in with the deadline armed. *)
Definition call_begin (wsfunction : string) (params : object) (options : CallOptions)
  : completion (Request * call_state) :=
  match URL_new "/webservice/rest/server.php" (opt_baseUrl options) with
  | None => Throw (JsError "TypeError" "Invalid URL")
  | Some url =>
      let body := call_body wsfunction params options in
      Return
        ({| req_url := url;
            req_method := "POST";
            req_headers := [("Content-Type", "application/x-www-form-urlencoded")];
            req_body := URLSearchParams_toString body |},
         {| st_timer := Armed; st_aborted := false; st_phase := AwaitFetch |})
  end.

Section InFlight.

Variable timeout : Z.

Definition timeout_message : string :=
  "Request timeout after " ++ number_to_string timeout ++ "ms".

(** The [catch (error)] block. *)
Definition call_catch (error : exn) (s : call_state) : call_state :=
  {| st_timer := clearTimeout (st_timer s);
     st_aborted := st_aborted s;
     st_phase :=
       Settled
         (Throw
            (if instanceof_MoodleApiError error then error
             else if instanceof_Error error then
               if exn_name error =? "AbortError"
               then MoodleNetworkError timeout_message None
               else MoodleNetworkError (exn_message error) (Some error)
             else MoodleNetworkError "Unknown error occurred" None)) |}.

(** From the resumption after [await fetchFn(...)] to [await response.json()]. *)
Definition call_on_response (response : Response) (s : call_state) : call_state :=
  let s1 := {| st_timer := clearTimeout (st_timer s);
               st_aborted := st_aborted s;
               st_phase := st_phase s |} in
  if negb (ok response) then
    call_catch
      (MoodleNetworkError
         ("HTTP " ++ number_to_string (status response) ++ ": " ++ statusText response)
         None)
      s1
  else
    {| st_timer := st_timer s1; st_aborted := st_aborted s1; st_phase := AwaitJson |}.

(** From the resumption after [await response.json()] to the [return]. *)
Definition call_on_data (parsed : value) (s : call_state) : call_state :=
  if isMoodleErrorResponse parsed then
    match new_MoodleApiError
            (get parsed "message")
            (nullish (get parsed "errorcode") (VStr "unknown"))
            (get parsed "exception")
            (get parsed "debuginfo") with
    | Return error => call_catch error s
    | Throw error => call_catch error s
    end
  else
    let warnings :=
      if is_object parsed && has_property parsed "warnings"
         && isArray (get parsed "warnings")
      then get parsed "warnings" else VUndef in
    {| st_timer := st_timer s;
       st_aborted := st_aborted s;
       st_phase := Settled (Return {| data := parsed; warnings := warnings |}) |}.

(** The callback given to [setTimeout]: [controller.abort()]. *)
Definition on_timer (s : call_state) : call_state :=
  {| st_timer := Fired; st_aborted := true; st_phase := st_phase s |}.

(** One event delivered to the call.  [None]: the runtime cannot deliver
    this event in this state (a timer that is not armed does not run; a
    promise settles once, and only after it was created). *)
Definition step (s : call_state) (ev : event) : option call_state :=
  match ev, st_phase s with
  | TimerFires, _ =>
      match st_timer s with
      | Armed => Some (on_timer s)
      | _ => None
      end
  | FetchResolves response, AwaitFetch => Some (call_on_response response s)
  | FetchRejects error, AwaitFetch => Some (call_catch error s)
  | JsonResolves parsed, AwaitJson => Some (call_on_data parsed s)
  | JsonRejects error, AwaitJson => Some (call_catch error s)
  | _, _ => None
  end.

Fixpoint run (s : call_state) (evs : list event) : option call_state :=
  match evs with
  | [] => Some s
  | ev :: rest =>
      match step s ev with
      | Some s' => run s' rest
      | None => None
      end
  end.

End InFlight.

(** [call(wsfunction, params, options)] against the events the runtime
    delivers: [None] when the events are not a possible history of the call,
    otherwise the state reached. *)
Definition call (wsfunction : string) (params : object) (options : CallOptions)
  (evs : list event) : completion (option call_state) :=
  started <- call_begin wsfunction params options ;;
  Return (run (call_timeout options) (snd started) evs).

(** [MoodleClient.prototype.call] *)
Definition MoodleClient_call (client : MoodleClient) (wsfunction : string)
  (params : object) (evs : list event) : completion (option call_state) :=
  call wsfunction params
    {| opt_baseUrl := baseUrl client;
       opt_token := token client;
       opt_timeout := Some (timeout client);
       opt_fetch := fetch client |}
    evs.

End Call.


(** ** The transport and the runtime *)









(* ================================================================== *)
(** * scripts/generate-openapi.mjs *)
(* ================================================================== *)

Definition type_error (message : string) : exn := JsError "TypeError" message.

(** [v.k] where the read is not guarded: reading a property of [null] or
    [undefined] raises. *)
Definition get_checked (v : value) (k : string) : completion value :=
  match v with
  | VUndef =>
      Throw (type_error ("Cannot read properties of undefined (reading '" ++ k ++ "')"))
  | VNull =>
      Throw (type_error ("Cannot read properties of null (reading '" ++ k ++ "')"))
  | _ => Return (get v k)
  end.

(** [list?.includes(key)] : [undefined] on a nullish list, the search of an
    array or of a string, and a TypeError on anything else, which has no
    callable [includes]. *)
Definition optional_includes (list : value) (key : string) : completion bool :=
  match list with
  | VUndef | VNull => Return false
  | VArr items => Return (existsb (strict_eq (VStr key)) items)
  | VStr s => Return (includes s key)
  | _ => Throw (type_error "schema.required?.includes is not a function")
  end.

(** The nesting depth of a value: the recursion of the transformer descends
    into the value at least one level with every call. *)
Fixpoint depth (v : value) : nat :=
  match v with
  | VArr items => S (fold_right (fun item d => Nat.max (depth item) d) 0 items)
  | VObj o => S (fold_right (fun kv d => Nat.max (depth (snd kv)) d) 0 o)
  | _ => 0
  end.

Definition stack_overflow : exn :=
  JsError "RangeError" "Maximum call stack size exceeded".

Definition open_object : value :=
  VObj (object_literal
          [Field "type" (VStr "object"); Field "additionalProperties" (VBool true)]).

(** [...(schema.description && { description: schema.description })] *)
Definition spread_description (schema : value) : member :=
  Rest (and_then (get schema "description")
          (object_literal [Field "description" (get schema "description")])).

(** [...(schema.default !== undefined && { default: schema.default })] *)
Definition spread_default (schema : value) : member :=
  Rest (and_then (VBool (negb (strict_eq (get schema "default") VUndef)))
          (object_literal [Field "default" (get schema "default")])).

(** [...(schema.nullable && { nullable: true })] *)
Definition spread_nullable (schema : value) : member :=
  Rest (and_then (get schema "nullable")
          (object_literal [Field "nullable" (VBool true)])).

(** The body of [for (const [key, value] of Object.entries(schema.properties))],
    with the two accumulators [properties] and [required] it fills;
    [convert] is the recursive call and [listed] is [schema.required]. *)
Fixpoint convert_properties (convert : value -> string -> completion value)
  (listed : value) (prefix : string) (props : object)
  (properties : object) (required : list value)
  {struct props} : completion (object * list value) :=
  match props with
  | [] => Return (properties, required)
  | (key, value) :: rest =>
      converted <- convert value (prefix ++ "_" ++ key) ;;
      in_list <- optional_includes listed key ;;
      is_required <-
        (if in_list then Return true
         else flag <- get_checked value "required" ;;
              Return (strict_eq flag (VBool true))) ;;
      convert_properties convert listed prefix rest
        (assign properties key converted)
        (if is_required then (required ++ [VStr key])%list else required)
  end.

(** [moodleTypeToOpenAPI(schema, components, prefix)], by recursion on a
    call budget.  [components] is passed along by the source and never read
    or written by this function; it is left out. *)
Fixpoint moodleTypeToOpenAPI_rec (fuel : nat) (schema : value) (prefix : string)
  {struct fuel} : completion value :=
  match fuel with
  | O => Throw stack_overflow
  | S fuel =>
      if negb (truthy schema) then Return open_object
      else
        let type := get schema "type" in
        if strict_eq type (VStr "integer") then
          Return (VObj (object_literal
                          [Field "type" (VStr "integer");
                           spread_description schema;
                           spread_default schema;
                           spread_nullable schema]))
        else if strict_eq type (VStr "number") then
          Return (VObj (object_literal
                          [Field "type" (VStr "number");
                           spread_description schema;
                           spread_default schema;
                           spread_nullable schema]))
        else if strict_eq type (VStr "boolean") then
          Return (VObj (object_literal
                          [Field "type" (VStr "boolean");
                           spread_description schema;
                           spread_default schema]))
        else if strict_eq type (VStr "string") then
          Return (VObj (object_literal
                          [Field "type" (VStr "string");
                           spread_description schema;
                           spread_default schema;
                           spread_nullable schema]))
        else if strict_eq type (VStr "array") then
          items <- (if truthy (get schema "items")
                    then moodleTypeToOpenAPI_rec fuel (get schema "items") prefix
                    else Return open_object) ;;
          Return (VObj (object_literal
                          [Field "type" (VStr "array");
                           Field "items" items;
                           spread_description schema]))
        else if strict_eq type (VStr "object") then
          if negb (truthy (get schema "properties"))
             || (length (entries (get schema "properties")) =? 0)%nat
          then
            Return (VObj (object_literal
                            [Field "type" (VStr "object");
                             Field "additionalProperties" (VBool true);
                             spread_description schema]))
          else
            done <- convert_properties (moodleTypeToOpenAPI_rec fuel)
                      (get schema "required") prefix
                      (entries (get schema "properties")) [] [] ;;
            Return (VObj (object_literal
                            [Field "type" (VStr "object");
                             Field "properties" (VObj (fst done));
                             Rest (and_then (VBool (0 <? length (snd done))%nat)
                                     (object_literal [Field "required" (VArr (snd done))]));
                             spread_description schema]))
        else Return open_object
  end.

(** The budget exceeds the depth of the schema, and every call descends:
    the budget never runs out (lemma [moodleTypeToOpenAPI_rec_fuel]). *)
Definition moodleTypeToOpenAPI (schema : value) (prefix : string) : completion value :=
  moodleTypeToOpenAPI_rec (S (depth schema)) schema prefix.

(** The tags of the scalar kind. *)
Definition scalar_tags : list string := ["integer"; "number"; "boolean"; "string"].

(** The schema of a scalar: [{ type, description?, default?, nullable? }] as
    the three cases for integer, number and string build it. *)
Definition scalar_schema (tag : string) (schema : value) : value :=
  VObj (object_literal
          [Field "type" (VStr tag);
           spread_description schema;
           spread_default schema;
           spread_nullable schema]).

(** [schema.required] as the extractor writes it: left out, or a list. *)
Definition required_list (listed : value) : Prop :=
  listed = VUndef \/ exists names, listed = VArr names.

(** The names [schema.required] lists. *)
Definition listed_names (listed : value) : list value :=
  match listed with
  | VArr names => names
  | _ => []
  end.

(** A SchemaValue: the shape of a parameter or return description in the
    schema document, one of scalar, array, object, unknown. *)
Inductive SchemaValue : value -> Prop :=
| Schema_scalar (o : object) (tag : string) :
    lookup o "type" = VStr tag -> In tag scalar_tags -> SchemaValue (VObj o)
| Schema_array (o : object) :
    lookup o "type" = VStr "array" ->
    (truthy (lookup o "items") = true -> SchemaValue (lookup o "items")) ->
    SchemaValue (VObj o)
| Schema_object (o : object) :
    lookup o "type" = VStr "object" ->
    required_list (lookup o "required") ->
    (forall k x, In (k, x) (entries (lookup o "properties")) -> SchemaValue x) ->
    SchemaValue (VObj o)
| Schema_unknown (o : object) :
    (forall tag, In tag ("array" :: "object" :: scalar_tags) -> lookup o "type" <> VStr tag) ->
    SchemaValue (VObj o).

(** [part.charAt(0).toUpperCase() + part.slice(1)], on the ASCII letters *)
Definition capitalize (part : string) : string :=
  match part with
  | EmptyString => EmptyString
  | String c rest => String (upper_char c) rest
  end.

(** [toPascalCase(str)]; [str.split] raises on anything but a string. *)
Definition toPascalCase (str : value) : completion string :=
  match str with
  | VStr s => Return (join "" (map capitalize (split "_" s)))
  | VUndef => Throw (type_error "Cannot read properties of undefined (reading 'split')")
  | VNull => Throw (type_error "Cannot read properties of null (reading 'split')")
  | _ => Throw (type_error "str.split is not a function")
  end.

(** [getTagFromFunctionName(name)] *)
Definition getTagFromFunctionName (name : string) : string :=
  match split "_" name with
  | first :: second :: _ => first ++ "_" ++ second
  | [first] => if first =? "" then "misc" else first
  | [] => "misc"
  end.

(** [tagSet.add(tag)]: a [Set] keeps the first insertion of each element. *)
Definition Set_add (tagSet : list string) (tag : string) : list string :=
  if existsb (String.eqb tag) tagSet then tagSet else (tagSet ++ [tag])%list.

Fixpoint insert_sorted (tag : string) (sorted : list string) : list string :=
  match sorted with
  | [] => [tag]
  | head :: rest =>
      if String.leb tag head then tag :: sorted else head :: insert_sorted tag rest
  end.

(** [Array.from(tagSet).sort()]: ascending by code unit; the elements of a
    set are distinct, so the order of the result does not depend on the
    sorting algorithm. *)
Definition sort_strings (tags : list string) : list string :=
  fold_right insert_sorted [] tags.

Definition tagDescriptions : object :=
  object_literal
    [Field "core_auth" (VStr "Authentication functions");
     Field "core_blog" (VStr "Blog functions");
     Field "core_calendar" (VStr "Calendar functions");
     Field "core_cohort" (VStr "Cohort management");
     Field "core_comment" (VStr "Comment functions");
     Field "core_competency" (VStr "Competency framework");
     Field "core_completion" (VStr "Course completion");
     Field "core_course" (VStr "Course management");
     Field "core_customfield" (VStr "Custom fields");
     Field "core_enrol" (VStr "Enrollment functions");
     Field "core_fetch" (VStr "Data fetching");
     Field "core_files" (VStr "File management");
     Field "core_filters" (VStr "Filter functions");
     Field "core_form" (VStr "Form functions");
     Field "core_grades" (VStr "Grade functions");
     Field "core_group" (VStr "Group management");
     Field "core_message" (VStr "Messaging functions");
     Field "core_notes" (VStr "Notes functions");
     Field "core_output" (VStr "Output functions");
     Field "core_question" (VStr "Question bank");
     Field "core_rating" (VStr "Rating functions");
     Field "core_reportbuilder" (VStr "Report builder");
     Field "core_role" (VStr "Role management");
     Field "core_search" (VStr "Search functions");
     Field "core_session" (VStr "Session management");
     Field "core_table" (VStr "Table functions");
     Field "core_tag" (VStr "Tag functions");
     Field "core_user" (VStr "User management");
     Field "core_webservice" (VStr "Web service functions");
     Field "core_xapi" (VStr "xAPI functions");
     Field "mod_assign" (VStr "Assignment module");
     Field "mod_book" (VStr "Book module");
     Field "mod_chat" (VStr "Chat module");
     Field "mod_choice" (VStr "Choice module");
     Field "mod_data" (VStr "Database module");
     Field "mod_feedback" (VStr "Feedback module");
     Field "mod_folder" (VStr "Folder module");
     Field "mod_forum" (VStr "Forum module");
     Field "mod_glossary" (VStr "Glossary module");
     Field "mod_h5pactivity" (VStr "H5P activity module");
     Field "mod_imscp" (VStr "IMS content package");
     Field "mod_label" (VStr "Label module");
     Field "mod_lesson" (VStr "Lesson module");
     Field "mod_lti" (VStr "LTI module");
     Field "mod_page" (VStr "Page module");
     Field "mod_quiz" (VStr "Quiz module");
     Field "mod_resource" (VStr "Resource module");
     Field "mod_scorm" (VStr "SCORM module");
     Field "mod_survey" (VStr "Survey module");
     Field "mod_url" (VStr "URL module");
     Field "mod_wiki" (VStr "Wiki module");
     Field "mod_workshop" (VStr "Workshop module");
     Field "tool_dataprivacy" (VStr "Data privacy tools");
     Field "tool_lp" (VStr "Learning plans");
     Field "tool_mobile" (VStr "Mobile app support");
     Field "tool_policy" (VStr "Policy management");
     Field "tool_usertours" (VStr "User tours");
     Field "enrol_guest" (VStr "Guest enrollment");
     Field "enrol_manual" (VStr "Manual enrollment");
     Field "enrol_self" (VStr "Self enrollment");
     Field "message_airnotifier" (VStr "Airnotifier messaging");
     Field "message_popup" (VStr "Popup messaging");
     Field "gradereport_grader" (VStr "Grader report");
     Field "gradereport_overview" (VStr "Overview report");
     Field "gradereport_user" (VStr "User grade report")].

(** [a || b] *)
Definition or_value (a b : value) : value := if truthy a then a else b.

(** [generateTags(functions)], given the names of the functions.  A tag is
    looked up among the own properties of [tagDescriptions]; the lookup of
    the source also sees the members every object inherits ([constructor],
    [toString], [valueOf], ...), so a function named after one of them,
    which no web service function is, is outside the model. *)
Definition generateTags (names : list string) : value :=
  let tagSet := fold_left (fun tagSet name => Set_add tagSet (getTagFromFunctionName name))
                  names [] in
  VArr (map (fun tag =>
               VObj (object_literal
                       [Field "name" (VStr tag);
                        Field "description"
                          (or_value (lookup tagDescriptions tag)
                             (VStr (tag ++ " functions")))]))
          (sort_strings tagSet)).

Definition LF : string := String (ascii_of_nat 10) EmptyString.
Definition DQ : string := String (ascii_of_nat 34) EmptyString.

(** [for (const x of v)]: the elements of an array, the characters of a
    string; any other value is not iterable. *)
Definition iterate (v : value) : completion (list value) :=
  match v with
  | VArr items => Return items
  | VStr s => Return (map (fun c => VStr (String c EmptyString)) (list_ascii_of_string s))
  | _ => Throw (type_error "schema.functions is not iterable")
  end.

Definition obj (members : list member) : value := VObj (object_literal members).

Definition ref (schemaName : string) : value :=
  obj [Field "$ref" (VStr ("#/components/schemas/" ++ schemaName))].

Definition json_content (schema : value) : value :=
  obj [Field "application/json" (obj [Field "schema" schema])].

(** The operation object assigned to [paths[path]] for one function. *)
Definition path_item (func : value) (name : string)
  (requestSchemaName responseSchemaName : string) : value :=
  obj
    [Field "post"
       (obj
          [Field "operationId" (VStr name);
           Field "summary" (or_value (get func "description") (VStr ("Call " ++ name)));
           Field "description" (or_value (get func "description") VUndef);
           Field "tags" (VArr [VStr (getTagFromFunctionName name)]);
           Rest (and_then (get func "capabilities")
                   (object_literal [Field "x-moodle-capabilities" (get func "capabilities")]));
           Rest (and_then (VBool (negb (strict_eq (get func "ajax") VUndef)))
                   (object_literal [Field "x-moodle-ajax" (get func "ajax")]));
           Rest (and_then (VBool (negb (strict_eq (get func "loginrequired") VUndef)))
                   (object_literal [Field "x-moodle-login-required" (get func "loginrequired")]));
           Field "requestBody"
             (obj [Field "required" (VBool true);
                   Field "content"
                     (obj [Field "application/x-www-form-urlencoded"
                             (obj [Field "schema" (ref requestSchemaName)])])]);
           Field "responses"
             (obj [Field "200"
                     (obj [Field "description" (VStr "Successful response");
                           Field "content" (json_content (ref responseSchemaName))]);
                   Field "400"
                     (obj [Field "description" (VStr "Bad request - invalid parameters");
                           Field "content" (json_content (ref "MoodleError"))]);
                   Field "401"
                     (obj [Field "description" (VStr "Unauthorized - invalid or missing token");
                           Field "content" (json_content (ref "MoodleError"))])]);
           Field "security" (VArr [obj [Field "wstoken" (VArr [])]])])].

Definition string_property (description : string) : value :=
  obj [Field "type" (VStr "string"); Field "description" (VStr description)].

Definition MoodleError_schema : value :=
  obj [Field "type" (VStr "object");
       Field "properties"
         (obj [Field "exception" (string_property "The exception class name");
               Field "errorcode" (string_property "The error code");
               Field "message" (string_property "Human-readable error message");
               Field "debuginfo"
                 (string_property "Debug information (only in development mode)")]);
       Field "required" (VArr [VStr "message"])].

Definition MoodleWarning_schema : value :=
  obj [Field "type" (VStr "object");
       Field "properties"
         (obj [Field "item" (string_property "Item that triggered the warning");
               Field "itemid"
                 (obj [Field "type" (VStr "integer");
                       Field "description" (VStr "ID of the item")]);
               Field "warningcode" (string_property "Warning code");
               Field "message" (string_property "Warning message")]);
       Field "required" (VArr [VStr "warningcode"; VStr "message"])].

(** What the loop over the functions has built so far: [components.schemas],
    [paths], and the names seen, in order. *)
Record generated : Type := {
  schemas : object;
  paths : object;
  names : list string
}.

(** One turn of [for (const func of schema.functions || [])]. *)
Definition generate_function (func : value) (g : generated) : completion generated :=
  name_v <- get_checked func "name" ;;
  pascalName <- toPascalCase name_v ;;
  let name := match name_v with VStr s => s | _ => EmptyString end in
  let requestSchemaName := pascalName ++ "Request" in
  let responseSchemaName := pascalName ++ "Response" in
  request <- (if truthy (get func "parameters")
              then moodleTypeToOpenAPI (get func "parameters") requestSchemaName
              else Return (obj [Field "type" (VStr "object"); Field "properties" (obj [])])) ;;
  let schemas1 := assign (schemas g) requestSchemaName request in
  response <- (if truthy (get func "returns")
               then moodleTypeToOpenAPI (get func "returns") responseSchemaName
               else Return (obj [Field "type" (VStr "object"); Field "nullable" (VBool true)])) ;;
  let schemas2 := assign schemas1 responseSchemaName response in
  let path := "/webservice/rest/" ++ name in
  Return {| schemas := schemas2;
            paths := assign (paths g) path
                       (path_item func name requestSchemaName responseSchemaName);
            names := (names g ++ [name])%list |}.

Fixpoint generate_functions (funcs : list value) (g : generated) : completion generated :=
  match funcs with
  | [] => Return g
  | func :: rest => g' <- generate_function func g ;; generate_functions rest g'
  end.

Definition info_description (release now : string) : string :=
  "Auto-generated OpenAPI specification for Moodle Web Services." ++ LF ++ LF
  ++ "Moodle Release: " ++ release ++ LF ++ "Generated: " ++ now.

(** [generateOpenAPISpec(schema, schemaName)].  [now] is what
    [new Date().toISOString()] answers when the document is put together:
    the reading of the clock, which the function takes from the runtime and
    not from its arguments. *)
Definition generateOpenAPISpec (now : string) (schema : value) (schemaName : string)
  : completion value :=
  functions <- get_checked schema "functions" ;;
  funcs <- iterate (or_value functions (VArr [])) ;;
  g <- generate_functions funcs {| schemas := []; paths := []; names := [] |} ;;
  let schemas1 := assign (schemas g) "MoodleError" MoodleError_schema in
  let schemas2 := assign schemas1 "MoodleWarning" MoodleWarning_schema in
  let components := object_literal [Field "schemas" (VObj schemas2)] in
  release <- match to_string (or_value (get schema "moodleRelease") (VStr "unknown")) with
             | Some s => Return s
             | None => Throw cannot_convert
             end ;;
  Return
    (obj
       [Field "openapi" (VStr "3.1.0");
        Field "info"
          (obj [Field "title" (VStr "Moodle Web Services API");
                Field "version" (or_value (get schema "moodleVersion") (VStr "unknown"));
                Field "description" (VStr (info_description release now));
                Field "contact"
                  (obj [Field "name" (VStr "Moodle");
                        Field "url" (VStr "https://moodle.org")]);
                Field "license"
                  (obj [Field "name" (VStr "GPL-3.0");
                        Field "url" (VStr "https://www.gnu.org/licenses/gpl-3.0.html")])]);
        Field "servers"
          (VArr
             [obj [Field "url" (VStr "{baseUrl}");
                   Field "description" (VStr "Moodle instance");
                   Field "variables"
                     (obj [Field "baseUrl"
                             (obj [Field "default" (VStr "https://moodle.example.com");
                                   Field "description"
                                     (VStr "The base URL of your Moodle installation")])])]]);
        Field "security" (VArr [obj [Field "wstoken" (VArr [])]]);
        Field "tags" (generateTags (names g));
        Field "paths" (VObj (paths g));
        Field "components"
          (obj [Rest components;
                Field "securitySchemes"
                  (obj [Field "wstoken"
                          (obj [Field "type" (VStr "apiKey");
                                Field "in" (VStr "query");
                                Field "name" (VStr "wstoken");
                                Field "description"
                                  (VStr "Web service token. Generate in Moodle: Site administration > Plugins > Web services > Manage tokens")])])])]).

(** A document with the text of [info.description] blanked. *)
Definition without_info_description (document : value) : value :=
  match document with
  | VObj o =>
      VObj (replace_value o "info"
              (match lookup o "info" with
               | VObj info => VObj (replace_value info "description" VNull)
               | other => other
               end))
  | other => other
  end.

(** ** The YAML emitter *)

Definition lf : ascii := ascii_of_nat 10.
Definition dq : ascii := ascii_of_nat 34.

Definition reserved_words : list string := ["true"; "false"; "null"; "yes"; "no"].

(** [/^[0-9]/.test(s)] *)
Definition starts_with_digit (s : string) : bool :=
  match s with
  | EmptyString => false
  | String c _ => is_digit c
  end.

(** The condition under which [formatYamlValue] quotes a string. *)
Definition needs_quotes (s : string) : bool :=
  (s =? "")
  || includes s ":"
  || includes s "#"
  || includes s LF
  || startsWith s " "
  || endsWith_char s " "
  || starts_with_digit s
  || existsb (String.eqb (toLowerCase s)) reserved_words.

(** The same condition in words: the string is empty, or has a colon, a
    hash or a line feed somewhere, or begins or ends with a space, or begins
    with a digit, or is a reserved word up to the case of its letters. *)
Definition quote_condition (s : string) : Prop :=
  s = ""
  \/ (exists a b, s = a ++ ":" ++ b)
  \/ (exists a b, s = a ++ "#" ++ b)
  \/ (exists a b, s = a ++ LF ++ b)
  \/ (exists t, s = " " ++ t)
  \/ (exists t, s = t ++ " ")
  \/ (exists c t, s = String c t /\ is_digit c = true)
  \/ In (toLowerCase s) reserved_words.

(** The quoting condition as the specification words it: any leading or
    trailing white space counts, and a line feed does not. *)
Definition spec_needs_quotes (s : string) : bool :=
  (s =? "")
  || includes s ":"
  || includes s "#"
  || match s with
     | String c _ => is_space c
     | EmptyString => false
     end
  || match last_char s with
     | Some c => is_space c
     | None => false
     end
  || starts_with_digit s
  || existsb (String.eqb (toLowerCase s)) reserved_words.

(** [`"${value.replace(/"/g, '\\"').replace(/\n/g, "\\n")}"`] *)
Definition quoted (s : string) : string :=
  DQ ++ replace_all lf "\n" (replace_all dq ("\" ++ DQ) s) ++ DQ.

(** Every double quote of [s] stands right after a backslash;
    [after_backslash] tells whether the character before [s] was one. *)
Fixpoint quotes_escaped (after_backslash : bool) (s : string) : bool :=
  match s with
  | EmptyString => true
  | String c rest =>
      (negb (Ascii.eqb c dq) || after_backslash)
      && quotes_escaped (Ascii.eqb c "\") rest
  end.

(** [formatYamlValue(value)] *)
Definition formatYamlValue (value : value) : completion string :=
  match value with
  | VNull => Return "null"
  | VUndef => Return "null"
  | VBool b => Return (if b then "true" else "false")
  | VNum n => Return (number_to_string n)
  | VStr s => Return (if needs_quotes s then quoted s else s)
  | _ => match to_string value with
         | Some s => Return s
         | None => Throw cannot_convert
         end
  end.

Definition ident_start (c : ascii) : bool :=
  is_lower c || is_upper c || Ascii.eqb c "_".

Definition ident_char (c : ascii) : bool :=
  is_lower c || is_upper c || is_digit c || Ascii.eqb c "_".

Fixpoint all_chars (p : ascii -> bool) (s : string) : bool :=
  match s with
  | EmptyString => true
  | String c rest => p c && all_chars p rest
  end.

(** [/^[a-zA-Z_][a-zA-Z0-9_]*$/.test(key)] *)
Definition safe_key (key : string) : bool :=
  match key with
  | EmptyString => false
  | String c rest => ident_start c && all_chars ident_char rest
  end.

(** [jsonToYaml(obj, indent)] *)
Fixpoint jsonToYaml (obj : value) (indent : nat) {struct obj} : completion string :=
  let spaces := repeat_string "  " indent in
  match obj with
  | VArr items =>
      if (length items =? 0)%nat then Return "[]"
      else
        (fix each (items : list value) (yaml : string) {struct items} : completion string :=
           match items with
           | [] => Return yaml
           | item :: rest =>
               if is_object item then
                 let yaml := yaml ++ LF ++ spaces ++ "-" in
                 itemYaml <- jsonToYaml item (S indent) ;;
                 let lines := filter (fun l => negb (trim l =? "")) (split lf itemYaml) in
                 match lines with
                 | [] => each rest yaml
                 | first :: more =>
                     each rest
                       (fold_left
                          (fun yaml line => yaml ++ LF ++ spaces ++ "  " ++ trim line)
                          more (yaml ++ " " ++ trim first))
                 end
               else
                 formatted <- formatYamlValue item ;;
                 each rest (yaml ++ LF ++ spaces ++ "- " ++ formatted)
           end) items ""
  | VObj props =>
      if (length props =? 0)%nat then Return "{}"
      else
        (fix each (props : object) (yaml : string) {struct props} : completion string :=
           match props with
           | [] => Return yaml
           | (key, value) :: rest =>
               let safeKey := if safe_key key then key else DQ ++ key ++ DQ in
               if is_object value then
                 nestedYaml <- jsonToYaml value (S indent) ;;
                 if startsWith nestedYaml LF || (nestedYaml =? "{}") || (nestedYaml =? "[]")
                 then
                   each rest
                     (yaml ++ spaces ++ safeKey ++ ":"
                      ++ (if (nestedYaml =? "{}") || (nestedYaml =? "[]")
                          then " " ++ nestedYaml else nestedYaml)
                      ++ LF)
                 else each rest (yaml ++ spaces ++ safeKey ++ ": " ++ nestedYaml ++ LF)
               else
                 formatted <- formatYamlValue value ;;
                 each rest (yaml ++ spaces ++ safeKey ++ ": " ++ formatted ++ LF)
           end) props ""
  | _ => formatYamlValue obj
  end.


(* ================================================================== *)
(** * Worked inputs *)
(* ================================================================== *)

(** The concrete configurations, responses and schemas that the examples
    among the properties below are stated on. *)
Definition example_options : CallOptions :=
  {| opt_baseUrl := "https://moodle.example.com";
     opt_token := "secret";
     opt_timeout := None;
     opt_fetch := false |}.


Definition config_without_baseUrl : MoodleClientConfig :=
  {| cfg_baseUrl := None; cfg_token := Some "secret"; cfg_timeout := None; cfg_fetch := false |}.

Definition config_with_empty_token : MoodleClientConfig :=
  {| cfg_baseUrl := Some "https://moodle.example.com/";
     cfg_token := Some "";
     cfg_timeout := None;
     cfg_fetch := false |}.

(** The error response and the plain response of the testable properties. *)
Definition invalid_token_response : value :=
  VObj [("message", VStr "Invalid token"); ("errorcode", VStr "invalidtoken")].

Definition message_only_response : value :=
  VObj [("message", VStr "x")].

Definition ok_response : Response :=
  {| ok := true; status := 200%Z; statusText := "OK" |}.

(** An error response whose [message] has no string form: the own property
    [toString] shadows the inherited method and is not callable. *)
Definition unconvertible_message_response : value :=
  VObj [("message", VObj [("toString", VNum 1)]); ("errorcode", VStr "invalidtoken")].


(** A URL parser for the examples: it accepts a base that starts with
    [https://] and joins the path onto it. *)
Definition example_URL_new (path base : string) : option string :=
  if startsWith base "https://" then Some (base ++ path) else None.






(** Four properties added in the order b, 10, 2, a. *)
Definition mixed_keys : list (string * value) :=
  [("b", VNum 1); ("10", VNum 2); ("2", VNum 3); ("a", VNum 4)].

(** A nullable boolean, and the same description with the integer tag. *)
Definition nullable_boolean : value :=
  VObj [("type", VStr "boolean"); ("description", VStr "Visible");
        ("required", VBool false); ("nullable", VBool true)].

Definition nullable_integer : value :=
  VObj [("type", VStr "integer"); ("description", VStr "Visible");
        ("required", VBool false); ("nullable", VBool true)].

(** An object with a required scalar and an optional array of objects. *)
Definition tag_schema : value :=
  VObj [("type", VStr "object");
        ("description", VStr "A tag");
        ("properties",
         VObj [("name", VObj [("type", VStr "string"); ("description", VStr "Tag name");
                               ("required", VBool true)])]);
        ("required", VArr [VStr "name"])].

Definition course_schema : value :=
  VObj [("type", VStr "object");
        ("description", VStr "A course");
        ("properties",
         VObj [("id", VObj [("type", VStr "integer"); ("description", VStr "Course id");
                            ("required", VBool true)]);
               ("tags", VObj [("type", VStr "array"); ("description", VStr "Tags");
                              ("items", tag_schema)])]);
        ("required", VArr [VStr "id"])].

Definition TAB : string := String (ascii_of_nat 9) EmptyString.

(** The document of the testable property of the emitter. *)
Definition yaml_example : value :=
  VObj [("a", VStr "true"); ("b", VNum 1); ("c", VArr [VNum 1; VNum 2])].

Definition yaml_example_text : string :=
  "a: " ++ DQ ++ "true" ++ DQ ++ LF
  ++ "b: 1" ++ LF
  ++ "c:" ++ LF
  ++ "  - 1" ++ LF
  ++ "  - 2" ++ LF.

(** A schema document with one function. *)
Definition example_schema : value :=
  VObj [("moodleVersion", VStr "2024100700");
        ("moodleRelease", VStr "4.5");
        ("functions",
         VArr [VObj [("name", VStr "core_course_get_courses");
                     ("description", VStr "Return course details");
                     ("parameters", course_schema);
                     ("returns", VNull)]])].

(* ================================================================== *)
(** * Further definitions: what the properties below are stated with *)
(* ================================================================== *)

(** ** Serializer *)

(** The texts the terminal scalars of a value are sent as, in document
    order: a boolean as 1 or 0, a number in decimal, a string as it is. *)
Fixpoint scalar_texts (v : value) : list string :=
  match v with
  | VUndef | VNull => []
  | VBool b => [if b then "1" else "0"]
  | VNum n => [number_to_string n]
  | VStr s => [s]
  | VArr items => flat_map scalar_texts items
  | VObj o => flat_map (fun kv => scalar_texts (snd kv)) o
  end.

(** The key [serializeParams] starts from for a top-level entry. *)
Definition fullKey (prefix key : string) : string :=
  if negb (prefix =? "") then bracket prefix key else key.

(** ** Client *)

(** The options [MoodleClient.prototype.call] hands to [call]. *)
Definition MoodleClient_options (client : MoodleClient) : CallOptions :=
  {| opt_baseUrl := baseUrl client;
     opt_token := token client;
     opt_timeout := Some (timeout client);
     opt_fetch := fetch client |}.

(** [MoodleClient.prototype.getSiteInfo] *)
Definition MoodleClient_getSiteInfo (URL_new : string -> string -> option string)
  (client : MoodleClient) (evs : list event) : completion (option call_state) :=
  MoodleClient_call URL_new client "core_webservice_get_site_info" [] evs.

(** A thrown value of the taxonomy that [call] documents: an API error or a
    network error. *)
Definition call_error (e : exn) : bool :=
  match e with
  | MoodleApiError _ _ _ _ | MoodleNetworkError _ _ => true
  | _ => false
  end.

Definition not_found_response : Response :=
  {| ok := false; status := 404%Z; statusText := "Not Found" |}.

Definition connection_refused : exn := JsError "TypeError" "fetch failed".

Definition example_config : MoodleClientConfig :=
  {| cfg_baseUrl := Some "https://moodle.example.com//";
     cfg_token := Some "s3cret token";
     cfg_timeout := None;
     cfg_fetch := false |}.

(** ** Transformer *)

(** The test of the property loop on one entry:
    [schema.required?.includes(key) || value.required === true]. *)
Definition is_required_property (listed : value) (kv : string * value) : bool :=
  existsb (strict_eq (VStr (fst kv))) (listed_names listed)
  || strict_eq (get (snd kv) "required") (VBool true).

(** The names the test selects, in the order of the properties. *)
Definition required_names (listed : value) (props : object) : list value :=
  map (fun kv => VStr (fst kv)) (filter (is_required_property listed) props).

(** A key that an assignment appends after the keys already there: neither
    an array index nor [__proto__]. *)
Definition plain_key (k : string) : bool :=
  match array_index k with
  | Some _ => false
  | None => negb (k =? "__proto__")
  end.

(** A description whose property list holds a [null]. *)
Definition schema_with_null_property : value :=
  VObj [("type", VStr "object");
        ("properties",
         VObj [("id", VObj [("type", VStr "integer"); ("required", VBool true)]);
               ("extra", VNull)])].

(** The properties of [course_schema], and the object itself. *)
Definition course_properties : object :=
  [("id", VObj [("type", VStr "integer"); ("description", VStr "Course id");
                ("required", VBool true)]);
   ("tags", VObj [("type", VStr "array"); ("description", VStr "Tags");
                  ("items", tag_schema)])].

Definition course_object : object :=
  [("type", VStr "object");
   ("description", VStr "A course");
   ("properties", VObj course_properties);
   ("required", VArr [VStr "id"])].

(** ** Generator *)

(** No underscore anywhere in the string. *)
Definition no_underscore (s : string) : bool :=
  all_chars (fun c => negb (Ascii.eqb c "_")) s.

(** Strictly ascending in the order [sort] uses: sorted, and without
    duplicates. *)
Fixpoint ascending (tags : list string) : bool :=
  match tags with
  | a :: ((b :: _) as rest) => String.ltb a b && ascending rest
  | _ => true
  end.

(** The PascalCase form of a function name. *)
Definition pascal_name (name : string) : string :=
  join "" (map capitalize (split "_" name)).

(** The schema an operation refers to for its request body, and for its
    response under a status code. *)
Definition request_schema (item : value) : value :=
  get (get (get (get (get item "post") "requestBody") "content")
         "application/x-www-form-urlencoded") "schema".

Definition response_schema (code : string) (item : value) : value :=
  get (get (get (get (get (get item "post") "responses") code) "content")
         "application/json") "schema".

(** What holds of the accumulators of the loop over the functions: every
    path item was written by the loop for a function whose name is among
    [names], and every such name has its path and its two schemas. *)
Definition generated_ok (g : generated) : Prop :=
  (forall path item, In (path, item) (paths g) ->
     exists func name,
       item = path_item func name (pascal_name name ++ "Request")
                (pascal_name name ++ "Response")
       /\ path = "/webservice/rest/" ++ name
       /\ In name (names g))
  /\ (forall name, In name (names g) ->
        has (schemas g) (pascal_name name ++ "Request") = true
        /\ has (schemas g) (pascal_name name ++ "Response") = true
        /\ has (paths g) ("/webservice/rest/" ++ name) = true).

(** A schema document without a list of functions. *)
Definition empty_schema_document : value :=
  VObj [("moodleVersion", VStr "2024100700"); ("moodleRelease", VStr "4.5")].

(** ** Emitter *)

(** The two loops of [jsonToYaml] under their own names: over the items of
    an array and over the entries of an object, with the text built so
    far. *)
Definition yaml_items (indent : nat) : list value -> string -> completion string :=
  let spaces := repeat_string "  " indent in
  fix each (items : list value) (yaml : string) {struct items} : completion string :=
  match items with
  | [] => Return yaml
  | item :: rest =>
      if is_object item then
        let yaml := yaml ++ LF ++ spaces ++ "-" in
        itemYaml <- jsonToYaml item (S indent) ;;
        let lines := filter (fun l => negb (trim l =? "")) (split lf itemYaml) in
        match lines with
        | [] => each rest yaml
        | first :: more =>
            each rest
              (fold_left
                 (fun yaml line => yaml ++ LF ++ spaces ++ "  " ++ trim line)
                 more (yaml ++ " " ++ trim first))
        end
      else
        formatted <- formatYamlValue item ;;
        each rest (yaml ++ LF ++ spaces ++ "- " ++ formatted)
  end.

Definition yaml_entries (indent : nat) : object -> string -> completion string :=
  let spaces := repeat_string "  " indent in
  fix each (props : object) (yaml : string) {struct props} : completion string :=
  match props with
  | [] => Return yaml
  | (key, value) :: rest =>
      let safeKey := if safe_key key then key else DQ ++ key ++ DQ in
      if is_object value then
        nestedYaml <- jsonToYaml value (S indent) ;;
        if startsWith nestedYaml LF || (nestedYaml =? "{}") || (nestedYaml =? "[]")
        then
          each rest
            (yaml ++ spaces ++ safeKey ++ ":"
             ++ (if (nestedYaml =? "{}") || (nestedYaml =? "[]")
                 then " " ++ nestedYaml else nestedYaml)
             ++ LF)
        else each rest (yaml ++ spaces ++ safeKey ++ ": " ++ nestedYaml ++ LF)
      else
        formatted <- formatYamlValue value ;;
        each rest (yaml ++ spaces ++ safeKey ++ ": " ++ formatted ++ LF)
  end.

(** The text of a scalar: what [formatYamlValue] returns for a value that is
    neither an array nor an object. *)
Definition scalar_yaml (v : value) : string :=
  match v with
  | VBool b => if b then "true" else "false"
  | VNum n => number_to_string n
  | VStr s => if needs_quotes s then quoted s else s
  | _ => "null"
  end.

(** A key as the emitter writes it. *)
Definition yaml_key (key : string) : string :=
  if safe_key key then key else DQ ++ key ++ DQ.

(** No line feed anywhere in the string. *)
Definition single_line (s : string) : bool :=
  all_chars (fun c => negb (Ascii.eqb c lf)) s.

(** Values that are neither arrays nor objects. *)
Definition scalars (vs : list value) : bool :=
  forallb (fun v => negb (is_object v)) vs.

(** One line per entry of a mapping of scalars. *)
Definition mapping_text (indent : nat) (props : object) : string :=
  fold_right
    (fun kv text =>
       repeat_string "  " indent ++ yaml_key (fst kv) ++ ": "
       ++ scalar_yaml (snd kv) ++ LF ++ text)
    "" props.

(** One line per item of a list of scalars, each opened by a line feed. *)
Definition list_text (indent : nat) (items : list value) : string :=
  fold_right
    (fun item text =>
       LF ++ repeat_string "  " indent ++ "- " ++ scalar_yaml item ++ text)
    "" items.
(* ================================================================== *)
(** * Properties of the runtime fragment *)
(* ================================================================== *)

(** Induction on a value with the hypothesis available for every element of
    an array and every property value of an object. *)
Lemma value_induction (P : value -> Prop) :
  P VUndef -> P VNull ->
  (forall b, P (VBool b)) -> (forall n, P (VNum n)) -> (forall s, P (VStr s)) ->
  (forall items, Forall P items -> P (VArr items)) ->
  (forall o, Forall (fun kv => P (snd kv)) o -> P (VObj o)) ->
  forall v, P v.
Proof.
  intros Hu Hn Hb Hz Hs Ha Ho.
  fix IH 1.
  intros [ | | b | n | s | items | o ].
  - exact Hu.
  - exact Hn.
  - apply Hb.
  - apply Hz.
  - apply Hs.
  - apply Ha. induction items as [ | item items IHitems ]; constructor.
    + apply IH.
    + exact IHitems.
  - apply Ho. induction o as [ | [k v] o IHo ]; constructor.
    + apply IH.
    + exact IHo.
Qed.

Lemma forEach_from_ext {A St : Type} (f g : St -> A -> nat -> St) (xs : list A) :
  Forall (fun x => forall st i, f st x i = g st x i) xs ->
  forall i st, forEach_from f xs i st = forEach_from g xs i st.
Proof.
  induction 1 as [ | x xs Hx _ IH ]; intros i st; simpl.
  - reflexivity.
  - rewrite Hx. apply IH.
Qed.

Lemma fold_left_ext_Forall {A St : Type} (f g : St -> A -> St) (xs : list A) :
  Forall (fun x => forall st, f st x = g st x) xs ->
  forall st, fold_left f xs st = fold_left g xs st.
Proof.
  induction 1 as [ | x xs Hx _ IH ]; intros st; simpl.
  - reflexivity.
  - rewrite Hx. apply IH.
Qed.

(* ================================================================== *)
(** * Properties of the parameter serializer *)
(* ================================================================== *)

Lemma appendParam_VArr key items sp :
  appendParam key (VArr items) sp =
  forEach (fun sp item index => append_item (bracket key (index_to_string index)) item sp)
    items sp.
Proof. reflexivity. Qed.

Lemma appendParam_VObj key o sp :
  appendParam key (VObj o) sp =
  fold_left (fun sp kv => appendParam (bracket key (fst kv)) (snd kv) sp) o sp.
Proof. reflexivity. Qed.

(** Unfolding an element in place is the same as appending it: the special
    case of the array branch only spares one call. *)
Lemma append_item_appendParam :
  forall item arrayKey sp, append_item arrayKey item sp = appendParam arrayKey item sp.
Proof.
  induction item as [ | | b | n | s | items IH | o IH ] using value_induction;
    intros arrayKey sp; try reflexivity.
  rewrite appendParam_VArr. unfold append_item, forEach.
  apply forEach_from_ext.
  eapply Forall_impl; [ | exact IH ].
  intros item Hitem st i. cbv beta. symmetry. apply Hitem.
Qed.

(** The array branch, element by element. *)
Lemma appendParam_array key items sp :
  appendParam key (VArr items) sp =
  forEach (fun sp item index => appendParam (bracket key (index_to_string index)) item sp)
    items sp.
Proof.
  rewrite appendParam_VArr. unfold forEach. apply forEach_from_ext.
  apply Forall_forall. intros item _ st i. apply append_item_appendParam.
Qed.

Lemma forEach_from_length {A : Type} (f : URLSearchParams -> A -> nat -> URLSearchParams)
  (count : A -> nat) (xs : list A) :
  Forall (fun x => forall sp i, length (f sp x i) = length sp + count x) xs ->
  forall i sp,
    length (forEach_from f xs i sp) = length sp + fold_right (fun x n => count x + n) 0 xs.
Proof.
  induction 1 as [ | x xs Hx _ IH ]; intros i sp; simpl.
  - lia.
  - rewrite IH, Hx. lia.
Qed.

Lemma fold_left_length {A : Type} (f : URLSearchParams -> A -> URLSearchParams)
  (count : A -> nat) (xs : list A) :
  Forall (fun x => forall sp, length (f sp x) = length sp + count x) xs ->
  forall sp,
    length (fold_left f xs sp) = length sp + fold_right (fun x n => count x + n) 0 xs.
Proof.
  induction 1 as [ | x xs Hx _ IH ]; intros sp; simpl.
  - lia.
  - rewrite IH, Hx. lia.
Qed.

Lemma appendParam_length :
  forall v key sp, length (appendParam key v sp) = length sp + scalar_count v.
Proof.
  induction v as [ | | b | n | s | items IH | o IH ] using value_induction;
    intros key sp.
  - simpl. lia.
  - simpl. lia.
  - simpl. unfold sp_append. rewrite length_app. reflexivity.
  - simpl. unfold sp_append. rewrite length_app. reflexivity.
  - simpl. unfold sp_append. rewrite length_app. reflexivity.
  - rewrite appendParam_array. unfold forEach.
    rewrite (forEach_from_length _ scalar_count).
    + reflexivity.
    + eapply Forall_impl; [ | exact IH ]. intros item Hitem sp' i. apply Hitem.
  - rewrite appendParam_VObj.
    rewrite (fold_left_length _ (fun kv => scalar_count (snd kv))).
    + reflexivity.
    + eapply Forall_impl; [ | exact IH ]. intros kv Hkv sp'. apply Hkv.
Qed.

(** C5. For every (finite, hence acyclic) parameter tree and every prefix,
    [serializeParams] returns exactly as many key/value entries as the tree
    has terminal scalars (strings, numbers, booleans); a [null] or
    [undefined] value adds no entry.  The function is total: no input makes
    it raise. *)
Theorem serializeParams_one_entry_per_scalar :
  forall (params : object) (prefix : string),
    length (serializeParams params prefix) = scalar_total params
    /\ (forall key sp, appendParam key VNull sp = sp)
    /\ (forall key sp, appendParam key VUndef sp = sp).
Proof.
  intros params prefix. split; [ | split; reflexivity ].
  unfold serializeParams, scalar_total.
  rewrite (fold_left_length _ (fun kv => scalar_count (snd kv))).
  - reflexivity.
  - apply Forall_forall. intros kv _ sp. apply appendParam_length.
Qed.

Lemma forEach_from_app {A : Type} (f : URLSearchParams -> A -> nat -> URLSearchParams)
  (xs : list A) :
  Forall (fun x => forall sp i, f sp x i = (sp ++ f [] x i)%list) xs ->
  forall i sp, forEach_from f xs i sp = (sp ++ forEach_from f xs i [])%list.
Proof.
  induction 1 as [ | x xs Hx _ IH ]; intros i sp; simpl.
  - symmetry. apply app_nil_r.
  - rewrite IH. rewrite (IH (S i) (f [] x i)). rewrite Hx. symmetry. apply app_assoc.
Qed.

Lemma fold_left_app_state {A : Type} (f : URLSearchParams -> A -> URLSearchParams)
  (xs : list A) :
  Forall (fun x => forall sp, f sp x = (sp ++ f [] x)%list) xs ->
  forall sp, fold_left f xs sp = (sp ++ fold_left f xs [])%list.
Proof.
  induction 1 as [ | x xs Hx _ IH ]; intros sp; simpl.
  - symmetry. apply app_nil_r.
  - rewrite IH. rewrite (IH (f [] x)). rewrite Hx. symmetry. apply app_assoc.
Qed.

(** What a value adds does not depend on what was appended before it. *)
Lemma appendParam_app :
  forall v key sp, appendParam key v sp = (sp ++ appendParam key v [])%list.
Proof.
  induction v as [ | | b | n | s | items IH | o IH ] using value_induction;
    intros key sp; try reflexivity.
  - simpl. symmetry. apply app_nil_r.
  - simpl. symmetry. apply app_nil_r.
  - rewrite !appendParam_array. unfold forEach. apply forEach_from_app.
    eapply Forall_impl; [ | exact IH ]. intros item Hitem sp' i. apply Hitem.
  - rewrite !appendParam_VObj. apply fold_left_app_state.
    eapply Forall_impl; [ | exact IH ]. intros kv Hkv sp'. apply Hkv.
Qed.

(** The entries of an earlier key all come before those of a later key. *)
Lemma serializeParams_app (params1 params2 : object) (prefix : string) :
  serializeParams (params1 ++ params2)%list prefix
  = (serializeParams params1 prefix ++ serializeParams params2 prefix)%list.
Proof.
  unfold serializeParams. rewrite fold_left_app.
  apply fold_left_app_state.
  apply Forall_forall. intros kv _ sp. apply appendParam_app.
Qed.

(* ================================================================== *)
(** * Properties of objects: reading after writing *)
(* ================================================================== *)

Ltac string_cases :=
  repeat match goal with
         | |- context [String.eqb ?a ?b] => destruct (String.eqb_spec a b); subst
         | H : context [String.eqb ?a ?b] |- _ => destruct (String.eqb_spec a b); subst
         end; simpl in *; try congruence.

Lemma lookup_replace_value o k v k' :
  has o k = true ->
  lookup (replace_value o k v) k' = if k =? k' then v else lookup o k'.
Proof.
  induction o as [ | [k0 v0] o IH ]; simpl; intros Hhas.
  - discriminate.
  - destruct (String.eqb_spec k0 k) as [-> | Hne]; simpl.
    + string_cases.
    + rewrite IH by exact Hhas. string_cases.
Qed.

Lemma lookup_insert_index o n k v k' :
  has o k = false ->
  lookup (insert_index o n k v) k' = if k =? k' then v else lookup o k'.
Proof.
  induction o as [ | [k0 v0] o IH ]; simpl; intros Hhas.
  - reflexivity.
  - apply orb_false_iff in Hhas as [Hk0 Ho].
    destruct (array_index k0) as [m | ]; [ destruct (m <? n)%N | ]; simpl;
      try reflexivity.
    rewrite IH by exact Ho. string_cases.
Qed.

Lemma lookup_app_last o k v k' :
  has o k = false ->
  lookup (o ++ [(k, v)])%list k' = if k =? k' then v else lookup o k'.
Proof.
  induction o as [ | [k0 v0] o IH ]; simpl; intros Hhas.
  - reflexivity.
  - apply orb_false_iff in Hhas as [Hk0 Ho].
    rewrite IH by exact Ho. string_cases.
Qed.

(** Reading a property after [define]. *)
Lemma lookup_define o k v k' :
  lookup (define o k v) k' = if k =? k' then v else lookup o k'.
Proof.
  unfold define. destruct (has o k) eqn:Hhas.
  - apply lookup_replace_value, Hhas.
  - destruct (array_index k).
    + apply lookup_insert_index, Hhas.
    + apply lookup_app_last, Hhas.
Qed.

Lemma lookup_spread_absent source : forall target k,
  has source k = false -> lookup (spread target source) k = lookup target k.
Proof.
  unfold spread.
  induction source as [ | [k0 v0] source IH ]; simpl; intros target k Hhas.
  - reflexivity.
  - apply orb_false_iff in Hhas as [Hk0 Hs].
    rewrite IH by exact Hs. rewrite lookup_define. simpl. rewrite Hk0. reflexivity.
Qed.

Lemma has_In o k : has o k = true <-> In k (map fst o).
Proof.
  induction o as [ | [k0 v0] o IH ]; simpl.
  - split; [ discriminate | tauto ].
  - rewrite orb_true_iff, IH. destruct (String.eqb_spec k0 k); intuition congruence.
Qed.

(** In a spread the source wins: every property of the source is read back
    from the result, whatever the target held under that key. *)
Lemma lookup_spread_present source : forall target k v,
  NoDup (map fst source) -> In (k, v) source ->
  lookup (spread target source) k = v.
Proof.
  unfold spread.
  induction source as [ | [k0 v0] source IH ]; simpl; intros target k v Hnd Hin.
  - contradiction.
  - inversion Hnd as [ | ? ? Hnotin Hnd' ]; subst.
    destruct Hin as [Heq | Hin].
    + injection Heq as -> ->.
      change (lookup (spread (define target k v) source) k = v).
      rewrite lookup_spread_absent.
      * rewrite lookup_define, String.eqb_refl. reflexivity.
      * destruct (has source k) eqn:Hhas; [ | reflexivity ].
        apply has_In in Hhas. contradiction.
    + apply IH; assumption.
Qed.

Lemma lookup_In o k v : lookup o k = v -> v <> VUndef -> In (k, v) o.
Proof.
  induction o as [ | [k0 v0] o IH ]; simpl; intros Hl Hv.
  - congruence.
  - destruct (String.eqb_spec k0 k) as [-> | Hne].
    + left. congruence.
    + right. apply IH; assumption.
Qed.

(* ================================================================== *)
(** * Properties of the request body *)
(* ================================================================== *)

Lemma forEach_from_extends {A : Type} (f : URLSearchParams -> A -> nat -> URLSearchParams)
  (xs : list A) :
  Forall (fun x => forall sp i, exists more, f sp x i = (sp ++ more)%list) xs ->
  forall i sp, exists more, forEach_from f xs i sp = (sp ++ more)%list.
Proof.
  induction 1 as [ | x xs Hx _ IH ]; intros i sp; simpl.
  - exists []. symmetry. apply app_nil_r.
  - destruct (Hx sp i) as [m1 ->]. destruct (IH (S i) (sp ++ m1)%list) as [m2 ->].
    exists (m1 ++ m2)%list. symmetry. apply app_assoc.
Qed.

Lemma fold_left_extends {A : Type} (f : URLSearchParams -> A -> URLSearchParams)
  (xs : list A) :
  Forall (fun x => forall sp, exists more, f sp x = (sp ++ more)%list) xs ->
  forall sp, exists more, fold_left f xs sp = (sp ++ more)%list.
Proof.
  induction 1 as [ | x xs Hx _ IH ]; intros sp; simpl.
  - exists []. symmetry. apply app_nil_r.
  - destruct (Hx sp) as [m1 ->]. destruct (IH (sp ++ m1)%list) as [m2 ->].
    exists (m1 ++ m2)%list. symmetry. apply app_assoc.
Qed.

(** [appendParam] only ever appends. *)
Lemma appendParam_extends :
  forall v key sp, exists more, appendParam key v sp = (sp ++ more)%list.
Proof.
  induction v as [ | | b | n | s | items IH | o IH ] using value_induction;
    intros key sp.
  - exists []. symmetry. apply app_nil_r.
  - exists []. symmetry. apply app_nil_r.
  - eexists. reflexivity.
  - eexists. reflexivity.
  - eexists. reflexivity.
  - rewrite appendParam_array. apply forEach_from_extends.
    eapply Forall_impl; [ | exact IH ]. intros item Hitem sp' i. apply Hitem.
  - rewrite appendParam_VObj. apply fold_left_extends.
    eapply Forall_impl; [ | exact IH ]. intros kv Hkv sp'. apply Hkv.
Qed.

Lemma serialize_fold_keeps (params : object) (prefix : string) :
  forall sp e, In e sp ->
    In e (fold_left
            (fun sp kv =>
               appendParam (if negb (prefix =? "") then bracket prefix (fst kv) else fst kv)
                 (snd kv) sp)
            params sp).
Proof.
  induction params as [ | kv params IH ]; simpl; intros sp e Hin.
  - exact Hin.
  - apply IH.
    destruct (appendParam_extends (snd kv)
                (if negb (prefix =? "") then bracket prefix (fst kv) else fst kv) sp)
      as [more ->].
    apply in_or_app. left. exact Hin.
Qed.

(** A top-level string property is sent under its own name. *)
Lemma serializeParams_string (params : object) (k s : string) :
  In (k, VStr s) params -> In (k, s) (serializeParams params "").
Proof.
  unfold serializeParams. generalize (@nil (string * string)).
  induction params as [ | kv params IH ]; simpl; intros sp Hin.
  - contradiction.
  - destruct Hin as [-> | Hin].
    + apply (serialize_fold_keeps params ""). simpl. unfold sp_append.
      apply in_or_app. right. left. reflexivity.
    + apply IH, Hin.
Qed.

(** ** Property order *)

Lemma above_weaken m n o : (m <= n)%N -> above n o -> above m o.
Proof.
  intros Hle H. unfold above in *. eapply Forall_impl; [ | exact H ].
  intros kv [j [Hj Hlt]]. exists j. split; [ exact Hj | lia ].
Qed.

Lemma ascending_above rest : forall n,
  indices_ascending rest = true ->
  match rest with
  | [] => True
  | (k', _) :: _ => exists m, array_index k' = Some m /\ (n < m)%N
  end ->
  above n rest.
Proof.
  induction rest as [ | [k v] rest IH ]; intros n Hasc Hhead.
  - constructor.
  - destruct Hhead as [m [Hm Hlt]]. cbn [indices_ascending] in Hasc. rewrite Hm in Hasc.
    apply andb_true_iff in Hasc as [Hadj Hasc].
    constructor; [ exists m; split; [ exact Hm | exact Hlt ] | ].
    apply (above_weaken n m); [ lia | ].
    apply IH; [ exact Hasc | ].
    destruct rest as [ | [k' v'] rest ]; [ exact I | ].
    destruct (array_index k') as [j | ]; [ | discriminate Hadj ].
    exists j. split; [ reflexivity | apply N.ltb_lt, Hadj ].
Qed.

Lemma indices_ascending_cons k v rest :
  indices_ascending ((k, v) :: rest) = true
  <-> exists n, array_index k = Some n /\ above n rest /\ indices_ascending rest = true.
Proof.
  split.
  - intros Hasc. cbn [indices_ascending] in Hasc.
    destruct (array_index k) as [n | ] eqn:Hk; [ | discriminate Hasc ].
    apply andb_true_iff in Hasc as [Hadj Hasc].
    exists n. split; [ reflexivity | ]. split; [ | exact Hasc ].
    apply ascending_above; [ exact Hasc | ].
    destruct rest as [ | [k' v'] rest ]; [ exact I | ].
    destruct (array_index k') as [j | ]; [ | discriminate Hadj ].
    exists j. split; [ reflexivity | apply N.ltb_lt, Hadj ].
  - intros [n [Hk [Habove Hasc]]]. cbn [indices_ascending]. rewrite Hk, Hasc.
    rewrite andb_true_r.
    destruct rest as [ | [k' v'] rest ]; [ reflexivity | ].
    inversion Habove as [ | kv l [j [Hj Hlt]] _ ]; subst. cbn [fst] in Hj.
    rewrite Hj. apply N.ltb_lt, Hlt.
Qed.

Lemma array_index_inj k k' n :
  array_index k = Some n -> array_index k' = Some n -> k = k'.
Proof.
  unfold array_index. intros H H'.
  destruct (NilZero.uint_of_string k) as [u | ]; [ | discriminate H ].
  destruct (NilZero.uint_of_string k') as [u' | ]; [ | discriminate H' ].
  destruct (NilZero.string_of_uint (N.to_uint (N.of_uint u)) =? k) eqn:E;
    [ | discriminate H ].
  destruct (NilZero.string_of_uint (N.to_uint (N.of_uint u')) =? k') eqn:E';
    [ | discriminate H' ].
  cbn [andb] in H, H'.
  destruct (N.of_uint u <? 4294967295)%N; [ | discriminate H ].
  destruct (N.of_uint u' <? 4294967295)%N; [ | discriminate H' ].
  injection H as H. injection H' as H'.
  apply String.eqb_eq in E, E'. rewrite H in E. rewrite H' in E'. congruence.
Qed.

(** A new index key goes to its place among the index keys, which come
    before every other key. *)
Lemma insert_index_split n k v rest :
  array_index k = Some n ->
  Forall (fun kv => is_index (fst kv) = false) rest ->
  forall idx,
    indices_ascending idx = true ->
    (forall kv, In kv idx -> fst kv <> k) ->
    exists idx',
      insert_index (idx ++ rest)%list n k v = (idx' ++ rest)%list
      /\ indices_ascending idx' = true
      /\ (forall kv, In kv idx' <-> kv = (k, v) \/ In kv idx)
      /\ (forall m, (m < n)%N -> above m idx -> above m idx').
Proof.
  intros Hk Hrest. induction idx as [ | [k0 v0] idx IH ]; intros Hasc Hfresh.
  - exists [(k, v)]. split; [ | split; [ | split ] ].
    + cbn [app]. destruct rest as [ | [k' v'] rest' ]; [ reflexivity | ].
      cbn [insert_index]. inversion Hrest as [ | kv l Hhead _ ]; subst.
      unfold is_index in Hhead. cbn [fst] in Hhead.
      destruct (array_index k'); [ discriminate Hhead | reflexivity ].
    + cbn [indices_ascending]. rewrite Hk. reflexivity.
    + intros kv. cbn [In]. intuition.
    + intros m Hlt _. constructor; [ | constructor ].
      exists n. split; [ exact Hk | exact Hlt ].
  - apply indices_ascending_cons in Hasc as [m [Hk0 [Habove Hasc]]].
    cbn [app insert_index]. rewrite Hk0.
    destruct (m <? n)%N eqn:Hlt.
    + apply N.ltb_lt in Hlt.
      destruct IH as [idx' [Heq [Hasc' [Hin Hab]]]];
        [ exact Hasc | intros kv Hkv; apply Hfresh; right; exact Hkv | ].
      exists ((k0, v0) :: idx'). split; [ | split; [ | split ] ].
      * cbn [app]. rewrite Heq. reflexivity.
      * apply indices_ascending_cons. exists m. split; [ exact Hk0 | ].
        split; [ apply Hab; assumption | exact Hasc' ].
      * intros kv. cbn [In]. rewrite Hin. intuition.
      * intros j Hj Hall. inversion Hall as [ | kv l Hhead Htail ]; subst.
        constructor; [ exact Hhead | apply Hab; assumption ].
    + apply N.ltb_ge in Hlt.
      assert (Hne : m <> n).
      { intros ->. apply (Hfresh (k0, v0)); [ left; reflexivity | ].
        cbn [fst]. eapply array_index_inj; eassumption. }
      exists ((k, v) :: (k0, v0) :: idx). split; [ | split; [ | split ] ].
      * reflexivity.
      * apply indices_ascending_cons. exists n. split; [ exact Hk | ]. split.
        -- constructor; [ exists m; split; [ exact Hk0 | lia ] | ].
           apply (above_weaken n m); [ lia | exact Habove ].
        -- apply indices_ascending_cons. exists m. auto.
      * intros kv. cbn [In]. intuition.
      * intros j Hj Hall. constructor; [ | exact Hall ].
        exists n. split; [ exact Hk | exact Hj ].
Qed.

Lemma inserted_snoc kvs k v : inserted (kvs ++ [(k, v)])%list = define (inserted kvs) k v.
Proof. unfold inserted. rewrite fold_left_app. reflexivity. Qed.

(** The property order of a mapping built from distinct keys: the index
    keys first, ascending, then the other keys as they were added. *)
Lemma inserted_order kvs :
  NoDup (map fst kvs) ->
  exists indexed,
    inserted kvs = (indexed ++ filter (fun kv => negb (is_index (fst kv))) kvs)%list
    /\ indices_ascending indexed = true
    /\ (forall kv, In kv indexed <-> In kv kvs /\ is_index (fst kv) = true).
Proof.
  induction kvs as [ | [k v] kvs IH ] using rev_ind; intros Hnd.
  - exists []. split; [ reflexivity | ]. split; [ reflexivity | ].
    intros kv. cbn [In]. tauto.
  - rewrite map_app in Hnd. cbn [map fst] in Hnd.
    apply NoDup_remove in Hnd as [Hnd Hfresh]. rewrite app_nil_r in Hnd, Hfresh.
    destruct (IH Hnd) as [indexed [Heq [Hasc Hin]]].
    rewrite inserted_snoc, filter_app. cbn [filter fst].
    assert (Hplain : Forall (fun kv => is_index (fst kv) = false)
                       (filter (fun kv => negb (is_index (fst kv))) kvs)).
    { apply Forall_forall. intros kv Hkv. apply filter_In in Hkv as [_ Hkv].
      apply negb_true_iff, Hkv. }
    assert (Hhas : has (inserted kvs) k = false).
    { destruct (has (inserted kvs) k) eqn:E; [ | reflexivity ].
      exfalso. apply Hfresh. apply has_In in E. rewrite Heq, map_app in E.
      apply in_app_iff in E as [E | E]; apply in_map_iff in E as [kv [Hfst Hkv]];
        apply in_map_iff; exists kv; (split; [ exact Hfst | ]).
      - apply Hin, Hkv.
      - apply filter_In in Hkv. apply Hkv. }
    unfold define. rewrite Hhas. unfold is_index at 2.
    destruct (array_index k) as [n | ] eqn:Hk; cbn [negb].
    + destruct (insert_index_split n k v _ Hk Hplain indexed Hasc)
        as [idx' [Hins [Hasc' [Hin' _]]]].
      { intros kv Hkv Hfst. apply Hfresh. apply in_map_iff. exists kv.
        split; [ exact Hfst | apply Hin, Hkv ]. }
      exists idx'. rewrite Heq, Hins, app_nil_r.
      split; [ reflexivity | ]. split; [ exact Hasc' | ].
      intros kv. rewrite Hin', Hin, in_app_iff. cbn [In]. split.
      * intros [-> | [H1 H2]].
        -- split; [ right; left; reflexivity | ]. unfold is_index. cbn [fst].
           rewrite Hk. reflexivity.
        -- split; [ left; exact H1 | exact H2 ].
      * intros [[H1 | [<- | []]] H2]; [ right; split; assumption | left; reflexivity ].
    + exists indexed. rewrite Heq, <- app_assoc.
      split; [ reflexivity | ]. split; [ exact Hasc | ].
      intros kv. rewrite Hin, in_app_iff. cbn [In]. split.
      * intros [H1 H2]. split; [ left; exact H1 | exact H2 ].
      * intros [[H1 | [<- | []]] H2]; [ split; assumption | ].
        unfold is_index in H2. cbn [fst] in H2. rewrite Hk in H2. discriminate H2.
Qed.

Lemma filter_all {A : Type} (p : A -> bool) (xs : list A) :
  Forall (fun x => p x = true) xs -> filter p xs = xs.
Proof.
  induction 1 as [ | x xs Hx _ IH ]; cbn [filter]; [ reflexivity | ].
  rewrite Hx, IH. reflexivity.
Qed.

Lemma serializeParams_each (params : object) (prefix : string) :
  serializeParams params prefix
  = flat_map (fun kv => serializeParams [kv] prefix) params.
Proof.
  induction params as [ | kv params IH ]; [ reflexivity | ].
  change (kv :: params) with ([kv] ++ params)%list.
  rewrite serializeParams_app, IH. reflexivity.
Qed.

(** C6, as the code has it.  The two worked examples of the serializer:
    array elements are keyed by index, the fields of a nested object are
    bracketed, a boolean is written as 1 and a null is left out.  The
    entries come out in the property order of the source mapping, each
    entry serialized on its own.  For a mapping built from distinct keys
    that order is: the keys that are array indices first, in ascending
    numeric order, then the other keys in the order of insertion.  So the
    order of insertion is preserved when no key is an array index. *)
Theorem serializeParams_examples :
  serializeParams [("a", VArr [VObj [("x", VNum 1)]; VObj [("x", VNum 2)]])] ""
  = [("a[0][x]", "1"); ("a[1][x]", "2")]
  /\ serializeParams [("flag", VBool true); ("missing", VNull)] "" = [("flag", "1")]
  /\ (forall params1 params2 prefix,
        serializeParams (params1 ++ params2)%list prefix
        = (serializeParams params1 prefix ++ serializeParams params2 prefix)%list)
  /\ (forall (kvs : list (string * value)) (prefix : string),
        NoDup (map fst kvs) ->
        exists indexed,
          inserted kvs
          = (indexed ++ filter (fun kv => negb (is_index (fst kv))) kvs)%list
          /\ indices_ascending indexed = true
          /\ (forall kv, In kv indexed <-> In kv kvs /\ is_index (fst kv) = true)
          /\ serializeParams (inserted kvs) prefix
             = flat_map (fun kv => serializeParams [kv] prefix)
                 (indexed ++ filter (fun kv => negb (is_index (fst kv))) kvs)%list)
  /\ (forall (kvs : list (string * value)) (prefix : string),
        NoDup (map fst kvs) ->
        Forall (fun kv => is_index (fst kv) = false) kvs ->
        inserted kvs = kvs
        /\ serializeParams (inserted kvs) prefix
           = flat_map (fun kv => serializeParams [kv] prefix) kvs).
Proof.
  split; [ reflexivity | split; [ reflexivity | ] ].
  split; [ exact serializeParams_app | ].
  split.
  - intros kvs prefix Hnd.
    destruct (inserted_order kvs Hnd) as [indexed [Heq [Hasc Hin]]].
    exists indexed. split; [ exact Heq | ]. split; [ exact Hasc | ].
    split; [ exact Hin | ]. rewrite Heq. apply serializeParams_each.
  - intros kvs prefix Hnd Hplain.
    destruct (inserted_order kvs Hnd) as [indexed [Heq [_ Hin]]].
    assert (Hnone : indexed = []).
    { destruct indexed as [ | kv indexed ]; [ reflexivity | ].
      destruct (proj1 (Hin kv) (or_introl eq_refl)) as [Hkv Hidx].
      rewrite (proj1 (Forall_forall _ _) Hplain kv Hkv) in Hidx. discriminate Hidx. }
    assert (Hsame : inserted kvs = kvs).
    { rewrite Heq, Hnone. cbn [app]. apply filter_all.
      eapply Forall_impl; [ | exact Hplain ].
      intros kv Hkv. rewrite Hkv. reflexivity. }
    split; [ exact Hsame | ]. rewrite Hsame. apply serializeParams_each.
Qed.

Lemma serializeParams_examples_witness :
  inserted [("b", VNum 1); ("a", VArr [VNum 2; VNum 3])]
  = [("b", VNum 1); ("a", VArr [VNum 2; VNum 3])]
  /\ serializeParams (inserted [("b", VNum 1); ("a", VArr [VNum 2; VNum 3])]) "p"
     = flat_map (fun kv => serializeParams [kv] "p")
         [("b", VNum 1); ("a", VArr [VNum 2; VNum 3])].
Proof.
  apply (proj2 (proj2 (proj2 (proj2 serializeParams_examples)))).
  - repeat constructor; cbn [In]; intuition discriminate.
  - repeat constructor.
Defined.

(** C6 as stated fails: the order of insertion is not preserved in
    general.  Four properties added in the order b, 10, 2, a are serialized
    in the order 2, 10, b, a, since the two array indices come first. *)
Lemma serializeParams_index_keys_first :
  map fst mixed_keys = ["b"; "10"; "2"; "a"]
  /\ serializeParams (inserted mixed_keys) ""
     = [("2", "3"); ("10", "2"); ("b", "1"); ("a", "4")]
  /\ map fst (serializeParams (inserted mixed_keys) "") <> map fst mixed_keys.
Proof.
  split; [ reflexivity | ]. split; [ vm_compute; reflexivity | ].
  vm_compute. discriminate.
Qed.

Lemma call_params_unfold wsfunction params options :
  call_params wsfunction params options =
  spread
    [("wstoken", VStr (opt_token options));
     ("wsfunction", VStr wsfunction);
     ("moodlewsrestformat", VStr "json")]
    params.
Proof. reflexivity. Qed.

(** C1, as the code has it.  The protocol fields are written first and the
    caller's parameters are spread over them.  So the body carries
    [wstoken], [wsfunction] and [moodlewsrestformat] as configured whenever
    the caller's mapping has no key of that name; and every key of the
    caller's mapping, one of these three included, is read back from the
    request object with the caller's value. *)
Theorem call_body_protocol_fields :
  forall (wsfunction : string) (params : object) (options : CallOptions),
    (has params "wstoken" = false ->
       In ("wstoken", opt_token options) (call_body wsfunction params options))
    /\ (has params "wsfunction" = false ->
          In ("wsfunction", wsfunction) (call_body wsfunction params options))
    /\ (has params "moodlewsrestformat" = false ->
          In ("moodlewsrestformat", "json") (call_body wsfunction params options))
    /\ (forall k v, NoDup (map fst params) -> In (k, v) params ->
          lookup (call_params wsfunction params options) k = v).
Proof.
  intros wsfunction params options.
  assert (Hfield : forall k s,
             has params k = false ->
             lookup [("wstoken", VStr (opt_token options));
                     ("wsfunction", VStr wsfunction);
                     ("moodlewsrestformat", VStr "json")] k = VStr s ->
             In (k, s) (call_body wsfunction params options)).
  { intros k s Habsent Hl. unfold call_body. apply serializeParams_string.
    apply lookup_In; [ | discriminate ].
    rewrite call_params_unfold, lookup_spread_absent by exact Habsent. exact Hl. }
  repeat split.
  - intros H. apply Hfield; [ exact H | reflexivity ].
  - intros H. apply Hfield; [ exact H | reflexivity ].
  - intros H. apply Hfield; [ exact H | reflexivity ].
  - intros k v Hnd Hin. rewrite call_params_unfold.
    apply lookup_spread_present; assumption.
Qed.

Lemma call_body_protocol_fields_witness :
  In ("wstoken", "secret")
    (call_body "core_course_get_courses" [("ids", VArr [VNum 1; VNum 2])] example_options)
  /\ In ("wsfunction", "core_course_get_courses")
       (call_body "core_course_get_courses" [("ids", VArr [VNum 1; VNum 2])] example_options)
  /\ lookup (call_params "core_course_get_courses" [("wstoken", VStr "other")] example_options)
       "wstoken" = VStr "other".
Proof.
  split; [ | split ].
  - apply (call_body_protocol_fields "core_course_get_courses"
             [("ids", VArr [VNum 1; VNum 2])] example_options).
    reflexivity.
  - apply (call_body_protocol_fields "core_course_get_courses"
             [("ids", VArr [VNum 1; VNum 2])] example_options).
    reflexivity.
  - apply (call_body_protocol_fields "core_course_get_courses"
             [("wstoken", VStr "other")] example_options).
    + repeat constructor. simpl. tauto.
    + left. reflexivity.
Defined.

(** C1 as stated fails: a caller-supplied [wstoken] replaces the configured
    token, and a caller-supplied [wsfunction] replaces the function name; a
    caller-supplied [null] removes the field from the body altogether. *)
Lemma call_body_caller_overrides :
  call_body "core_course_get_courses"
    [("wstoken", VStr "other"); ("wsfunction", VStr "core_user_get_users")]
    example_options
  = [("wstoken", "other"); ("wsfunction", "core_user_get_users");
     ("moodlewsrestformat", "json")]
  /\ ~ In ("wstoken", "secret")
       (call_body "core_course_get_courses"
          [("wstoken", VStr "other"); ("wsfunction", VStr "core_user_get_users")]
          example_options)
  /\ ~ In ("wsfunction", "core_course_get_courses")
       (call_body "core_course_get_courses"
          [("wstoken", VStr "other"); ("wsfunction", VStr "core_user_get_users")]
          example_options)
  /\ call_body "core_course_get_courses" [("wstoken", VNull)] example_options
     = [("wsfunction", "core_course_get_courses"); ("moodlewsrestformat", "json")].
Proof.
  split; [ reflexivity | split; [ | split; [ | reflexivity ] ] ].
  - cbv. intros [H | [H | [H | []]]]; discriminate H.
  - cbv. intros [H | [H | [H | []]]]; discriminate H.
Qed.

(* ================================================================== *)
(** * Properties of the client constructor *)
(* ================================================================== *)

(** C3, as the code has it.  A configuration whose [baseUrl] is absent or
    empty makes the constructor raise at once, and so does one whose
    [token] is absent or empty; [baseUrl] is checked first.  What is raised
    is a plain [Error] whose message names the field: it is not the
    validation variant of the taxonomy, it has no [field] and no [code]. *)
Theorem new_MoodleClient_missing_field :
  forall config : MoodleClientConfig,
    (missing (cfg_baseUrl config) = true ->
       new_MoodleClient config = Throw (JsError "Error" "baseUrl is required"))
    /\ (missing (cfg_baseUrl config) = false -> missing (cfg_token config) = true ->
          new_MoodleClient config = Throw (JsError "Error" "token is required"))
    /\ (forall e, new_MoodleClient config = Throw e ->
          instanceof_MoodleValidationError e = false
          /\ instanceof_Error e = true
          /\ exn_code e = VUndef
          /\ (missing (cfg_baseUrl config) = true \/ missing (cfg_token config) = true)).
Proof.
  intros config. unfold new_MoodleClient.
  destruct (missing (cfg_baseUrl config)); destruct (missing (cfg_token config));
    repeat split; intros; try discriminate; try reflexivity;
    try match goal with H : Throw _ = Throw _ |- _ => injection H as <- end;
    try reflexivity; auto.
Qed.

Lemma new_MoodleClient_missing_field_witness :
  new_MoodleClient config_without_baseUrl = Throw (JsError "Error" "baseUrl is required")
  /\ new_MoodleClient config_with_empty_token = Throw (JsError "Error" "token is required").
Proof.
  split.
  - apply (new_MoodleClient_missing_field config_without_baseUrl). reflexivity.
  - apply (new_MoodleClient_missing_field config_with_empty_token); reflexivity.
Defined.

(** C3 as stated fails: the failure is not a [MoodleValidationError] and
    carries no field. *)
Lemma new_MoodleClient_not_validation_error :
  new_MoodleClient config_without_baseUrl = Throw (JsError "Error" "baseUrl is required")
  /\ instanceof_MoodleValidationError (JsError "Error" "baseUrl is required") = false
  /\ (forall message field,
        new_MoodleClient config_without_baseUrl
        <> Throw (MoodleValidationError message field)).
Proof.
  split; [ reflexivity | split; [ reflexivity | ] ].
  intros message field H. discriminate H.
Qed.

(** A complete configuration constructs a client, with the trailing slashes
    of the base URL removed and the timeout defaulted. *)
Lemma new_MoodleClient_complete :
  forall config,
    missing (cfg_baseUrl config) = false -> missing (cfg_token config) = false ->
    exists client,
      new_MoodleClient config = Return client
      /\ timeout client = or_else (cfg_timeout config) 30000%Z.
Proof.
  intros config Hb Ht. unfold new_MoodleClient. rewrite Hb, Ht.
  eexists. split; reflexivity.
Qed.

(* ================================================================== *)
(** * Properties of the call executor *)
(* ================================================================== *)

Lemma has_false_lookup o k : has o k = false -> lookup o k = VUndef.
Proof.
  induction o as [ | [k0 v0] o IH ]; simpl; intros H.
  - reflexivity.
  - apply orb_false_iff in H as [Hk Ho]. rewrite Hk. apply IH, Ho.
Qed.

Lemma call_begin_state URL_new wsfunction params options request s0 :
  call_begin URL_new wsfunction params options = Return (request, s0) ->
  s0 = {| st_timer := Armed; st_aborted := false; st_phase := AwaitFetch |}.
Proof.
  unfold call_begin.
  destruct (URL_new "/webservice/rest/server.php" (opt_baseUrl options)); intros H.
  - injection H as _ <-. reflexivity.
  - discriminate H.
Qed.

(** C4, as the code has it.  Once the response is in with a good status and
    its body parses to an object that has [message] and one of [exception],
    [errorcode], the call fails.  When [message] has a string form, which
    the [Error] constructor takes (the message itself when it is a string),
    the failure is a [MoodleApiError] made of that text, the error code (the
    string unknown when [errorcode] is absent), the exception name and the
    debug info.  When it has none, the constructor raises inside the [try]
    block and the call fails with a [MoodleNetworkError] that wraps the
    TypeError.  An object that has [message] and neither of the two is not
    an error response: the call succeeds with the parsed body as its
    data. *)
Theorem call_classifies_error_response :
  forall (URL_new : string -> string -> option string)
         (wsfunction : string) (params : object) (options : CallOptions)
         (response : Response) (o : object) (request : Request) (s0 : call_state),
    call_begin URL_new wsfunction params options = Return (request, s0) ->
    ok response = true ->
    has o "message" = true ->
    (has o "exception" || has o "errorcode" = true ->
       exists s,
         call URL_new wsfunction params options [FetchResolves response; JsonResolves (VObj o)]
         = Return (Some s)
         /\ st_phase s =
            Settled
              (Throw
                 (match Error_message (lookup o "message") with
                  | Return message =>
                      MoodleApiError message
                        (nullish (lookup o "errorcode") (VStr "unknown"))
                        (lookup o "exception")
                        (lookup o "debuginfo")
                  | Throw error => MoodleNetworkError (exn_message error) (Some error)
                  end))
         /\ (forall text, lookup o "message" = VStr text ->
               Error_message (lookup o "message") = Return text)
         /\ (to_string (lookup o "message") = None ->
               Error_message (lookup o "message") = Throw cannot_convert)
         /\ (forall text, to_string (lookup o "message") = Some text ->
               Error_message (lookup o "message")
               = Return (match lookup o "message" with
                         | VUndef => ""
                         | _ => text
                         end))
         /\ (has o "errorcode" = false ->
               nullish (lookup o "errorcode") (VStr "unknown") = VStr "unknown"))
    /\ (has o "exception" || has o "errorcode" = false ->
          isMoodleErrorResponse (VObj o) = false
          /\ exists s,
               call URL_new wsfunction params options
                 [FetchResolves response; JsonResolves (VObj o)]
               = Return (Some s)
               /\ st_phase s =
                  Settled (Return {| data := VObj o;
                                     warnings :=
                                       if has o "warnings" && isArray (lookup o "warnings")
                                       then lookup o "warnings" else VUndef |})).
Proof.
  intros URL_new wsfunction params options response o request s0 Hbegin Hok Hmsg.
  pose proof (call_begin_state _ _ _ _ _ _ Hbegin) as ->.
  unfold call. rewrite Hbegin. simpl.
  unfold call_on_response. rewrite Hok. simpl.
  unfold call_on_data, isMoodleErrorResponse. simpl. rewrite Hmsg. simpl.
  split.
  - intros Herr. rewrite Herr.
    unfold new_MoodleApiError.
    eexists. split; [ reflexivity | ].
    split; [ | split; [ | split; [ | split ] ] ].
    + destruct (Error_message (lookup o "message")) as [message | error] eqn:Hmessage;
        cbn [bind call_catch st_phase instanceof_MoodleApiError]; [ reflexivity | ].
      unfold Error_message in Hmessage.
      destruct (lookup o "message"); try discriminate Hmessage;
        match type of Hmessage with
        | context [to_string ?v] => destruct (to_string v); try discriminate Hmessage
        end;
        injection Hmessage as <-; reflexivity.
    + intros text ->. reflexivity.
    + intros Hnone. unfold Error_message.
      destruct (lookup o "message"); try discriminate Hnone; rewrite Hnone; reflexivity.
    + intros text Hsome. unfold Error_message.
      destruct (lookup o "message"); try reflexivity; rewrite Hsome; reflexivity.
    + intros Habsent. rewrite (has_false_lookup _ _ Habsent). reflexivity.
  - intros Hplain. rewrite Hplain. split; [ reflexivity | ].
    eexists. split; reflexivity.
Qed.

Lemma call_classifies_error_response_witness :
  (exists s,
     call example_URL_new "core_course_get_courses" [] example_options
       [FetchResolves ok_response; JsonResolves invalid_token_response]
     = Return (Some s)
     /\ st_phase s =
        Settled (Throw (MoodleApiError "Invalid token" (VStr "invalidtoken") VUndef VUndef)))
  /\ (exists s,
        call example_URL_new "core_course_get_courses" [] example_options
          [FetchResolves ok_response; JsonResolves message_only_response]
        = Return (Some s)
        /\ st_phase s =
           Settled (Return {| data := message_only_response; warnings := VUndef |})).
Proof.
  split.
  - destruct (call_classifies_error_response example_URL_new "core_course_get_courses" []
                example_options ok_response
                [("message", VStr "Invalid token"); ("errorcode", VStr "invalidtoken")]
                _ _ eq_refl eq_refl eq_refl) as [Herror _].
    destruct (Herror eq_refl) as [s [Hcall [Hphase _]]].
    exists s. split; [ exact Hcall | exact Hphase ].
  - destruct (call_classifies_error_response example_URL_new "core_course_get_courses" []
                example_options ok_response [("message", VStr "x")]
                _ _ eq_refl eq_refl eq_refl) as [_ Hplain].
    destruct (Hplain eq_refl) as [_ [s [Hcall Hphase]]].
    exists s. split; [ exact Hcall | exact Hphase ].
Defined.

(** C4 as stated fails: the body [{ message: { toString: 1 }, errorcode:
    invalidtoken }] has [message] and [errorcode] and is classified as an
    error response, yet the call does not fail with an API error.  The
    [Error] constructor cannot convert the message, its TypeError is caught
    by the [catch] block, and the caller gets a network error. *)
Lemma call_error_response_without_api_error :
  isMoodleErrorResponse unconvertible_message_response = true
  /\ exists s thrown,
       call example_URL_new "core_course_get_courses" [] example_options
         [FetchResolves ok_response; JsonResolves unconvertible_message_response]
       = Return (Some s)
       /\ st_phase s = Settled (Throw thrown)
       /\ thrown
          = MoodleNetworkError "Cannot convert object to primitive value"
              (Some (JsError "TypeError" "Cannot convert object to primitive value"))
       /\ instanceof_MoodleApiError thrown = false.
Proof.
  split; [ reflexivity | ].
  eexists. eexists. split; [ reflexivity | ].
  split; [ reflexivity | ]. split; reflexivity.
Qed.

(** ** The deadline *)

Lemma prefix_append p s : String.prefix p (p ++ s) = true.
Proof.
  induction p as [ | c p IH ]; simpl.
  - destruct s; reflexivity.
  - destruct (Ascii.ascii_dec c c) as [_ | Hne]; [ exact IH | contradiction ].
Qed.

Lemma includes_unfold s p :
  includes s p =
  String.prefix p s || match s with
                       | EmptyString => false
                       | String _ rest => includes rest p
                       end.
Proof. destruct s; reflexivity. Qed.















(** ** The failures of a call *)

(** A status outside 2xx fails the call with a network error that carries
    the status code and the reason phrase; the body is not read. *)
Lemma call_http_error timeout response s :
  st_phase s = AwaitFetch -> ok response = false ->
  exists s',
    step timeout s (FetchResolves response) = Some s'
    /\ st_phase s' =
       Settled (Throw (MoodleNetworkError
                         ("HTTP " ++ number_to_string (status response) ++ ": "
                          ++ statusText response)
                         (Some (MoodleNetworkError
                                  ("HTTP " ++ number_to_string (status response) ++ ": "
                                   ++ statusText response)
                                  None)))).
Proof.
  intros Hphase Hok. destruct s as [t a p]. simpl in Hphase. subst p.
  eexists. split; [ reflexivity | ].
  unfold call_on_response. rewrite Hok. reflexivity.
Qed.

(** Whatever is thrown inside the call reaches the caller as an API error or
    as a network error. *)
Lemma call_catch_taxonomy timeout error s :
  exists thrown,
    st_phase (call_catch timeout error s) = Settled (Throw thrown)
    /\ (instanceof_MoodleApiError thrown = true
        \/ exists message cause, thrown = MoodleNetworkError message cause).
Proof.
  unfold call_catch. eexists. split; [ reflexivity | ].
  destruct (instanceof_MoodleApiError error) eqn:Hapi.
  - left. exact Hapi.
  - right. destruct (instanceof_Error error); [ destruct (exn_name error =? "AbortError") | ];
      eexists; eexists; reflexivity.
Qed.

Lemma step_failure_taxonomy timeout s ev s' thrown :
  step timeout s ev = Some s' ->
  st_phase s' = Settled (Throw thrown) ->
  st_phase s = Settled (Throw thrown)
  \/ instanceof_MoodleApiError thrown = true
  \/ exists message cause, thrown = MoodleNetworkError message cause.
Proof.
  intros Hstep Hphase.
  assert (Hcatch : forall error s0,
             st_phase (call_catch timeout error s0) = Settled (Throw thrown) ->
             instanceof_MoodleApiError thrown = true
             \/ exists message cause, thrown = MoodleNetworkError message cause).
  { intros error s0 H. destruct (call_catch_taxonomy timeout error s0) as [t [Ht Hkind]].
    rewrite Ht in H. injection H as <-. exact Hkind. }
  destruct s as [t a p]. destruct ev; destruct p; simpl in Hstep;
    try discriminate Hstep;
    try (destruct t; try discriminate Hstep; injection Hstep as <-;
         left; exact Hphase).
  - injection Hstep as <-. right. unfold call_on_response in Hphase.
    destruct (negb (ok response)); [ eapply Hcatch; exact Hphase | discriminate Hphase ].
  - injection Hstep as <-. right. eapply Hcatch. exact Hphase.
  - injection Hstep as <-. right. unfold call_on_data in Hphase.
    destruct (isMoodleErrorResponse parsed);
      [ destruct (new_MoodleApiError _ _ _ _); eapply Hcatch; exact Hphase
      | discriminate Hphase ].
  - injection Hstep as <-. right. eapply Hcatch. exact Hphase.
Qed.

(* ================================================================== *)
(** * Properties of the schema transformer *)
(* ================================================================== *)

(** ** The call budget is never exhausted *)

Lemma depth_lookup o k :
  depth (lookup o k) <= fold_right (fun kv d => Nat.max (depth (snd kv)) d) 0 o.
Proof.
  induction o as [ | [k0 v0] o IH ]; simpl.
  - lia.
  - destruct (k0 =? k); simpl; lia.
Qed.

Lemma depth_get_truthy v k : truthy (get v k) = true -> depth (get v k) < depth v.
Proof.
  destruct v; simpl; try discriminate.
  intros _. pose proof (depth_lookup props k). lia.
Qed.

Lemma indexed_from_In {A : Type} (xs : list A) : forall i k x,
  In (k, x) (indexed_from xs i) -> In x xs.
Proof.
  induction xs as [ | y xs IH ]; simpl; intros i k x Hin.
  - contradiction.
  - destruct Hin as [Heq | Hin].
    + left. congruence.
    + right. eapply IH, Hin.
Qed.

Lemma depth_In_items x items :
  In x items -> depth x <= fold_right (fun item d => Nat.max (depth item) d) 0 items.
Proof.
  induction items as [ | y items IH ]; simpl; intros Hin.
  - contradiction.
  - destruct Hin as [-> | Hin]; [ lia | specialize (IH Hin); lia ].
Qed.

Lemma depth_In_props k x (o : object) :
  In (k, x) o -> depth x <= fold_right (fun kv d => Nat.max (depth (snd kv)) d) 0 o.
Proof.
  induction o as [ | [k0 v0] o IH ]; simpl; intros Hin.
  - contradiction.
  - destruct Hin as [Heq | Hin]; [ injection Heq as _ ->; lia | specialize (IH Hin); lia ].
Qed.

(** A value listed by [Object.entries] lies no deeper than the value it was
    taken from. *)
Lemma depth_entries p k x : In (k, x) (entries p) -> depth x <= depth p.
Proof.
  destruct p; simpl; try contradiction.
  - intros Hin. apply indexed_from_In in Hin. apply in_map_iff in Hin as [c [<- _]].
    simpl. lia.
  - intros Hin. apply indexed_from_In in Hin. apply depth_In_items in Hin. lia.
  - intros Hin. apply depth_In_props in Hin. lia.
Qed.

Lemma convert_properties_ext (c1 c2 : value -> string -> completion value)
  (listed : value) (prefix : string) (props : object) :
  (forall k x p, In (k, x) props -> c1 x p = c2 x p) ->
  forall properties required,
    convert_properties c1 listed prefix props properties required
    = convert_properties c2 listed prefix props properties required.
Proof.
  induction props as [ | [k x] props IH ]; simpl; intros Hext properties required.
  - reflexivity.
  - assert (Hrest : forall k' x' p, In (k', x') props -> c1 x' p = c2 x' p)
      by (intros k' x' p Hin; apply (Hext k'); right; exact Hin).
    rewrite (Hext k x) by (left; reflexivity).
    unfold bind. destruct (c2 x _); [ | reflexivity ].
    destruct (optional_includes listed k) as [[ | ] | ]; [ | | reflexivity ].
    + apply IH. exact Hrest.
    + destruct (get_checked x "required"); [ | reflexivity ].
      apply IH. exact Hrest.
Qed.

(** Any budget above the depth of the schema gives the same result. *)
Lemma moodleTypeToOpenAPI_rec_fuel : forall fuel1 fuel2 schema prefix,
  depth schema < fuel1 -> depth schema < fuel2 ->
  moodleTypeToOpenAPI_rec fuel1 schema prefix = moodleTypeToOpenAPI_rec fuel2 schema prefix.
Proof.
  induction fuel1 as [ | fuel1 IH ]; intros fuel2 schema prefix H1 H2; [ lia | ].
  destruct fuel2 as [ | fuel2 ]; [ lia | ].
  simpl.
  destruct (negb (truthy schema)); [ reflexivity | ].
  repeat match goal with
         | |- (if strict_eq ?a ?b then _ else _) = _ =>
             destruct (strict_eq a b); [ try reflexivity | ]
         end; try reflexivity.
  - destruct (truthy (get schema "items")) eqn:Hitems; [ | reflexivity ].
    pose proof (depth_get_truthy _ _ Hitems).
    rewrite (IH fuel2) by lia. reflexivity.
  - destruct (negb (truthy (get schema "properties"))
              || (length (entries (get schema "properties")) =? 0)%nat) eqn:Hempty;
      [ reflexivity | ].
    apply orb_false_iff in Hempty as [Hprops _].
    apply negb_false_iff in Hprops.
    pose proof (depth_get_truthy _ _ Hprops).
    rewrite (convert_properties_ext (moodleTypeToOpenAPI_rec fuel1)
               (moodleTypeToOpenAPI_rec fuel2)).
    + reflexivity.
    + intros k x p Hin. apply depth_entries in Hin. apply IH; lia.
Qed.

Lemma moodleTypeToOpenAPI_fuel fuel schema prefix :
  depth schema < fuel ->
  moodleTypeToOpenAPI_rec fuel schema prefix = moodleTypeToOpenAPI schema prefix.
Proof.
  intros H. unfold moodleTypeToOpenAPI. apply moodleTypeToOpenAPI_rec_fuel; lia.
Qed.

Lemma Throw_other {A B : Type} (e e' : exn) :
  @Throw A e <> Throw e' -> @Throw B e <> Throw e'.
Proof. intros Hne Heq. apply Hne. injection Heq as ->. reflexivity. Qed.

Lemma convert_properties_no_overflow (convert : value -> string -> completion value)
  (listed : value) (prefix : string) (props : object) :
  (forall k x p, In (k, x) props -> convert x p <> Throw stack_overflow) ->
  forall properties required,
    convert_properties convert listed prefix props properties required
    <> Throw stack_overflow.
Proof.
  induction props as [ | [k x] props IH ]; simpl; intros Hconv properties required.
  - discriminate.
  - assert (Hrest : forall k' x' p, In (k', x') props -> convert x' p <> Throw stack_overflow)
      by (intros k' x' p Hin; apply (Hconv k'); right; exact Hin).
    pose proof (Hconv k x (prefix ++ "_" ++ k) (or_introl eq_refl)) as Hhead.
    unfold bind. destruct (convert x _); [ | exact (Throw_other _ _ Hhead) ].
    destruct listed; simpl; try discriminate;
      try (destruct x; simpl; try discriminate; apply IH; exact Hrest).
    + destruct (includes s k); [ apply IH; exact Hrest | ].
      destruct x; simpl; try discriminate; apply IH; exact Hrest.
    + destruct (existsb (strict_eq (VStr k)) items); [ apply IH; exact Hrest | ].
      destruct x; simpl; try discriminate; apply IH; exact Hrest.
Qed.

(** The budget is never the reason for a failure. *)
Lemma moodleTypeToOpenAPI_rec_no_overflow : forall fuel schema prefix,
  depth schema < fuel ->
  moodleTypeToOpenAPI_rec fuel schema prefix <> Throw stack_overflow.
Proof.
  induction fuel as [ | fuel IH ]; intros schema prefix Hfuel; [ lia | ].
  simpl.
  destruct (negb (truthy schema)); [ discriminate | ].
  repeat match goal with
         | |- (if strict_eq ?a ?b then _ else _) <> _ =>
             destruct (strict_eq a b); [ try discriminate | ]
         end; try discriminate.
  - destruct (truthy (get schema "items")) eqn:Hitems; [ | discriminate ].
    pose proof (depth_get_truthy _ _ Hitems) as Hd.
    specialize (IH (get schema "items") prefix ltac:(lia)).
    unfold bind.
    destruct (moodleTypeToOpenAPI_rec fuel (get schema "items") prefix);
      [ discriminate | exact (Throw_other _ _ IH) ].
  - destruct (negb (truthy (get schema "properties"))
              || (length (entries (get schema "properties")) =? 0)%nat) eqn:Hempty;
      [ discriminate | ].
    apply orb_false_iff in Hempty as [Hprops _].
    apply negb_false_iff in Hprops.
    pose proof (depth_get_truthy _ _ Hprops) as Hd.
    pose proof (convert_properties_no_overflow (moodleTypeToOpenAPI_rec fuel)
                  (get schema "required") prefix (entries (get schema "properties")))
      as Hloop.
    unfold bind.
    destruct (convert_properties _ _ _ _ _ _) eqn:Hdone; [ discriminate | ].
    apply (@Throw_other (object * list value)). rewrite <- Hdone.
    apply Hloop. intros k x p Hin. apply depth_entries in Hin. apply IH. lia.
Qed.

(** ** The equations of the transformer, free of the budget *)

Lemma moodleTypeToOpenAPI_falsy schema prefix :
  truthy schema = false -> moodleTypeToOpenAPI schema prefix = Return open_object.
Proof. intros H. unfold moodleTypeToOpenAPI. simpl. rewrite H. reflexivity. Qed.

Lemma moodleTypeToOpenAPI_integer schema prefix :
  truthy schema = true -> get schema "type" = VStr "integer" ->
  moodleTypeToOpenAPI schema prefix = Return (scalar_schema "integer" schema).
Proof. intros Ht Hty. unfold moodleTypeToOpenAPI. simpl. rewrite Ht, Hty. reflexivity. Qed.

Lemma moodleTypeToOpenAPI_number schema prefix :
  truthy schema = true -> get schema "type" = VStr "number" ->
  moodleTypeToOpenAPI schema prefix = Return (scalar_schema "number" schema).
Proof. intros Ht Hty. unfold moodleTypeToOpenAPI. simpl. rewrite Ht, Hty. reflexivity. Qed.

Lemma moodleTypeToOpenAPI_string schema prefix :
  truthy schema = true -> get schema "type" = VStr "string" ->
  moodleTypeToOpenAPI schema prefix = Return (scalar_schema "string" schema).
Proof. intros Ht Hty. unfold moodleTypeToOpenAPI. simpl. rewrite Ht, Hty. reflexivity. Qed.

Lemma moodleTypeToOpenAPI_boolean schema prefix :
  truthy schema = true -> get schema "type" = VStr "boolean" ->
  moodleTypeToOpenAPI schema prefix
  = Return (VObj (object_literal
                    [Field "type" (VStr "boolean");
                     spread_description schema;
                     spread_default schema])).
Proof. intros Ht Hty. unfold moodleTypeToOpenAPI. simpl. rewrite Ht, Hty. reflexivity. Qed.

Lemma moodleTypeToOpenAPI_array schema prefix :
  truthy schema = true -> get schema "type" = VStr "array" ->
  moodleTypeToOpenAPI schema prefix
  = (items <- (if truthy (get schema "items")
               then moodleTypeToOpenAPI (get schema "items") prefix
               else Return open_object) ;;
     Return (VObj (object_literal
                     [Field "type" (VStr "array");
                      Field "items" items;
                      spread_description schema]))).
Proof.
  intros Ht Hty. unfold moodleTypeToOpenAPI at 1.
  remember (depth schema) as fuel eqn:Hfuel. simpl. rewrite Ht, Hty. simpl.
  destruct (truthy (get schema "items")) eqn:Hitems; [ | reflexivity ].
  pose proof (depth_get_truthy _ _ Hitems).
  rewrite moodleTypeToOpenAPI_fuel by lia. reflexivity.
Qed.

Lemma moodleTypeToOpenAPI_object schema prefix :
  truthy schema = true -> get schema "type" = VStr "object" ->
  moodleTypeToOpenAPI schema prefix
  = if negb (truthy (get schema "properties"))
       || (length (entries (get schema "properties")) =? 0)%nat
    then Return (VObj (object_literal
                         [Field "type" (VStr "object");
                          Field "additionalProperties" (VBool true);
                          spread_description schema]))
    else
      done <- convert_properties moodleTypeToOpenAPI (get schema "required") prefix
                (entries (get schema "properties")) [] [] ;;
      Return (VObj (object_literal
                      [Field "type" (VStr "object");
                       Field "properties" (VObj (fst done));
                       Rest (and_then (VBool (0 <? length (snd done))%nat)
                               (object_literal [Field "required" (VArr (snd done))]));
                       spread_description schema])).
Proof.
  intros Ht Hty. unfold moodleTypeToOpenAPI at 1.
  remember (depth schema) as fuel eqn:Hfuel. simpl. rewrite Ht, Hty. simpl.
  destruct (negb (truthy (get schema "properties"))
            || (length (entries (get schema "properties")) =? 0)%nat) eqn:Hempty;
    [ reflexivity | ].
  apply orb_false_iff in Hempty as [Hprops _]. apply negb_false_iff in Hprops.
  pose proof (depth_get_truthy _ _ Hprops).
  rewrite (convert_properties_ext (moodleTypeToOpenAPI_rec fuel) moodleTypeToOpenAPI).
  - reflexivity.
  - intros k x p Hin. apply depth_entries in Hin.
    apply moodleTypeToOpenAPI_fuel. lia.
Qed.

Lemma moodleTypeToOpenAPI_unknown schema prefix :
  (forall tag, In tag ("array" :: "object" :: scalar_tags) -> get schema "type" <> VStr tag) ->
  moodleTypeToOpenAPI schema prefix = Return open_object.
Proof.
  intros Hother. unfold moodleTypeToOpenAPI. simpl.
  destruct (negb (truthy schema)); [ reflexivity | ].
  destruct (get schema "type") as [ | | | | tag | | ]; try reflexivity.
  simpl.
  repeat match goal with
         | |- (if ?tag =? ?lit then _ else _) = _ =>
             destruct (String.eqb_spec tag lit) as [-> | _];
             [ exfalso; eapply Hother; [ | reflexivity ]; simpl; tauto | ]
         end.
  reflexivity.
Qed.

(** ** The transformer never fails on a SchemaValue *)

Lemma SchemaValue_object schema : SchemaValue schema -> exists o, schema = VObj o.
Proof. intros H. destruct H; eexists; reflexivity. Qed.

Lemma convert_properties_total (convert : value -> string -> completion value)
  (listed : value) (prefix : string) (props : object) :
  required_list listed ->
  (forall k x, In (k, x) props ->
     (exists o, x = VObj o) /\ (forall p, exists out, convert x p = Return (VObj out))) ->
  forall properties required,
    exists done,
      convert_properties convert listed prefix props properties required = Return done.
Proof.
  intros Hlisted.
  induction props as [ | [k x] props IH ]; intros Hprops properties required;
    cbn [convert_properties].
  - eexists. reflexivity.
  - destruct (Hprops k x (or_introl eq_refl)) as [[o ->] Hconv].
    destruct (Hconv (prefix ++ "_" ++ k)) as [out ->]. cbn [bind].
    assert (Hrest : forall k' x', In (k', x') props ->
                      (exists o', x' = VObj o')
                      /\ (forall p, exists out', convert x' p = Return (VObj out')))
      by (intros k' x' Hin; apply (Hprops k'); right; exact Hin).
    destruct Hlisted as [-> | [names ->]]; simpl.
    + apply IH, Hrest.
    + destruct (existsb (strict_eq (VStr k)) names); simpl; apply IH, Hrest.
Qed.

(** Every SchemaValue is transformed into an object schema: no shape of the
    data model makes the transformer raise. *)
Theorem moodleTypeToOpenAPI_total :
  forall schema, SchemaValue schema ->
  forall prefix, exists out, moodleTypeToOpenAPI schema prefix = Return (VObj out).
Proof.
  induction 1 as [ o tag Hty Htag | o Hty Hitems IH | o Hty Hreq Hprops IH | o Hother ];
    intros prefix.
  - simpl in Htag.
    destruct Htag as [<- | [<- | [<- | [<- | []]]]].
    + rewrite moodleTypeToOpenAPI_integer by (reflexivity || exact Hty).
      eexists. reflexivity.
    + rewrite moodleTypeToOpenAPI_number by (reflexivity || exact Hty).
      eexists. reflexivity.
    + rewrite moodleTypeToOpenAPI_boolean by (reflexivity || exact Hty).
      eexists. reflexivity.
    + rewrite moodleTypeToOpenAPI_string by (reflexivity || exact Hty).
      eexists. reflexivity.
  - rewrite moodleTypeToOpenAPI_array by (reflexivity || exact Hty).
    simpl. destruct (truthy (lookup o "items")) eqn:Hthere.
    + destruct (IH eq_refl prefix) as [out ->]. simpl. eexists. reflexivity.
    + simpl. eexists. reflexivity.
  - rewrite moodleTypeToOpenAPI_object by (reflexivity || exact Hty).
    destruct (negb (truthy (get (VObj o) "properties"))
              || (length (entries (get (VObj o) "properties")) =? 0)%nat).
    + eexists. reflexivity.
    + destruct (convert_properties_total moodleTypeToOpenAPI (get (VObj o) "required")
                  prefix (entries (get (VObj o) "properties")) Hreq) with
        (properties := @nil (string * value)) (required := @nil value) as [done ->].
      * intros k x Hin. split.
        -- apply SchemaValue_object. apply (Hprops k). exact Hin.
        -- intros p. apply (IH k). exact Hin.
      * simpl. eexists. reflexivity.
  - rewrite moodleTypeToOpenAPI_unknown by exact Hother. eexists. reflexivity.
Qed.

(** ** Scalars *)

(** What the integer, number and string cases put into the schema. *)
Lemma scalar_schema_fields (tag : string) (schema : value) :
  exists out,
    scalar_schema tag schema = VObj out
    /\ lookup out "type" = VStr tag
    /\ has out "description" = truthy (get schema "description")
    /\ lookup out "description"
       = (if truthy (get schema "description") then get schema "description" else VUndef)
    /\ has out "default" = negb (strict_eq (get schema "default") VUndef)
    /\ lookup out "default" = get schema "default"
    /\ has out "nullable" = truthy (get schema "nullable")
    /\ lookup out "nullable"
       = (if truthy (get schema "nullable") then VBool true else VUndef).
Proof.
  unfold scalar_schema, spread_description, spread_default, spread_nullable, and_then.
  eexists. split; [ reflexivity | ].
  destruct (truthy (get schema "description"));
    destruct (get schema "default") eqn:Hdefault;
    destruct (truthy (get schema "nullable"));
    repeat split; reflexivity.
Qed.

(** The boolean case has no [nullable] member. *)
Lemma boolean_schema_fields (schema : value) (prefix : string) :
  truthy schema = true -> get schema "type" = VStr "boolean" ->
  exists out,
    moodleTypeToOpenAPI schema prefix = Return (VObj out)
    /\ lookup out "type" = VStr "boolean"
    /\ lookup out "description"
       = (if truthy (get schema "description") then get schema "description" else VUndef)
    /\ lookup out "default" = get schema "default"
    /\ has out "nullable" = false.
Proof.
  intros Ht Hty. rewrite moodleTypeToOpenAPI_boolean by assumption.
  unfold spread_description, spread_default, and_then.
  eexists. split; [ reflexivity | ].
  destruct (truthy (get schema "description"));
    destruct (get schema "default") eqn:Hdefault;
    repeat split; reflexivity.
Qed.

(** C9 at the failing input.  A boolean marked nullable is transformed into
    a schema without [nullable]; the same description under the integer
    tag keeps [nullable: true]. *)
Theorem moodleTypeToOpenAPI_boolean_drops_nullable :
  moodleTypeToOpenAPI nullable_boolean ""
  = Return (VObj [("type", VStr "boolean"); ("description", VStr "Visible")])
  /\ moodleTypeToOpenAPI nullable_integer ""
     = Return (VObj [("type", VStr "integer"); ("description", VStr "Visible");
                     ("nullable", VBool true)]).
Proof. split; reflexivity. Qed.

(** ** The required list *)

Lemma strict_eq_VStr k x : strict_eq (VStr k) x = true <-> x = VStr k.
Proof.
  destruct x; simpl; try (split; [ discriminate | discriminate ]).
  destruct (String.eqb_spec k s); split; congruence.
Qed.

Lemma listed_In k names :
  existsb (strict_eq (VStr k)) names = true <-> In (VStr k) names.
Proof.
  rewrite existsb_exists. split.
  - intros [x [Hin Heq]]. apply strict_eq_VStr in Heq. subst. exact Hin.
  - intros Hin. exists (VStr k). split; [ exact Hin | apply strict_eq_VStr; reflexivity ].
Qed.

(** The test [schema.required?.includes(key) || value.required === true]
    for a property whose description is an object. *)
Lemma is_required_test {A : Type} (listed : value) (k : string) (o : object)
  (continue : bool -> completion A) :
  required_list listed ->
  (in_list <- optional_includes listed k ;;
   is_required <-
     (if in_list then Return true
      else flag <- get_checked (VObj o) "required" ;;
           Return (strict_eq flag (VBool true))) ;;
   continue is_required)
  = continue (existsb (strict_eq (VStr k)) (listed_names listed)
              || strict_eq (lookup o "required") (VBool true)).
Proof.
  intros [-> | [names ->]]; simpl.
  - reflexivity.
  - destruct (existsb (strict_eq (VStr k)) names); reflexivity.
Qed.

(** C8. Take an object schema with two properties, in either order: a
    scalar that is required (its name is listed in [schema.required], or its
    own [required] flag is true) and an array of objects that is optional
    (not listed, no flag).  The generated schema has a [required] list, and
    the list holds the name of the scalar and nothing else. *)
Theorem moodleTypeToOpenAPI_required_list :
  forall (o so ao io : object) (k1 k2 tag prefix : string),
    lookup o "type" = VStr "object" ->
    (lookup o "properties" = VObj [(k1, VObj so); (k2, VObj ao)]
     \/ lookup o "properties" = VObj [(k2, VObj ao); (k1, VObj so)]) ->
    required_list (lookup o "required") ->
    lookup so "type" = VStr tag -> In tag scalar_tags ->
    (In (VStr k1) (listed_names (lookup o "required"))
     \/ lookup so "required" = VBool true) ->
    lookup ao "type" = VStr "array" ->
    lookup ao "items" = VObj io ->
    lookup io "type" = VStr "object" ->
    SchemaValue (VObj io) ->
    ~ In (VStr k2) (listed_names (lookup o "required")) ->
    lookup ao "required" <> VBool true ->
    exists out,
      moodleTypeToOpenAPI (VObj o) prefix = Return (VObj out)
      /\ lookup out "required" = VArr [VStr k1].
Proof.
  intros o so ao io k1 k2 tag prefix Hty Hprops Hlisted Htag Hscalar Hreq1
    Harr Hitems Hitem Hio Hopt2 Hflag2.
  assert (Hso : SchemaValue (VObj so)) by (eapply Schema_scalar; eassumption).
  assert (Hao : SchemaValue (VObj ao)).
  { apply Schema_array; [ exact Harr | ]. intros _. rewrite Hitems. exact Hio. }
  assert (Hr1 : existsb (strict_eq (VStr k1)) (listed_names (lookup o "required"))
                || strict_eq (lookup so "required") (VBool true) = true).
  { apply orb_true_iff. destruct Hreq1 as [Hin | Hflag].
    - left. apply listed_In. exact Hin.
    - right. rewrite Hflag. reflexivity. }
  assert (Hr2 : existsb (strict_eq (VStr k2)) (listed_names (lookup o "required"))
                || strict_eq (lookup ao "required") (VBool true) = false).
  { apply orb_false_iff. split.
    - destruct (existsb (strict_eq (VStr k2)) _) eqn:E; [ | reflexivity ].
      apply listed_In in E. contradiction.
    - destruct (lookup ao "required") as [ | | [ | ] | | | | ]; try reflexivity.
      contradiction Hflag2. reflexivity. }
  rewrite moodleTypeToOpenAPI_object by (reflexivity || exact Hty).
  cbn [get].
  destruct Hprops as [-> | ->]; cbn [truthy negb orb entries length Nat.eqb];
    cbn [convert_properties].
  - destruct (moodleTypeToOpenAPI_total _ Hso (prefix ++ "_" ++ k1)) as [c1 ->].
    cbn [bind]. rewrite (is_required_test _ k1 so _ Hlisted), Hr1. cbn [bind].
    destruct (moodleTypeToOpenAPI_total _ Hao (prefix ++ "_" ++ k2)) as [c2 ->].
    cbn [bind]. rewrite (is_required_test _ k2 ao _ Hlisted), Hr2. cbn [bind fst snd app].
    unfold spread_description, and_then.
    destruct (truthy (get (VObj o) "description")); eexists; split; reflexivity.
  - destruct (moodleTypeToOpenAPI_total _ Hao (prefix ++ "_" ++ k2)) as [c2 ->].
    cbn [bind]. rewrite (is_required_test _ k2 ao _ Hlisted), Hr2. cbn [bind].
    destruct (moodleTypeToOpenAPI_total _ Hso (prefix ++ "_" ++ k1)) as [c1 ->].
    cbn [bind]. rewrite (is_required_test _ k1 so _ Hlisted), Hr1. cbn [bind fst snd app].
    unfold spread_description, and_then.
    destruct (truthy (get (VObj o) "description")); eexists; split; reflexivity.
Qed.

Lemma tag_schema_SchemaValue : SchemaValue tag_schema.
Proof.
  apply Schema_object.
  - reflexivity.
  - right. eexists. reflexivity.
  - intros k x [Heq | []]. injection Heq as _ <-.
    apply (Schema_scalar _ "string"); [ reflexivity | simpl; tauto ].
Qed.

Lemma moodleTypeToOpenAPI_required_list_witness :
  exists out,
    moodleTypeToOpenAPI course_schema "CourseResponse" = Return (VObj out)
    /\ lookup out "required" = VArr [VStr "id"].
Proof.
  apply (moodleTypeToOpenAPI_required_list _
           [("type", VStr "integer"); ("description", VStr "Course id");
            ("required", VBool true)]
           [("type", VStr "array"); ("description", VStr "Tags"); ("items", tag_schema)]
           [("type", VStr "object");
            ("description", VStr "A tag");
            ("properties",
             VObj [("name", VObj [("type", VStr "string"); ("description", VStr "Tag name");
                                   ("required", VBool true)])]);
            ("required", VArr [VStr "name"])]
           "id" "tags" "integer").
  - reflexivity.
  - left. reflexivity.
  - right. eexists. reflexivity.
  - reflexivity.
  - simpl. tauto.
  - left. simpl. tauto.
  - reflexivity.
  - reflexivity.
  - reflexivity.
  - exact tag_schema_SchemaValue.
  - simpl. intros [H | []]. discriminate H.
  - simpl. discriminate.
Defined.

(* ================================================================== *)
(** * Properties of the YAML emitter *)
(* ================================================================== *)

Lemma prefix_spec p s : String.prefix p s = true <-> exists rest, s = p ++ rest.
Proof.
  revert s. induction p as [ | c p IH ]; intros s.
  - split; [ intros _; exists s; reflexivity | intros _; destruct s; reflexivity ].
  - destruct s as [ | d s ]; simpl.
    + split; [ discriminate | intros [rest H]; discriminate H ].
    + destruct (Ascii.ascii_dec c d) as [-> | Hne].
      * rewrite IH. split; intros [rest H]; exists rest; congruence.
      * split; [ discriminate | intros [rest H]; congruence ].
Qed.

Lemma includes_spec s p : includes s p = true <-> exists a b, s = a ++ p ++ b.
Proof.
  induction s as [ | c s IH ]; rewrite includes_unfold.
  - rewrite orb_false_r, prefix_spec. split.
    + intros [rest H]. exists "", rest. exact H.
    + intros [a [b H]]. destruct a; [ exists b; exact H | discriminate H ].
  - rewrite orb_true_iff, prefix_spec, IH. split.
    + intros [[rest H] | [a [b H]]].
      * exists "", rest. exact H.
      * exists (String c a), b. simpl. congruence.
    + intros [a [b H]]. destruct a as [ | d a ].
      * left. exists b. exact H.
      * right. exists a, b. simpl in H. congruence.
Qed.

Lemma last_char_spec s c : last_char s = Some c <-> exists t, s = t ++ String c "".
Proof.
  induction s as [ | d s IH ]; simpl.
  - split; [ discriminate | intros [t H]; destruct t; discriminate H ].
  - destruct s as [ | e s ].
    + split.
      * intros H. injection H as ->. exists "". reflexivity.
      * intros [t H]. destruct t as [ | x [ | y t ] ]; simpl in H; try congruence;
          destruct t; discriminate H.
    + rewrite IH. split.
      * intros [t H]. exists (String d t). simpl. congruence.
      * intros [t H]. destruct t as [ | x t ]; simpl in H; [ discriminate H | ].
        exists t. congruence.
Qed.

Lemma endsWith_char_spec s c :
  endsWith_char s c = true <-> exists t, s = t ++ String c "".
Proof.
  unfold endsWith_char. rewrite <- last_char_spec.
  destruct (last_char s) as [d | ].
  - destruct (Ascii.eqb_spec c d); split; congruence.
  - split; discriminate.
Qed.

Lemma starts_with_digit_spec s :
  starts_with_digit s = true <-> exists c t, s = String c t /\ is_digit c = true.
Proof.
  destruct s as [ | c s ]; simpl.
  - split; [ discriminate | intros [c [t [H _]]]; discriminate H ].
  - split.
    + intros H. exists c, s. split; [ reflexivity | exact H ].
    + intros [d [t [H Hd]]]. congruence.
Qed.

Lemma existsb_eqb_In x words : existsb (String.eqb x) words = true <-> In x words.
Proof.
  rewrite existsb_exists. split.
  - intros [w [Hin Heq]]. apply String.eqb_eq in Heq. subst. exact Hin.
  - intros Hin. exists x. split; [ exact Hin | apply String.eqb_refl ].
Qed.

(** The test the emitter runs decides the condition in words. *)
Lemma needs_quotes_spec s : needs_quotes s = true <-> quote_condition s.
Proof.
  unfold needs_quotes, quote_condition, startsWith.
  rewrite !orb_true_iff, String.eqb_eq, !includes_spec, prefix_spec,
    endsWith_char_spec, starts_with_digit_spec, existsb_eqb_In.
  tauto.
Qed.

(** ** What the quoting leaves inside the quotes *)

Lemma replace_all_cons c r d s :
  replace_all c r (String d s)
  = if Ascii.eqb c d then r ++ replace_all c r s else String d (replace_all c r s).
Proof. reflexivity. Qed.

Lemma escape_quotes_escaped s : forall b,
  quotes_escaped b (replace_all dq ("\" ++ DQ) s) = true.
Proof.
  induction s as [ | c s IH ]; intros b.
  - reflexivity.
  - rewrite replace_all_cons. destruct (Ascii.eqb_spec dq c) as [<- | Hne].
    + change (("\" ++ DQ) ++ replace_all dq ("\" ++ DQ) s)
        with (String "\" (String dq (replace_all dq ("\" ++ DQ) s))).
      cbn [quotes_escaped]. rewrite IH. reflexivity.
    + cbn [quotes_escaped]. rewrite IH.
      destruct (Ascii.eqb_spec c dq); [ congruence | reflexivity ].
Qed.

Lemma escape_newlines_keeps_quotes s : forall b,
  quotes_escaped b s = true -> quotes_escaped b (replace_all lf "\n" s) = true.
Proof.
  induction s as [ | c s IH ]; intros b H.
  - reflexivity.
  - cbn [quotes_escaped] in H. apply andb_true_iff in H as [Hc Hs].
    rewrite replace_all_cons. destruct (Ascii.eqb_spec lf c) as [<- | Hne].
    + change ("\n" ++ replace_all lf "\n" s)
        with (String "\" (String "n" (replace_all lf "\n" s))).
      cbn [quotes_escaped]. apply IH in Hs. exact Hs.
    + cbn [quotes_escaped]. rewrite Hc. apply IH, Hs.
Qed.

Lemma escape_newlines_free s :
  all_chars (fun c => negb (Ascii.eqb c lf)) (replace_all lf "\n" s) = true.
Proof.
  induction s as [ | c s IH ].
  - reflexivity.
  - rewrite replace_all_cons. destruct (Ascii.eqb_spec lf c) as [<- | Hne].
    + exact IH.
    + cbn [all_chars]. rewrite IH.
      destruct (Ascii.eqb_spec c lf); [ congruence | reflexivity ].
Qed.

(** Between the two quotes that [quoted] adds there is no line feed left and
    every double quote follows a backslash. *)
Lemma quoted_escapes s :
  exists inner,
    quoted s = DQ ++ inner ++ DQ
    /\ all_chars (fun c => negb (Ascii.eqb c lf)) inner = true
    /\ quotes_escaped false inner = true.
Proof.
  unfold quoted. eexists. split; [ reflexivity | split ].
  - apply escape_newlines_free.
  - apply escape_newlines_keeps_quotes, escape_quotes_escaped.
Qed.

(** C10, as the code has it.  A string is written between double quotes,
    with its double quotes and line feeds escaped, when it is empty, has a
    colon, a hash or a line feed in it, begins or ends with a space, begins
    with a digit, or is one of true, false, null, yes, no up to case; every
    other string is written as it is.  The example document comes out with
    the reserved word quoted, the number bare and the list as dash lines. *)
Theorem formatYamlValue_quoting :
  (forall s : string,
     (quote_condition s -> formatYamlValue (VStr s) = Return (quoted s))
     /\ (~ quote_condition s -> formatYamlValue (VStr s) = Return s))
  /\ jsonToYaml yaml_example 0 = Return yaml_example_text.
Proof.
  split; [ | reflexivity ].
  intros s. simpl. split; intros H.
  - apply needs_quotes_spec in H. rewrite H. reflexivity.
  - destruct (needs_quotes s) eqn:E; [ | reflexivity ].
    apply needs_quotes_spec in E. contradiction.
Qed.

Lemma formatYamlValue_quoting_witness :
  formatYamlValue (VStr "True") = Return (DQ ++ "True" ++ DQ)
  /\ formatYamlValue (VStr ("a" ++ LF ++ "b")) = Return (DQ ++ "a\nb" ++ DQ).
Proof.
  split.
  - apply (proj1 formatYamlValue_quoting "True").
    unfold quote_condition. do 7 right. simpl. tauto.
  - apply (proj1 formatYamlValue_quoting ("a" ++ LF ++ "b")).
    unfold quote_condition. do 3 right. left. exists "a", "b". reflexivity.
Defined.

(** C10 as stated fails in both directions: a string with a line feed and
    none of the listed features is quoted, and a string that begins with a
    tab, which is white space, is written bare. *)
Lemma formatYamlValue_newline_and_tab :
  spec_needs_quotes ("a" ++ LF ++ "b") = false
  /\ formatYamlValue (VStr ("a" ++ LF ++ "b")) = Return (DQ ++ "a\nb" ++ DQ)
  /\ spec_needs_quotes (TAB ++ "a") = true
  /\ formatYamlValue (VStr (TAB ++ "a")) = Return (TAB ++ "a").
Proof. repeat split; reflexivity. Qed.

(* ================================================================== *)
(** * Properties of the document generator *)
(* ================================================================== *)

Lemma append_cancel a x y : a ++ x = a ++ y -> x = y.
Proof.
  induction a as [ | c a IH ]; simpl; intros H.
  - exact H.
  - injection H as H. apply IH, H.
Qed.

Lemma info_description_inj release now1 now2 :
  info_description release now1 = info_description release now2 -> now1 = now2.
Proof.
  unfold info_description. intros H.
  repeat apply append_cancel in H. exact H.
Qed.

(** C2, as the code has it.  The generator reads the clock: the time stamp
    it is run at goes into [info.description].  Two runs on the same schema
    document either both raise, with the same error, or both return; the two
    documents agree once the text of [info.description] is blanked, and they
    are equal exactly when the two runs read the same time stamp. *)
Theorem generateOpenAPISpec_deterministic_up_to_clock :
  forall (now1 now2 : string) (schema : value) (schemaName : string),
    match generateOpenAPISpec now1 schema schemaName,
          generateOpenAPISpec now2 schema schemaName with
    | Return document1, Return document2 =>
        without_info_description document1 = without_info_description document2
        /\ (document1 = document2 <-> now1 = now2)
    | Throw error1, Throw error2 => error1 = error2
    | _, _ => False
    end.
Proof.
  intros now1 now2 schema schemaName. unfold generateOpenAPISpec.
  destruct (get_checked schema "functions") as [functions | ]; simpl; [ | reflexivity ].
  destruct (iterate (or_value functions (VArr []))) as [funcs | ]; simpl; [ | reflexivity ].
  destruct (generate_functions funcs {| schemas := []; paths := []; names := [] |})
    as [g | ]; simpl; [ | reflexivity ].
  destruct (to_string (or_value (get schema "moodleRelease") (VStr "unknown")))
    as [release | ]; simpl; [ | reflexivity ].
  set (tags := generateTags (names g)).
  set (components := assign (assign (schemas g) "MoodleError" MoodleError_schema)
                       "MoodleWarning" MoodleWarning_schema).
  set (version := or_value (get schema "moodleVersion") (VStr "unknown")).
  split; [ reflexivity | split ].
  - intros H.
    apply (f_equal (fun document =>
                      match get (get document "info") "description" with
                      | VStr text => text
                      | _ => EmptyString
                      end)) in H.
    change (info_description release now1 = info_description release now2) in H.
    apply info_description_inj in H. exact H.
  - intros ->. reflexivity.
Qed.

(** C2 as stated fails: the same schema document, transformed at two
    instants, gives two different documents. *)
Lemma generateOpenAPISpec_reads_clock :
  exists document1 document2,
    generateOpenAPISpec "2026-01-01T00:00:00.000Z" example_schema "MOODLE_405_STABLE"
    = Return document1
    /\ generateOpenAPISpec "2026-01-01T00:00:01.000Z" example_schema "MOODLE_405_STABLE"
       = Return document2
    /\ document1 <> document2
    /\ get (get document1 "info") "description"
       = VStr (info_description "4.5" "2026-01-01T00:00:00.000Z")
    /\ get (get document2 "info") "description"
       = VStr (info_description "4.5" "2026-01-01T00:00:01.000Z").
Proof.
  eexists. eexists. split; [ vm_compute; reflexivity | ].
  split; [ vm_compute; reflexivity | ].
  split; [ | split; vm_compute; reflexivity ].
  intros H.
  apply (f_equal (fun document => get (get document "info") "description")) in H.
  vm_compute in H. discriminate H.
Qed.

(** The remaining testable properties of the generator: the schema name and
    the tag of a function. *)
Lemma toPascalCase_example :
  toPascalCase (VStr "core_course_get_courses") = Return "CoreCourseGetCourses"
  /\ getTagFromFunctionName "core_course_get_courses" = "core_course"
  /\ getTagFromFunctionName "login" = "login".
Proof. repeat split; reflexivity. Qed.

(* ================================================================== *)
(** * Further properties of the parameter serializer *)
(* ================================================================== *)

Lemma forEach_from_values {A : Type} (f : URLSearchParams -> A -> nat -> URLSearchParams)
  (texts : A -> list string) (xs : list A) :
  Forall (fun x => forall sp i, map snd (f sp x i) = (map snd sp ++ texts x)%list) xs ->
  forall i sp,
    map snd (forEach_from f xs i sp) = (map snd sp ++ flat_map texts xs)%list.
Proof.
  induction 1 as [ | x xs Hx _ IH ]; intros i sp; simpl.
  - symmetry. apply app_nil_r.
  - rewrite IH, Hx. symmetry. apply app_assoc.
Qed.

Lemma fold_left_values {A : Type} (f : URLSearchParams -> A -> URLSearchParams)
  (texts : A -> list string) (xs : list A) :
  Forall (fun x => forall sp, map snd (f sp x) = (map snd sp ++ texts x)%list) xs ->
  forall sp, map snd (fold_left f xs sp) = (map snd sp ++ flat_map texts xs)%list.
Proof.
  induction 1 as [ | x xs Hx _ IH ]; intros sp; simpl.
  - symmetry. apply app_nil_r.
  - rewrite IH, Hx. symmetry. apply app_assoc.
Qed.

Lemma appendParam_values :
  forall v key sp,
    map snd (appendParam key v sp) = (map snd sp ++ scalar_texts v)%list.
Proof.
  induction v as [ | | b | n | s | items IH | o IH ] using value_induction;
    intros key sp.
  - simpl. symmetry. apply app_nil_r.
  - simpl. symmetry. apply app_nil_r.
  - simpl. unfold sp_append. apply map_app.
  - simpl. unfold sp_append. apply map_app.
  - simpl. unfold sp_append. apply map_app.
  - rewrite appendParam_array. unfold forEach.
    rewrite (forEach_from_values _ scalar_texts); [ reflexivity | ].
    eapply Forall_impl; [ | exact IH ]. intros item Hitem sp' i. apply Hitem.
  - rewrite appendParam_VObj.
    rewrite (fold_left_values _ (fun kv => scalar_texts (snd kv))); [ reflexivity | ].
    eapply Forall_impl; [ | exact IH ]. intros kv Hkv sp'. apply Hkv.
Qed.

(** X1. The values of the serialized entries are the texts of the terminal
    scalars of the parameters in document order (booleans as 1 and 0,
    numbers in decimal, strings unchanged); neither the keys nor the prefix
    have any influence on them. *)
Theorem serializeParams_values :
  forall (params : object) (prefix : string),
    map snd (serializeParams params prefix)
    = flat_map (fun kv => scalar_texts (snd kv)) params.
Proof.
  intros params prefix. unfold serializeParams.
  rewrite (fold_left_values _ (fun kv => scalar_texts (snd kv))); [ reflexivity | ].
  apply Forall_forall. intros kv _ sp. apply appendParam_values.
Qed.

Lemma string_append_assoc a b c : (a ++ b) ++ c = a ++ (b ++ c).
Proof.
  induction a as [ | x a IH ]; simpl; [ reflexivity | rewrite IH; reflexivity ].
Qed.

Lemma prefix_refl s : String.prefix s s = true.
Proof. apply prefix_spec. exists "". induction s; simpl; congruence. Qed.

Lemma prefix_trans a b c :
  String.prefix a b = true -> String.prefix b c = true -> String.prefix a c = true.
Proof.
  rewrite !prefix_spec. intros [r1 ->] [r2 ->]. exists (r1 ++ r2).
  apply string_append_assoc.
Qed.

Lemma prefix_bracket key sub : String.prefix key (bracket key sub) = true.
Proof. unfold bracket. apply prefix_append. Qed.

Lemma forEach_from_keys {A : Type} (f : URLSearchParams -> A -> nat -> URLSearchParams)
  (good : string * string -> Prop) (xs : list A) :
  Forall (fun x => forall sp i, Forall good sp -> Forall good (f sp x i)) xs ->
  forall i sp, Forall good sp -> Forall good (forEach_from f xs i sp).
Proof.
  induction 1 as [ | x xs Hx _ IH ]; intros i sp Hsp; simpl.
  - exact Hsp.
  - apply IH, Hx, Hsp.
Qed.

Lemma fold_left_keys {A : Type} (f : URLSearchParams -> A -> URLSearchParams)
  (good : string * string -> Prop) (xs : list A) :
  Forall (fun x => forall sp, Forall good sp -> Forall good (f sp x)) xs ->
  forall sp, Forall good sp -> Forall good (fold_left f xs sp).
Proof.
  induction 1 as [ | x xs Hx _ IH ]; intros sp Hsp; simpl.
  - exact Hsp.
  - apply IH, Hx, Hsp.
Qed.

(** Every key [appendParam] adds extends the key it was called with. *)
Lemma appendParam_keys :
  forall v key sp (good : string * string -> Prop),
    (forall k x, String.prefix key k = true -> good (k, x)) ->
    Forall good sp -> Forall good (appendParam key v sp).
Proof.
  induction v as [ | | b | n | s | items IH | o IH ] using value_induction;
    intros key sp good Hgood Hsp.
  - exact Hsp.
  - exact Hsp.
  - simpl. unfold sp_append. apply Forall_app. split; [ exact Hsp | ].
    constructor; [ apply Hgood, prefix_refl | constructor ].
  - simpl. unfold sp_append. apply Forall_app. split; [ exact Hsp | ].
    constructor; [ apply Hgood, prefix_refl | constructor ].
  - simpl. unfold sp_append. apply Forall_app. split; [ exact Hsp | ].
    constructor; [ apply Hgood, prefix_refl | constructor ].
  - rewrite appendParam_array. unfold forEach. apply forEach_from_keys; [ | exact Hsp ].
    eapply Forall_impl; [ | exact IH ]. intros item Hitem sp' i Hsp'.
    apply Hitem; [ | exact Hsp' ].
    intros k x Hk. apply Hgood. eapply prefix_trans; [ apply prefix_bracket | exact Hk ].
  - rewrite appendParam_VObj. apply fold_left_keys; [ | exact Hsp ].
    eapply Forall_impl; [ | exact IH ]. intros kv Hkv sp' Hsp'.
    apply Hkv; [ | exact Hsp' ].
    intros k x Hk. apply Hgood. eapply prefix_trans; [ apply prefix_bracket | exact Hk ].
Qed.

(** X2. Every key of the serialized form begins with the full key of one of
    the top-level entries: the name itself, or [prefix[name]] when a prefix
    is given.  Nothing is emitted under a key the parameters do not name. *)
Theorem serializeParams_keys :
  forall (params : object) (prefix : string) (k x : string),
    In (k, x) (serializeParams params prefix) ->
    exists name v,
      In (name, v) params /\ String.prefix (fullKey prefix name) k = true.
Proof.
  intros params prefix k x Hin.
  assert (Hall : Forall (fun e => exists name v,
                           In (name, v) params
                           /\ String.prefix (fullKey prefix name) (fst e) = true)
                   (serializeParams params prefix)).
  { unfold serializeParams.
    assert (Hgen : forall todo sp,
               (forall name v, In (name, v) todo -> In (name, v) params) ->
               Forall (fun e => exists name v,
                         In (name, v) params
                         /\ String.prefix (fullKey prefix name) (fst e) = true) sp ->
               Forall (fun e => exists name v,
                         In (name, v) params
                         /\ String.prefix (fullKey prefix name) (fst e) = true)
                 (fold_left
                    (fun sp kv =>
                       appendParam
                         (if negb (prefix =? "") then bracket prefix (fst kv) else fst kv)
                         (snd kv) sp)
                    todo sp)).
    { induction todo as [ | [name v] todo IH ]; simpl; intros sp Hsub Hsp.
      - exact Hsp.
      - apply IH; [ intros n' v' H'; apply Hsub; right; exact H' | ].
        apply appendParam_keys; [ | exact Hsp ].
        intros k' x' Hk'. exists name, v. split.
        + apply Hsub. left. reflexivity.
        + exact Hk'. }
    apply Hgen; [ auto | constructor ]. }
  rewrite Forall_forall in Hall. apply (Hall (k, x) Hin).
Qed.

Lemma serializeParams_keys_witness :
  exists name v,
    In (name, v) [("ids", VArr [VNum 1; VNum 2])]
    /\ String.prefix (fullKey "options" name) "options[ids][1]" = true.
Proof.
  apply (serializeParams_keys [("ids", VArr [VNum 1; VNum 2])] "options"
           "options[ids][1]" "2").
  simpl. right. left. reflexivity.
Defined.

(** X3. The special case of the array branch changes nothing: an element
    that is an object or an array, which the callback unfolds in place, is
    serialized exactly as [appendParam] serializes it under the index key.
    So an array is serialized element by element under [key[index]],
    whatever the elements are. *)
Theorem appendParam_array_elementwise :
  forall (key : string) (items : list value) (sp : URLSearchParams),
    appendParam key (VArr items) sp
    = forEach
        (fun sp item index => appendParam (bracket key (index_to_string index)) item sp)
        items sp.
Proof. exact appendParam_array. Qed.

(** X4. [mergeParams] appends: the merged parameters are the entries of the
    base followed by the additional entries, in order; an entry of the base
    is never replaced by an additional entry with the same name. *)
Theorem mergeParams_appends :
  forall base additional : URLSearchParams,
    mergeParams base additional = (base ++ additional)%list.
Proof.
  intros base additional. unfold mergeParams. revert base.
  induction additional as [ | [k v] additional IH ]; intros base; simpl.
  - symmetry. apply app_nil_r.
  - rewrite IH. unfold sp_append. rewrite <- app_assoc. reflexivity.
Qed.

(* ================================================================== *)
(** * Further properties of the call executor *)
(* ================================================================== *)

(** X5. The request URL is built before the [try] block.  When the URL
    parser rejects the base URL, [call] fails with the TypeError of the
    parser itself: the failure is neither an API error nor a network error,
    and it does not depend on anything the transport does. *)
Theorem call_invalid_base_url :
  forall (URL_new : string -> string -> option string)
         (wsfunction : string) (params : object) (options : CallOptions)
         (evs : list event),
    URL_new "/webservice/rest/server.php" (opt_baseUrl options) = None ->
    exists e,
      call URL_new wsfunction params options evs = Throw e
      /\ exn_name e = "TypeError"
      /\ call_error e = false.
Proof.
  intros URL_new wsfunction params options evs Hurl.
  unfold call, call_begin. rewrite Hurl. simpl.
  eexists. repeat split.
Qed.

Lemma call_invalid_base_url_witness :
  exists e,
    call example_URL_new "core_course_get_courses" []
      {| opt_baseUrl := "moodle.example.com"; opt_token := "secret";
         opt_timeout := None; opt_fetch := false |}
      [FetchResolves ok_response]
    = Throw e
    /\ exn_name e = "TypeError"
    /\ call_error e = false.
Proof.
  apply (call_invalid_base_url example_URL_new). reflexivity.
Defined.

Lemma call_catch_call_error timeout error s thrown :
  st_phase (call_catch timeout error s) = Settled (Throw thrown) ->
  call_error thrown = true.
Proof.
  unfold call_catch. simpl. intros H. injection H as <-.
  destruct error; simpl; try reflexivity;
    match goal with
    | |- context [if ?c then _ else _] => destruct c; reflexivity
    end.
Qed.

Lemma step_call_error timeout s ev s' :
  (forall thrown, st_phase s = Settled (Throw thrown) -> call_error thrown = true) ->
  step timeout s ev = Some s' ->
  forall thrown, st_phase s' = Settled (Throw thrown) -> call_error thrown = true.
Proof.
  intros Hinv Hstep thrown Hphase.
  destruct s as [t a p]. destruct ev; destruct p; simpl in Hstep;
    try discriminate Hstep;
    try (destruct t; try discriminate Hstep; injection Hstep as <-;
         apply Hinv; exact Hphase).
  - injection Hstep as <-. unfold call_on_response in Hphase.
    destruct (negb (ok response));
      [ eapply call_catch_call_error; exact Hphase | discriminate Hphase ].
  - injection Hstep as <-. eapply call_catch_call_error. exact Hphase.
  - injection Hstep as <-. unfold call_on_data in Hphase.
    destruct (isMoodleErrorResponse parsed);
      [ destruct (new_MoodleApiError _ _ _ _); eapply call_catch_call_error; exact Hphase
      | discriminate Hphase ].
  - injection Hstep as <-. eapply call_catch_call_error. exact Hphase.
Qed.

Lemma run_call_error timeout evs : forall s s',
  (forall thrown, st_phase s = Settled (Throw thrown) -> call_error thrown = true) ->
  run timeout s evs = Some s' ->
  forall thrown, st_phase s' = Settled (Throw thrown) -> call_error thrown = true.
Proof.
  induction evs as [ | ev evs IH ]; simpl; intros s s' Hinv Hrun.
  - injection Hrun as <-. exact Hinv.
  - destruct (step timeout s ev) as [s1 | ] eqn:Hstep; [ | discriminate Hrun ].
    apply (IH s1 s'); [ | exact Hrun ].
    eapply step_call_error; eassumption.
Qed.

(** X6. Once the request is on its way, every failure of the call is a
    [MoodleApiError] or a [MoodleNetworkError], whatever the transport and
    the body do: nothing else escapes the [catch] block. *)
Theorem call_failure_taxonomy :
  forall (URL_new : string -> string -> option string)
         (wsfunction : string) (params : object) (options : CallOptions)
         (evs : list event) (s : call_state) (thrown : exn),
    call URL_new wsfunction params options evs = Return (Some s) ->
    st_phase s = Settled (Throw thrown) ->
    call_error thrown = true.
Proof.
  intros URL_new wsfunction params options evs s thrown Hcall Hphase.
  unfold call in Hcall.
  destruct (call_begin URL_new wsfunction params options) as [[request s0] | ] eqn:Hbegin;
    simpl in Hcall; [ | discriminate Hcall ].
  injection Hcall as Hrun.
  pose proof (call_begin_state _ _ _ _ _ _ Hbegin) as ->.
  eapply run_call_error; [ | exact Hrun | exact Hphase ].
  simpl. intros t H. discriminate H.
Qed.

Lemma call_failure_taxonomy_witness :
  call_error (MoodleNetworkError "fetch failed" (Some connection_refused)) = true.
Proof.
  apply (call_failure_taxonomy example_URL_new "core_course_get_courses" []
           example_options [FetchRejects connection_refused]
           {| st_timer := Cleared; st_aborted := false;
              st_phase := Settled (Throw (MoodleNetworkError "fetch failed"
                                            (Some connection_refused))) |});
    reflexivity.
Defined.

(** X7. A transport or body failure that is an [Error] other than an
    [AbortError] or an API error becomes a network error with the same
    message and the original error as its cause; a thrown value that is no
    [Error] becomes a network error with a fixed message and no cause.  This
    holds for the rejection of the fetch and for the rejection of the body
    parse after a good response; in both cases the deadline is disarmed. *)
Theorem call_wraps_failure :
  forall (URL_new : string -> string -> option string)
         (wsfunction : string) (params : object) (options : CallOptions)
         (request : Request) (s0 : call_state) (error : exn) (response : Response),
    call_begin URL_new wsfunction params options = Return (request, s0) ->
    instanceof_MoodleApiError error = false ->
    exn_name error <> "AbortError" ->
    ok response = true ->
    let wrapped :=
      if instanceof_Error error
      then MoodleNetworkError (exn_message error) (Some error)
      else MoodleNetworkError "Unknown error occurred" None in
    call URL_new wsfunction params options [FetchRejects error]
    = Return (Some {| st_timer := Cleared; st_aborted := false;
                      st_phase := Settled (Throw wrapped) |})
    /\ call URL_new wsfunction params options [FetchResolves response; JsonRejects error]
       = Return (Some {| st_timer := Cleared; st_aborted := false;
                         st_phase := Settled (Throw wrapped) |}).
Proof.
  intros URL_new wsfunction params options request s0 error response
    Hbegin Hapi Hname Hok wrapped.
  pose proof (call_begin_state _ _ _ _ _ _ Hbegin) as ->.
  unfold call. rewrite Hbegin. simpl.
  unfold call_on_response. rewrite Hok. simpl.
  unfold call_catch. simpl. rewrite Hapi.
  apply String.eqb_neq in Hname. rewrite Hname.
  subst wrapped. split; reflexivity.
Qed.

Lemma call_wraps_failure_witness :
  call example_URL_new "core_course_get_courses" [] example_options
    [FetchRejects connection_refused]
  = Return (Some {| st_timer := Cleared; st_aborted := false;
                    st_phase :=
                      Settled (Throw (MoodleNetworkError "fetch failed"
                                        (Some connection_refused))) |}).
Proof.
  apply (call_wraps_failure example_URL_new "core_course_get_courses" [] example_options
           _ _ connection_refused ok_response eq_refl eq_refl).
  - discriminate.
  - reflexivity.
Defined.

(** X8. A response whose status is outside 2xx fails the call with a network
    error whose message is [HTTP <status>: <reason>]; the error that carried
    the status is kept as the cause of the one the caller gets.  The body is
    never asked for: no body event can be delivered afterwards. *)
Theorem call_http_status :
  forall (URL_new : string -> string -> option string)
         (wsfunction : string) (params : object) (options : CallOptions)
         (request : Request) (s0 : call_state) (response : Response),
    call_begin URL_new wsfunction params options = Return (request, s0) ->
    ok response = false ->
    let message :=
      "HTTP " ++ number_to_string (status response) ++ ": " ++ statusText response in
    exists s,
      call URL_new wsfunction params options [FetchResolves response] = Return (Some s)
      /\ st_phase s =
         Settled (Throw (MoodleNetworkError message
                           (Some (MoodleNetworkError message None))))
      /\ st_timer s = Cleared
      /\ (forall parsed, step (call_timeout options) s (JsonResolves parsed) = None)
      /\ (forall e, step (call_timeout options) s (JsonRejects e) = None).
Proof.
  intros URL_new wsfunction params options request s0 response Hbegin Hok message.
  pose proof (call_begin_state _ _ _ _ _ _ Hbegin) as ->.
  unfold call. rewrite Hbegin. simpl.
  unfold call_on_response. rewrite Hok. simpl.
  eexists. split; [ reflexivity | ]. repeat split.
Qed.

Lemma call_http_status_witness :
  exists s,
    call example_URL_new "core_course_get_courses" [] example_options
      [FetchResolves not_found_response]
    = Return (Some s)
    /\ st_phase s =
       Settled (Throw (MoodleNetworkError "HTTP 404: Not Found"
                         (Some (MoodleNetworkError "HTTP 404: Not Found" None)))).
Proof.
  destruct (call_http_status example_URL_new "core_course_get_courses" [] example_options
              _ _ not_found_response eq_refl eq_refl) as [s [Hcall [Hphase _]]].
  exists s. split; [ exact Hcall | exact Hphase ].
Defined.

(** X9. On a good response whose body is no error response the call
    succeeds with the parsed body, unchanged, as its data.  The warnings are
    the [warnings] property of the body when the body is an object and that
    property is an array, and [undefined] otherwise; the property stays in
    the data.  A body that is not an object at all (an array, a string, a
    number, a boolean, [null]) is never an error response. *)
Theorem call_success :
  forall (URL_new : string -> string -> option string)
         (wsfunction : string) (params : object) (options : CallOptions)
         (request : Request) (s0 : call_state) (response : Response) (parsed : value),
    call_begin URL_new wsfunction params options = Return (request, s0) ->
    ok response = true ->
    (isMoodleErrorResponse parsed = false ->
       call URL_new wsfunction params options [FetchResolves response; JsonResolves parsed]
       = Return (Some {| st_timer := Cleared; st_aborted := false;
                         st_phase :=
                           Settled (Return
                                      {| data := parsed;
                                         warnings :=
                                           if isArray (get parsed "warnings")
                                           then get parsed "warnings" else VUndef |}) |}))
    /\ ((forall o, parsed <> VObj o) -> isMoodleErrorResponse parsed = false).
Proof.
  intros URL_new wsfunction params options request s0 response parsed Hbegin Hok.
  pose proof (call_begin_state _ _ _ _ _ _ Hbegin) as ->.
  split.
  - intros Hplain. unfold call. rewrite Hbegin. simpl.
    unfold call_on_response. rewrite Hok. simpl.
    unfold call_on_data. rewrite Hplain. simpl.
    destruct parsed as [ | | b | n | s | items | o ]; try reflexivity.
    simpl. destruct (has o "warnings") eqn:Hhas; [ reflexivity | ].
    rewrite (has_false_lookup _ _ Hhas). reflexivity.
  - intros Hnot. destruct parsed; try reflexivity.
    exfalso. eapply Hnot. reflexivity.
Qed.

Lemma call_success_witness :
  call example_URL_new "core_course_get_courses" [] example_options
    [FetchResolves ok_response;
     JsonResolves (VObj [("courses", VArr []); ("warnings", VArr [VObj [("warningcode", VStr "1")]])])]
  = Return (Some {| st_timer := Cleared; st_aborted := false;
                    st_phase :=
                      Settled (Return
                                 {| data := VObj [("courses", VArr []);
                                                  ("warnings",
                                                   VArr [VObj [("warningcode", VStr "1")]])];
                                    warnings := VArr [VObj [("warningcode", VStr "1")]] |}) |}).
Proof.
  apply (call_success example_URL_new "core_course_get_courses" [] example_options
           _ _ ok_response
           (VObj [("courses", VArr []);
                  ("warnings", VArr [VObj [("warningcode", VStr "1")]])])
           eq_refl eq_refl).
  reflexivity.
Defined.

(* ================================================================== *)
(** * Further properties of the client *)
(* ================================================================== *)

Lemma last_char_cons c d t : last_char (String c (String d t)) = last_char (String d t).
Proof. reflexivity. Qed.

(** Removing the trailing slashes removes exactly a run of slashes at the
    end, and all of it. *)
Lemma strip_trailing_slashes_spec s :
  exists n,
    s = strip_trailing_slashes s ++ repeat_string "/" n
    /\ endsWith_char (strip_trailing_slashes s) "/" = false.
Proof.
  induction s as [ | c rest [n [Hrest Hend]] ].
  - exists 0. split; reflexivity.
  - cbn [strip_trailing_slashes].
    destruct (strip_trailing_slashes rest) as [ | d t ] eqn:Hstrip.
    + destruct (Ascii.eqb_spec c "/") as [-> | Hne].
      * exists (S n). split; [ | reflexivity ].
        simpl in Hrest. rewrite Hrest at 1. reflexivity.
      * exists n. split.
        -- simpl in Hrest. rewrite Hrest at 1. reflexivity.
        -- unfold endsWith_char. cbn [last_char].
           destruct (Ascii.eqb_spec "/" c); [ congruence | reflexivity ].
    + exists n. split.
      * rewrite Hrest at 1. reflexivity.
      * unfold endsWith_char in *. rewrite last_char_cons. exact Hend.
Qed.

(** X10. A client that was constructed holds the configured token, which is
    not empty, and the configured base URL without its trailing slashes: the
    configured URL is the stored one followed by slashes only, and the
    stored one does not end in a slash.  (A base URL made of slashes only is
    accepted and stored as the empty string.)  The timeout is the configured
    one, 30000 when none is given. *)
Theorem new_MoodleClient_normalizes :
  forall (config : MoodleClientConfig) (client : MoodleClient),
    new_MoodleClient config = Return client ->
    exists (url : string) (n : nat),
      cfg_baseUrl config = Some url
      /\ url <> ""
      /\ url = baseUrl client ++ repeat_string "/" n
      /\ endsWith_char (baseUrl client) "/" = false
      /\ cfg_token config = Some (token client)
      /\ token client <> ""
      /\ timeout client = or_else (cfg_timeout config) 30000%Z.
Proof.
  intros config client. unfold new_MoodleClient, missing.
  destruct (cfg_baseUrl config) as [url | ]; [ | discriminate ].
  destruct (String.eqb_spec url "") as [ | Hurl ]; [ discriminate | ].
  destruct (cfg_token config) as [tok | ]; [ | discriminate ].
  destruct (String.eqb_spec tok "") as [ | Htok ]; [ discriminate | ].
  intros H. injection H as <-. simpl.
  destruct (strip_trailing_slashes_spec url) as [n [Hsplit Hend]].
  exists url, n. repeat split; assumption.
Qed.

Lemma new_MoodleClient_normalizes_witness :
  exists (url : string) (n : nat),
    cfg_baseUrl example_config = Some url
    /\ url <> ""
    /\ url = "https://moodle.example.com" ++ repeat_string "/" n
    /\ endsWith_char "https://moodle.example.com" "/" = false
    /\ cfg_token example_config = Some "s3cret token"
    /\ "s3cret token" <> ""
    /\ 30000%Z = or_else (cfg_timeout example_config) 30000%Z.
Proof.
  apply (new_MoodleClient_normalizes example_config
           {| baseUrl := "https://moodle.example.com"; token := "s3cret token";
              timeout := 30000%Z; fetch := false |}).
  reflexivity.
Defined.

(** X11. What a constructed client sends for a function called without
    parameters, [getSiteInfo] being the case the class has built in: one
    POST to the REST endpoint under the normalized base URL, as a URL-encoded
    form whose body is the token, the function name and the format, in this
    order, with the token and the name percent-encoded. *)
Theorem MoodleClient_request :
  forall (URL_new : string -> string -> option string)
         (client : MoodleClient) (wsfunction url : string) (evs : list event),
    URL_new "/webservice/rest/server.php" (baseUrl client) = Some url ->
    call_begin URL_new wsfunction [] (MoodleClient_options client)
    = Return ({| req_url := url;
                 req_method := "POST";
                 req_headers := [("Content-Type", "application/x-www-form-urlencoded")];
                 req_body :=
                   "wstoken=" ++ urlencode (token client)
                   ++ "&wsfunction=" ++ urlencode wsfunction
                   ++ "&moodlewsrestformat=json" |},
              {| st_timer := Armed; st_aborted := false; st_phase := AwaitFetch |})
    /\ MoodleClient_getSiteInfo URL_new client evs
       = call URL_new "core_webservice_get_site_info" [] (MoodleClient_options client) evs
    /\ MoodleClient_call URL_new client wsfunction [] evs
       = Return (run (timeout client)
                   {| st_timer := Armed; st_aborted := false; st_phase := AwaitFetch |}
                   evs).
Proof.
  intros URL_new client wsfunction url evs Hurl.
  split; [ | split ].
  - unfold call_begin. simpl. rewrite Hurl. reflexivity.
  - reflexivity.
  - unfold MoodleClient_call, call, call_begin. simpl. rewrite Hurl. reflexivity.
Qed.

Lemma MoodleClient_request_witness :
  call_begin example_URL_new "core_webservice_get_site_info" []
    (MoodleClient_options
       {| baseUrl := "https://moodle.example.com"; token := "s3cret token";
          timeout := 30000%Z; fetch := false |})
  = Return ({| req_url := "https://moodle.example.com/webservice/rest/server.php";
               req_method := "POST";
               req_headers := [("Content-Type", "application/x-www-form-urlencoded")];
               req_body :=
                 "wstoken=s3cret+token&wsfunction=core_webservice_get_site_info&moodlewsrestformat=json" |},
            {| st_timer := Armed; st_aborted := false; st_phase := AwaitFetch |}).
Proof.
  apply (MoodleClient_request example_URL_new
           {| baseUrl := "https://moodle.example.com"; token := "s3cret token";
              timeout := 30000%Z; fetch := false |}
           "core_webservice_get_site_info"
           "https://moodle.example.com/webservice/rest/server.php" []).
  reflexivity.
Defined.

(* ================================================================== *)
(** * Further properties of the schema transformer *)
(* ================================================================== *)

Lemma course_schema_SchemaValue : SchemaValue course_schema.
Proof.
  apply Schema_object.
  - reflexivity.
  - right. eexists. reflexivity.
  - intros k x [Heq | [Heq | []]]; injection Heq as _ <-.
    + apply (Schema_scalar _ "integer"); [ reflexivity | simpl; tauto ].
    + apply Schema_array; [ reflexivity | ]. intros _. exact tag_schema_SchemaValue.
Qed.

(** X12. The transformer never raises on a SchemaValue: whatever the nesting
    of scalars, arrays, objects and unknown kinds, the result is an object
    schema. *)
Theorem moodleTypeToOpenAPI_never_fails :
  forall (schema : value) (prefix : string),
    SchemaValue schema ->
    exists out, moodleTypeToOpenAPI schema prefix = Return (VObj out).
Proof. intros schema prefix H. apply moodleTypeToOpenAPI_total, H. Qed.

Lemma moodleTypeToOpenAPI_never_fails_witness :
  exists out, moodleTypeToOpenAPI course_schema "CourseResponse" = Return (VObj out).
Proof.
  apply (moodleTypeToOpenAPI_never_fails course_schema "CourseResponse").
  exact course_schema_SchemaValue.
Defined.

(** X13. The fallback: a schema that is falsy, or is not an object, or
    whose [type] is none of the six tags the switch knows (a missing tag and
    a tag that is not a string included) becomes the open object
    [{ type: object, additionalProperties: true }]; its description and its
    other members are dropped. *)
Theorem moodleTypeToOpenAPI_fallback :
  forall (schema : value) (prefix : string),
    truthy schema = false
    \/ (forall o, schema <> VObj o)
    \/ (forall tag, In tag ("array" :: "object" :: scalar_tags) ->
          get schema "type" <> VStr tag) ->
    moodleTypeToOpenAPI schema prefix
    = Return (VObj [("type", VStr "object"); ("additionalProperties", VBool true)]).
Proof.
  intros schema prefix [Hfalsy | [Hnot | Hother]].
  - rewrite moodleTypeToOpenAPI_falsy by exact Hfalsy. reflexivity.
  - rewrite moodleTypeToOpenAPI_unknown; [ reflexivity | ].
    intros tag _. destruct schema; simpl; try discriminate.
    exfalso. eapply Hnot. reflexivity.
  - rewrite moodleTypeToOpenAPI_unknown by exact Hother. reflexivity.
Qed.

Lemma moodleTypeToOpenAPI_fallback_witness :
  moodleTypeToOpenAPI
    (VObj [("type", VStr "unknown"); ("class", VStr "external_files");
           ("description", VStr "Files")]) "FilesResponse"
  = Return (VObj [("type", VStr "object"); ("additionalProperties", VBool true)]).
Proof.
  apply moodleTypeToOpenAPI_fallback. right. right.
  intros tag Hin. simpl in Hin.
  destruct Hin as [<- | [<- | [<- | [<- | [<- | [<- | []]]]]]]; discriminate.
Defined.

(** ** The property loop on a well-formed object *)

Lemma assign_fresh o k v :
  has o k = false -> plain_key k = true -> assign o k v = (o ++ [(k, v)])%list.
Proof.
  unfold assign, define, plain_key. intros Hhas Hplain.
  destruct (array_index k); [ discriminate Hplain | ].
  apply negb_true_iff in Hplain. rewrite Hplain, Hhas. reflexivity.
Qed.

Lemma has_app o1 o2 k : has (o1 ++ o2)%list k = has o1 k || has o2 k.
Proof.
  induction o1 as [ | [k0 v0] o1 IH ]; simpl; [ reflexivity | ].
  rewrite IH. apply orb_assoc.
Qed.

Lemma is_required_test_property {A : Type} (listed : value) (k : string) (o : object)
  (continue : bool -> completion A) :
  required_list listed ->
  (in_list <- optional_includes listed k ;;
   is_required <-
     (if in_list then Return true
      else flag <- get_checked (VObj o) "required" ;;
           Return (strict_eq flag (VBool true))) ;;
   continue is_required)
  = continue (is_required_property listed (k, VObj o)).
Proof. intros H. apply (is_required_test listed k o continue H). Qed.

(** What the loop returns when every property is a SchemaValue: the
    assignments of the transformed properties, one after the other, and the
    names that pass the test. *)
Lemma convert_properties_spec (listed : value) (prefix : string) (props : object) :
  required_list listed ->
  (forall k x, In (k, x) props -> SchemaValue x) ->
  forall properties required,
    exists converted : object,
      convert_properties moodleTypeToOpenAPI listed prefix props properties required
      = Return (fold_left (fun acc kc => assign acc (fst kc) (snd kc)) converted properties,
                (required ++ required_names listed props)%list)
      /\ Forall2 (fun kv kc =>
                    fst kc = fst kv
                    /\ moodleTypeToOpenAPI (snd kv) (prefix ++ "_" ++ fst kv)
                       = Return (snd kc))
           props converted.
Proof.
  intros Hlisted.
  induction props as [ | [k x] props IH ]; intros Hprops properties required;
    cbn [convert_properties].
  - exists []. split; [ | constructor ].
    unfold required_names. simpl. rewrite app_nil_r. reflexivity.
  - pose proof (Hprops k x (or_introl eq_refl)) as Hx.
    destruct (SchemaValue_object _ Hx) as [o ->].
    destruct (moodleTypeToOpenAPI_total _ Hx (prefix ++ "_" ++ k)) as [out Hout].
    rewrite Hout. cbn [bind].
    rewrite (is_required_test_property listed k o _ Hlisted).
    destruct (IH (fun k' x' Hin => Hprops k' x' (or_intror Hin))
                (assign properties k (VObj out))
                (if is_required_property listed (k, VObj o)
                 then (required ++ [VStr k])%list else required))
      as [converted [Heq Hall]].
    exists ((k, VObj out) :: converted). split.
    + rewrite Heq. f_equal. f_equal. unfold required_names. cbn [filter].
      destruct (is_required_property listed (k, VObj o)); cbn [map fst];
        [ rewrite <- app_assoc | ]; reflexivity.
    + constructor; [ split; [ reflexivity | exact Hout ] | exact Hall ].
Qed.

Lemma fold_assign_fresh (converted : object) : forall properties,
  NoDup (map fst properties ++ map fst converted) ->
  Forall (fun kc => plain_key (fst kc) = true) converted ->
  fold_left (fun acc kc => assign acc (fst kc) (snd kc)) converted properties
  = (properties ++ converted)%list.
Proof.
  induction converted as [ | [k c] converted IH ]; intros properties Hnd Hplain; simpl.
  - symmetry. apply app_nil_r.
  - inversion Hplain as [ | ? ? Hk Hrest ]; subst. simpl in Hk.
    rewrite assign_fresh; [ | | exact Hk ].
    + rewrite IH; [ rewrite <- app_assoc; reflexivity | | exact Hrest ].
      rewrite map_app. simpl. rewrite <- app_assoc. exact Hnd.
    + destruct (has properties k) eqn:Hhas; [ | reflexivity ].
      apply has_In in Hhas. simpl in Hnd.
      apply NoDup_remove_2 in Hnd. exfalso. apply Hnd.
      apply in_or_app. left. exact Hhas.
Qed.

Lemma Forall2_keys (props converted : object) (P : string * value -> string * value -> Prop) :
  Forall2 (fun kv kc => fst kc = fst kv /\ P kv kc) props converted ->
  map fst converted = map fst props.
Proof.
  induction 1 as [ | kv kc props converted [Hk _] _ IH ]; simpl;
    [ reflexivity | rewrite Hk, IH; reflexivity ].
Qed.

Lemma Forall2_lookup (props converted : object) (P : string -> value -> value -> Prop) :
  Forall2 (fun kv kc => fst kc = fst kv /\ P (fst kv) (snd kv) (snd kc)) props converted ->
  NoDup (map fst props) ->
  forall k x, In (k, x) props -> P k x (lookup converted k).
Proof.
  induction 1 as [ | [k0 x0] [k1 c1] props converted [Hk HP] Hall IH ];
    intros Hnd k x Hin.
  - contradiction.
  - simpl in Hk. subst k1. inversion Hnd as [ | ? ? Hnotin Hnd' ]; subst.
    destruct Hin as [Heq | Hin].
    + injection Heq as -> ->. simpl. rewrite String.eqb_refl. exact HP.
    + simpl. destruct (String.eqb_spec k0 k) as [-> | Hne].
      * exfalso. apply Hnotin. apply in_map_iff. exists (k, x). split; [ reflexivity | exact Hin ].
      * apply IH; assumption.
Qed.

Lemma object_schema_shape (o : object) (properties : object) (required : list value) :
  exists out,
    object_literal
      [Field "type" (VStr "object");
       Field "properties" (VObj properties);
       Rest (and_then (VBool (0 <? length required)%nat)
               (object_literal [Field "required" (VArr required)]));
       spread_description (VObj o)]
    = out
    /\ lookup out "type" = VStr "object"
    /\ lookup out "properties" = VObj properties
    /\ lookup out "required"
       = match required with
         | [] => VUndef
         | _ :: _ => VArr required
         end
    /\ has out "additionalProperties" = false
    /\ lookup out "description"
       = (if truthy (lookup o "description") then lookup o "description" else VUndef).
Proof.
  eexists. split; [ reflexivity | ].
  unfold spread_description, and_then. cbn [get].
  destruct (truthy (lookup o "description")); destruct required; repeat split.
Qed.

(** X14. For an object schema whose properties are SchemaValues, the
    generated [required] list holds exactly the names of the properties that
    are listed in [schema.required] or carry [required: true], in the order
    of the properties; when there is no such property the schema has no
    [required] member at all. *)
Theorem moodleTypeToOpenAPI_required_names :
  forall (o props : object) (prefix : string),
    lookup o "type" = VStr "object" ->
    lookup o "properties" = VObj props ->
    props <> [] ->
    required_list (lookup o "required") ->
    (forall k x, In (k, x) props -> SchemaValue x) ->
    exists out,
      moodleTypeToOpenAPI (VObj o) prefix = Return (VObj out)
      /\ lookup out "type" = VStr "object"
      /\ lookup out "required"
         = match required_names (lookup o "required") props with
           | [] => VUndef
           | names => VArr names
           end
      /\ has out "additionalProperties" = false.
Proof.
  intros o props prefix Hty Hprops Hnonempty Hlisted Hvalues.
  rewrite moodleTypeToOpenAPI_object by (reflexivity || exact Hty).
  cbn [get]. rewrite Hprops. cbn [truthy negb orb entries].
  destruct props as [ | p props ]; [ contradiction | ]. cbn [length Nat.eqb].
  destruct (convert_properties_spec (lookup o "required") prefix (p :: props)
              Hlisted Hvalues [] []) as [converted [-> _]].
  cbn [bind fst snd app].
  destruct (object_schema_shape o
              (fold_left (fun acc kc => assign acc (fst kc) (snd kc)) converted [])
              (required_names (lookup o "required") (p :: props)))
    as [out [<- [H1 [_ [H3 [H4 _]]]]]].
  eexists. split; [ reflexivity | ].
  split; [ exact H1 | split; [ | exact H4 ] ].
  rewrite H3. destruct (required_names (lookup o "required") (p :: props)); reflexivity.
Qed.

Lemma course_properties_SchemaValue :
  forall k x, In (k, x) course_properties -> SchemaValue x.
Proof.
  intros k x [Heq | [Heq | []]]; injection Heq as _ <-.
  - apply (Schema_scalar _ "integer"); [ reflexivity | simpl; tauto ].
  - apply Schema_array; [ reflexivity | ]. intros _. exact tag_schema_SchemaValue.
Qed.

Lemma moodleTypeToOpenAPI_required_names_witness :
  exists out,
    moodleTypeToOpenAPI course_schema "CourseResponse" = Return (VObj out)
    /\ lookup out "type" = VStr "object"
    /\ lookup out "required" = VArr [VStr "id"]
    /\ has out "additionalProperties" = false.
Proof.
  exact (moodleTypeToOpenAPI_required_names course_object course_properties
           "CourseResponse" eq_refl eq_refl
           ltac:(discriminate)
           (or_intror (ex_intro _ [VStr "id"] eq_refl))
           course_properties_SchemaValue).
Defined.

(** X15. For an object schema whose properties are SchemaValues under
    distinct names, none of them an array index or [__proto__], the
    generated [properties] has the same names in the same order, and under
    each name the transformation of that property, made with the prefix
    extended by an underscore and the name. *)
Theorem moodleTypeToOpenAPI_properties :
  forall (o props : object) (prefix : string),
    lookup o "type" = VStr "object" ->
    lookup o "properties" = VObj props ->
    props <> [] ->
    required_list (lookup o "required") ->
    (forall k x, In (k, x) props -> SchemaValue x) ->
    NoDup (map fst props) ->
    Forall (fun kv => plain_key (fst kv) = true) props ->
    exists out converted,
      moodleTypeToOpenAPI (VObj o) prefix = Return (VObj out)
      /\ lookup out "properties" = VObj converted
      /\ map fst converted = map fst props
      /\ (forall k x, In (k, x) props ->
            moodleTypeToOpenAPI x (prefix ++ "_" ++ k) = Return (lookup converted k)).
Proof.
  intros o props prefix Hty Hprops Hnonempty Hlisted Hvalues Hnd Hplain.
  rewrite moodleTypeToOpenAPI_object by (reflexivity || exact Hty).
  cbn [get]. rewrite Hprops. cbn [truthy negb orb entries].
  destruct props as [ | p props ]; [ contradiction | ]. cbn [length Nat.eqb].
  destruct (convert_properties_spec (lookup o "required") prefix (p :: props)
              Hlisted Hvalues [] []) as [converted [-> Hall]].
  cbn [bind fst snd app].
  pose proof (Forall2_keys _ _
                (fun kv kc => moodleTypeToOpenAPI (snd kv) (prefix ++ "_" ++ fst kv)
                              = Return (snd kc)) Hall) as Hkeys.
  rewrite fold_assign_fresh.
  - destruct (object_schema_shape o ([] ++ converted)%list
                (required_names (lookup o "required") (p :: props)))
      as [out [<- [_ [H2 _]]]].
    eexists. exists converted. split; [ reflexivity | ].
    split; [ exact H2 | split; [ exact Hkeys | ] ].
    intros k x Hin.
    apply (Forall2_lookup (p :: props) converted
             (fun k x c => moodleTypeToOpenAPI x (prefix ++ "_" ++ k) = Return c)
             Hall Hnd k x Hin).
  - simpl. rewrite Hkeys. exact Hnd.
  - clear - Hall Hplain. induction Hall as [ | kv kc ps cs [Hk _] _ IH ].
    + constructor.
    + inversion Hplain; subst. constructor; [ rewrite Hk; assumption | apply IH; assumption ].
Qed.

Lemma moodleTypeToOpenAPI_properties_witness :
  exists out converted,
    moodleTypeToOpenAPI course_schema "CourseResponse" = Return (VObj out)
    /\ lookup out "properties" = VObj converted
    /\ map fst converted = ["id"; "tags"]
    /\ (forall k x,
          In (k, x) course_properties ->
          moodleTypeToOpenAPI x ("CourseResponse" ++ "_" ++ k)
          = Return (lookup converted k)).
Proof.
  refine (moodleTypeToOpenAPI_properties course_object course_properties
            "CourseResponse" eq_refl eq_refl
            ltac:(discriminate)
            (or_intror (ex_intro _ [VStr "id"] eq_refl))
            course_properties_SchemaValue _ _).
  - repeat constructor; simpl; intuition discriminate.
  - repeat constructor.
Defined.

Lemma convert_properties_app (convert : value -> string -> completion value)
  (listed : value) (prefix : string) (first rest : object) :
  forall properties required,
    convert_properties convert listed prefix (first ++ rest)%list properties required
    = (done <- convert_properties convert listed prefix first properties required ;;
       convert_properties convert listed prefix rest (fst done) (snd done)).
Proof.
  induction first as [ | [k x] first IH ]; intros properties required.
  - reflexivity.
  - cbn [app convert_properties]. unfold bind at 1 5.
    destruct (convert x _); [ | reflexivity ].
    unfold bind at 1 4.
    destruct (optional_includes listed k) as [[ | ] | ]; [ | | reflexivity ].
    + cbn [bind]. apply IH.
    + unfold bind at 1 4. destruct (get_checked x "required"); [ | reflexivity ].
      cbn [bind]. apply IH.
Qed.

(** X16. A [null] among the properties of an object schema, under a name
    that [schema.required] does not list, makes the transformer raise a
    TypeError: the loop reads [value.required] of the [null].  (The
    extractor writes such a [null] for a key without a description.) *)
Theorem moodleTypeToOpenAPI_null_property :
  forall (o first rest : object) (k prefix : string),
    lookup o "type" = VStr "object" ->
    lookup o "properties" = VObj (first ++ (k, VNull) :: rest)%list ->
    required_list (lookup o "required") ->
    (forall k' x, In (k', x) first -> SchemaValue x) ->
    ~ In (VStr k) (listed_names (lookup o "required")) ->
    moodleTypeToOpenAPI (VObj o) prefix
    = Throw (type_error "Cannot read properties of null (reading 'required')").
Proof.
  intros o first rest k prefix Hty Hprops Hlisted Hfirst Hnot.
  rewrite moodleTypeToOpenAPI_object by (reflexivity || exact Hty).
  cbn [get]. rewrite Hprops. cbn [truthy negb orb entries].
  replace (length (first ++ (k, VNull) :: rest)%list =? 0)%nat with false
    by (destruct first; reflexivity).
  rewrite convert_properties_app.
  destruct (convert_properties_spec (lookup o "required") prefix first
              Hlisted Hfirst [] []) as [converted [-> _]].
  cbn [bind fst snd convert_properties].
  rewrite moodleTypeToOpenAPI_falsy by reflexivity. cbn [bind].
  assert (Hinc : optional_includes (lookup o "required") k = Return false).
  { destruct Hlisted as [-> | [names Hnames]]; [ reflexivity | ].
    rewrite Hnames in *. simpl.
    destruct (existsb (strict_eq (VStr k)) names) eqn:E; [ | reflexivity ].
    apply listed_In in E. contradiction. }
  rewrite Hinc. reflexivity.
Qed.

Lemma moodleTypeToOpenAPI_null_property_witness :
  moodleTypeToOpenAPI schema_with_null_property "Request"
  = Throw (type_error "Cannot read properties of null (reading 'required')").
Proof.
  refine (moodleTypeToOpenAPI_null_property
            [("type", VStr "object");
             ("properties",
              VObj [("id", VObj [("type", VStr "integer"); ("required", VBool true)]);
                    ("extra", VNull)])]
            [("id", VObj [("type", VStr "integer"); ("required", VBool true)])]
            [] "extra" "Request" eq_refl eq_refl (or_introl eq_refl) _ _).
  - intros k' x [Heq | []]. injection Heq as _ <-.
    apply (Schema_scalar _ "integer"); [ reflexivity | simpl; tauto ].
  - simpl. tauto.
Defined.

(** X17. The empty shapes.  An array schema without an item description
    gets the open object as its [items].  An object schema without
    properties (none given, or an empty mapping) becomes an object with
    [additionalProperties: true] and neither [properties] nor [required],
    whatever [schema.required] holds. *)
Theorem moodleTypeToOpenAPI_empty_shapes :
  forall (o : object) (prefix : string),
    (lookup o "type" = VStr "array" -> truthy (lookup o "items") = false ->
       exists out,
         moodleTypeToOpenAPI (VObj o) prefix = Return (VObj out)
         /\ lookup out "type" = VStr "array"
         /\ lookup out "items"
            = VObj [("type", VStr "object"); ("additionalProperties", VBool true)])
    /\ (lookup o "type" = VStr "object" ->
        truthy (lookup o "properties") = false \/ entries (lookup o "properties") = [] ->
          exists out,
            moodleTypeToOpenAPI (VObj o) prefix = Return (VObj out)
            /\ lookup out "type" = VStr "object"
            /\ lookup out "additionalProperties" = VBool true
            /\ has out "properties" = false
            /\ has out "required" = false).
Proof.
  intros o prefix. split.
  - intros Hty Hitems.
    rewrite moodleTypeToOpenAPI_array by (reflexivity || exact Hty).
    cbn [get]. rewrite Hitems. cbn [bind].
    unfold spread_description, and_then. cbn [get].
    destruct (truthy (lookup o "description")); eexists; repeat split.
  - intros Hty Hempty.
    rewrite moodleTypeToOpenAPI_object by (reflexivity || exact Hty).
    cbn [get].
    replace (negb (truthy (lookup o "properties"))
             || (length (entries (lookup o "properties")) =? 0)%nat) with true.
    + unfold spread_description, and_then. cbn [get].
      destruct (truthy (lookup o "description")); eexists; repeat split.
    + destruct Hempty as [-> | ->]; [ reflexivity | ]. simpl. symmetry. apply orb_true_r.
Qed.

Lemma moodleTypeToOpenAPI_empty_shapes_witness :
  (exists out,
     moodleTypeToOpenAPI (VObj [("type", VStr "array"); ("description", VStr "Items")]) ""
     = Return (VObj out)
     /\ lookup out "type" = VStr "array"
     /\ lookup out "items"
        = VObj [("type", VStr "object"); ("additionalProperties", VBool true)])
  /\ (exists out,
        moodleTypeToOpenAPI (VObj [("type", VStr "object"); ("properties", VArr [])]) ""
        = Return (VObj out)
        /\ lookup out "type" = VStr "object"
        /\ lookup out "additionalProperties" = VBool true
        /\ has out "properties" = false
        /\ has out "required" = false).
Proof.
  split.
  - apply (moodleTypeToOpenAPI_empty_shapes
             [("type", VStr "array"); ("description", VStr "Items")] ""); reflexivity.
  - apply (moodleTypeToOpenAPI_empty_shapes
             [("type", VStr "object"); ("properties", VArr [])] "").
    + reflexivity.
    + right. reflexivity.
Defined.

(* ================================================================== *)
(** * Further properties of the document generator *)
(* ================================================================== *)

(** ** Names *)

Lemma string_append_nil_r s : s ++ "" = s.
Proof. induction s; simpl; congruence. Qed.

Lemma split_not_nil sep s : split sep s <> [].
Proof.
  destruct s as [ | c s ]; simpl; [ discriminate | ].
  destruct (Ascii.eqb c sep); [ discriminate | ].
  destruct (split sep s); discriminate.
Qed.

(** Joining the pieces with the separator gives the string back. *)
Lemma join_split sep s : join (String sep "") (split sep s) = s.
Proof.
  unfold join. induction s as [ | c s IH ]; [ reflexivity | ].
  cbn [split]. destruct (Ascii.eqb_spec c sep) as [-> | Hne].
  - pose proof (split_not_nil sep s) as Hnn.
    destruct (split sep s) as [ | piece pieces ]; [ contradiction | ].
    cbn [String.concat]. simpl. f_equal. exact IH.
  - pose proof (split_not_nil sep s) as Hnn.
    destruct (split sep s) as [ | piece pieces ]; [ contradiction | ].
    destruct pieces; simpl in *; f_equal; exact IH.
Qed.

Lemma split_pieces sep s :
  Forall (fun piece => all_chars (fun c => negb (Ascii.eqb c sep)) piece = true)
    (split sep s).
Proof.
  induction s as [ | c s IH ]; cbn [split].
  - constructor; [ reflexivity | constructor ].
  - destruct (Ascii.eqb_spec c sep) as [-> | Hne].
    + constructor; [ reflexivity | exact IH ].
    + destruct (split sep s) as [ | piece pieces ].
      * constructor; [ | constructor ]. simpl.
        destruct (Ascii.eqb_spec c sep); [ contradiction | reflexivity ].
      * inversion IH as [ | ? ? Hpiece Hpieces ]; subst.
        constructor; [ | exact Hpieces ]. simpl. rewrite Hpiece.
        destruct (Ascii.eqb_spec c sep); [ contradiction | reflexivity ].
Qed.

Lemma all_chars_append p a b :
  all_chars p (a ++ b) = all_chars p a && all_chars p b.
Proof.
  induction a as [ | c a IH ]; simpl; [ reflexivity | ].
  rewrite IH. apply andb_assoc.
Qed.

Lemma upper_char_not_underscore c :
  Ascii.eqb c "_" = false -> Ascii.eqb (upper_char c) "_" = false.
Proof.
  destruct c as [[] [] [] [] [] [] [] []]; intros H; try discriminate H; reflexivity.
Qed.

Lemma capitalize_no_underscore piece :
  no_underscore piece = true -> no_underscore (capitalize piece) = true.
Proof.
  unfold no_underscore. destruct piece as [ | c piece ]; [ reflexivity | ].
  cbn [capitalize all_chars]. intros H. apply andb_true_iff in H as [Hc Hrest].
  apply negb_true_iff in Hc. rewrite (upper_char_not_underscore _ Hc), Hrest. reflexivity.
Qed.

(** X18. The schema name derived from a function name has no underscore
    left in it, whatever the name; anything that is not a string raises a
    TypeError. *)
Theorem toPascalCase_no_underscore :
  (forall s : string,
     exists pascal,
       toPascalCase (VStr s) = Return pascal /\ no_underscore pascal = true)
  /\ (forall v : value,
        (forall s, v <> VStr s) ->
        exists message, toPascalCase v = Throw (type_error message)).
Proof.
  split.
  - intros s. eexists. split; [ reflexivity | ].
    unfold join. pose proof (split_pieces "_" s) as Hpieces.
    induction Hpieces as [ | piece pieces Hpiece _ IH ]; [ reflexivity | ].
    cbn [map String.concat].
    assert (Hcap : no_underscore (capitalize piece) = true)
      by (apply capitalize_no_underscore; exact Hpiece).
    destruct (map capitalize pieces) as [ | next more ] eqn:Hmap; [ exact Hcap | ].
    unfold no_underscore in *. rewrite !all_chars_append, Hcap. simpl. exact IH.
  - intros v Hnot. destruct v; try (eexists; reflexivity).
    exfalso. eapply Hnot. reflexivity.
Qed.

(** X19. The tag of a function is never empty, and unless the name itself
    is empty the name begins with its tag: the tag is the name up to its
    second underscore. *)
Theorem getTagFromFunctionName_prefix :
  forall name : string,
    getTagFromFunctionName name <> ""
    /\ (name <> "" -> String.prefix (getTagFromFunctionName name) name = true).
Proof.
  intros name. unfold getTagFromFunctionName.
  pose proof (join_split "_" name) as Hjoin. unfold join in Hjoin.
  pose proof (split_not_nil "_" name) as Hnn.
  destruct (split "_" name) as [ | first [ | second rest ] ]; [ contradiction | | ].
  - simpl in Hjoin. subst first. split.
    + destruct (String.eqb_spec name ""); [ discriminate | assumption ].
    + intros Hne. destruct (String.eqb_spec name ""); [ contradiction | ].
      apply prefix_refl.
  - split.
    + destruct first; discriminate.
    + intros _. apply prefix_spec.
      cbn [String.concat] in Hjoin.
      destruct rest as [ | third rest ].
      * exists "". subst name. symmetry. apply string_append_nil_r.
      * exists ("_" ++ String.concat "_" (third :: rest)).
        subst name. rewrite !string_append_assoc. reflexivity.
Qed.

Lemma getTagFromFunctionName_prefix_witness :
  String.prefix (getTagFromFunctionName "mod_assign_get_assignments")
    "mod_assign_get_assignments" = true.
Proof.
  apply (getTagFromFunctionName_prefix "mod_assign_get_assignments"). discriminate.
Defined.

(** ** Tags *)

Lemma leb_ltb a b : String.leb a b = true -> a <> b -> String.ltb a b = true.
Proof.
  unfold String.leb, String.ltb. intros Hle Hne.
  destruct (String.compare a b) eqn:Hc; try reflexivity; try discriminate Hle.
  apply String.compare_eq_iff in Hc. contradiction.
Qed.

Lemma not_leb_ltb a b : String.leb a b = false -> String.ltb b a = true.
Proof.
  unfold String.leb, String.ltb. intros Hle.
  rewrite (String.compare_antisym b a).
  destruct (String.compare a b); try discriminate Hle. reflexivity.
Qed.

Lemma ascending_tail a rest : ascending (a :: rest) = true -> ascending rest = true.
Proof.
  destruct rest as [ | b rest ]; [ reflexivity | ].
  cbn [ascending]. intros H. apply andb_true_iff in H as [_ H]. exact H.
Qed.

Lemma insert_sorted_ascending tag : forall sorted,
  ascending sorted = true -> ~ In tag sorted ->
  ascending (insert_sorted tag sorted) = true.
Proof.
  induction sorted as [ | head rest IH ]; intros Hasc Hnotin.
  - reflexivity.
  - cbn [insert_sorted]. destruct (String.leb tag head) eqn:Hle.
    + change (String.ltb tag head && ascending (head :: rest) = true).
      rewrite Hasc.
      rewrite leb_ltb; [ reflexivity | exact Hle | ].
      intros ->. apply Hnotin. left. reflexivity.
    + assert (Hrest : ascending (insert_sorted tag rest) = true).
      { apply IH; [ eapply ascending_tail; exact Hasc | ].
        intros Hin. apply Hnotin. right. exact Hin. }
      destruct rest as [ | next rest ].
      * cbn [insert_sorted ascending]. rewrite (not_leb_ltb _ _ Hle). reflexivity.
      * cbn [insert_sorted] in *. destruct (String.leb tag next).
        -- change (String.ltb head tag && ascending (tag :: next :: rest) = true).
           rewrite (not_leb_ltb _ _ Hle). exact Hrest.
        -- change (String.ltb head next && ascending (next :: rest) = true) in Hasc.
           apply andb_true_iff in Hasc as [Hhead _].
           change (String.ltb head next && ascending (next :: insert_sorted tag rest) = true).
           rewrite Hhead. exact Hrest.
Qed.

Lemma insert_sorted_In tag x : forall sorted,
  In x (insert_sorted tag sorted) <-> x = tag \/ In x sorted.
Proof.
  induction sorted as [ | head rest IH ]; cbn [insert_sorted].
  - simpl. intuition congruence.
  - destruct (String.leb tag head); simpl; [ intuition congruence | ].
    rewrite IH. intuition congruence.
Qed.

Lemma sort_strings_In x tags : In x (sort_strings tags) <-> In x tags.
Proof.
  unfold sort_strings. induction tags as [ | tag tags IH ]; simpl.
  - tauto.
  - rewrite insert_sorted_In, IH. intuition congruence.
Qed.

Lemma sort_strings_ascending tags : NoDup tags -> ascending (sort_strings tags) = true.
Proof.
  unfold sort_strings. induction 1 as [ | tag tags Hnotin _ IH ]; simpl.
  - reflexivity.
  - apply insert_sorted_ascending; [ exact IH | ].
    intros Hin. apply Hnotin. apply sort_strings_In. exact Hin.
Qed.

Lemma existsb_eqb_false tag tagSet :
  existsb (String.eqb tag) tagSet = false <-> ~ In tag tagSet.
Proof.
  rewrite <- existsb_eqb_In. destruct (existsb (String.eqb tag) tagSet); intuition congruence.
Qed.

Lemma Set_add_NoDup tagSet tag : NoDup tagSet -> NoDup (Set_add tagSet tag).
Proof.
  unfold Set_add. intros Hnd.
  destruct (existsb (String.eqb tag) tagSet) eqn:E; [ exact Hnd | ].
  apply existsb_eqb_false in E.
  apply NoDup_app; [ exact Hnd | repeat constructor; simpl; tauto | ].
  intros x Hx [<- | []]. contradiction.
Qed.

Lemma Set_add_In tagSet tag x : In x (Set_add tagSet tag) <-> In x tagSet \/ x = tag.
Proof.
  unfold Set_add. destruct (existsb (String.eqb tag) tagSet) eqn:E.
  - apply existsb_eqb_In in E. intuition congruence.
  - rewrite in_app_iff. simpl. intuition congruence.
Qed.

Lemma tagSet_spec (names : list string) : forall tagSet,
  NoDup tagSet ->
  NoDup (fold_left (fun tagSet name => Set_add tagSet (getTagFromFunctionName name))
           names tagSet)
  /\ (forall x,
        In x (fold_left (fun tagSet name => Set_add tagSet (getTagFromFunctionName name))
                names tagSet)
        <-> In x tagSet \/ exists name, In name names /\ x = getTagFromFunctionName name).
Proof.
  induction names as [ | name names IH ]; intros tagSet Hnd; simpl.
  - split; [ exact Hnd | ]. intros x. split; [ tauto | ].
    intros [H | [name [[] _]]]. exact H.
  - destruct (IH (Set_add tagSet (getTagFromFunctionName name))
                (Set_add_NoDup _ _ Hnd)) as [Hnd' Hin'].
    split; [ exact Hnd' | ]. intros x. rewrite Hin', Set_add_In. split.
    + intros [[H | ->] | [n [Hn ->]]].
      * left. exact H.
      * right. exists name. split; [ left; reflexivity | reflexivity ].
      * right. exists n. split; [ right; exact Hn | reflexivity ].
    + intros [H | [n [[<- | Hn] ->]]].
      * left. left. exact H.
      * left. right. reflexivity.
      * right. exists n. split; [ exact Hn | reflexivity ].
Qed.

(** X20. The tag list of the document.  Its names are strictly ascending,
    so sorted and free of duplicates, and a name is in the list exactly when
    it is the tag of one of the functions. *)
Theorem generateTags_sorted_unique :
  forall names : list string,
    exists (tags : list string) (entries : list value),
      generateTags names = VArr entries
      /\ map (fun entry => get entry "name") entries = map VStr tags
      /\ ascending tags = true
      /\ (forall tag,
            In tag tags
            <-> exists name, In name names /\ tag = getTagFromFunctionName name).
Proof.
  intros names. unfold generateTags.
  destruct (tagSet_spec names [] (NoDup_nil _)) as [Hnd Hin].
  set (tagSet := fold_left
                   (fun tagSet name => Set_add tagSet (getTagFromFunctionName name))
                   names []) in *.
  exists (sort_strings tagSet). eexists. split; [ reflexivity | ].
  split; [ | split ].
  - rewrite map_map. apply map_ext. intros tag. reflexivity.
  - apply sort_strings_ascending, Hnd.
  - intros tag. rewrite sort_strings_In, Hin. simpl. tauto.
Qed.

(** ** The paths and the component schemas *)

Lemma has_replace_value o k v k' : has (replace_value o k v) k' = has o k'.
Proof.
  induction o as [ | [k0 v0] o IH ]; simpl; [ reflexivity | ].
  destruct (k0 =? k) eqn:E; simpl; [ reflexivity | rewrite IH; reflexivity ].
Qed.

Lemma has_insert_index o n k v k' :
  has (insert_index o n k v) k' = (k =? k') || has o k'.
Proof.
  induction o as [ | [k0 v0] o IH ]; simpl; [ reflexivity | ].
  destruct (array_index k0) as [m | ]; [ destruct (m <? n)%N | ]; simpl;
    try reflexivity.
  rewrite IH. destruct (k0 =? k'), (k =? k'); reflexivity.
Qed.

Lemma has_define o k v k' : has (define o k v) k' = (k =? k') || has o k'.
Proof.
  unfold define. destruct (has o k) eqn:Hhas.
  - rewrite has_replace_value. destruct (String.eqb_spec k k') as [<- | ];
      [ rewrite Hhas | ]; reflexivity.
  - destruct (array_index k).
    + apply has_insert_index.
    + rewrite has_app. simpl. rewrite orb_false_r. apply orb_comm.
Qed.

Lemma has_assign_keeps o k v k' : has o k' = true -> has (assign o k v) k' = true.
Proof.
  unfold assign. intros H.
  destruct ((k =? "__proto__") && is_object v); [ exact H | ].
  rewrite has_define, H. apply orb_true_r.
Qed.

Lemma has_assign_new o k v : (k =? "__proto__") = false -> has (assign o k v) k = true.
Proof.
  unfold assign. intros ->. simpl. rewrite has_define, String.eqb_refl. reflexivity.
Qed.

Lemma In_replace_value o k v e :
  In e (replace_value o k v) -> e = (k, v) \/ In e o.
Proof.
  induction o as [ | [k0 v0] o IH ]; simpl; [ tauto | ].
  destruct (String.eqb_spec k0 k) as [-> | ]; simpl; intuition.
Qed.

Lemma In_insert_index o n k v e :
  In e (insert_index o n k v) -> e = (k, v) \/ In e o.
Proof.
  induction o as [ | [k0 v0] o IH ]; simpl; [ intuition | ].
  destruct (array_index k0) as [m | ]; [ destruct (m <? n)%N | ]; simpl; intuition.
Qed.

Lemma In_assign o k v e : In e (assign o k v) -> e = (k, v) \/ In e o.
Proof.
  unfold assign, define.
  destruct ((k =? "__proto__") && is_object v); [ tauto | ].
  destruct (has o k); [ apply In_replace_value | ].
  destruct (array_index k); [ apply In_insert_index | ].
  rewrite in_app_iff. simpl. intuition.
Qed.

Lemma schema_name_not_proto pascal suffix :
  suffix = "Request" \/ suffix = "Response" ->
  (pascal ++ suffix =? "__proto__") = false.
Proof.
  intros Hsuffix. apply String.eqb_neq. intros Heq.
  destruct Hsuffix as [-> | ->].
  - assert (Hlast : last_char (pascal ++ "Request") = Some "t"%char).
    { apply last_char_spec. exists (pascal ++ "Reques").
      rewrite string_append_assoc. reflexivity. }
    rewrite Heq in Hlast. discriminate Hlast.
  - assert (Hlast : last_char (pascal ++ "Response") = Some "e"%char).
    { apply last_char_spec. exists (pascal ++ "Respons").
      rewrite string_append_assoc. reflexivity. }
    rewrite Heq in Hlast. discriminate Hlast.
Qed.

(** One turn of the loop, read backwards from its result. *)
Lemma generate_function_spec func g g' :
  generate_function func g = Return g' ->
  exists name request response,
    get func "name" = VStr name
    /\ schemas g' = assign (assign (schemas g) (pascal_name name ++ "Request") request)
                      (pascal_name name ++ "Response") response
    /\ paths g' = assign (paths g) ("/webservice/rest/" ++ name)
                    (path_item func name (pascal_name name ++ "Request")
                       (pascal_name name ++ "Response"))
    /\ names g' = (names g ++ [name])%list.
Proof.
  unfold generate_function. intros H.
  destruct func as [ | | b | n | s | items | o ]; try discriminate H;
    cbn [get_checked bind] in H.
  all: try (cbn [get toPascalCase bind] in H; discriminate H).
  destruct (get (VObj o) "name") as [ | | b | n | name | items | props ] eqn:Hname;
    try discriminate H.
  cbn [toPascalCase bind] in H.
  fold (pascal_name name) in H.
  destruct (if truthy (get (VObj o) "parameters") then _ else _) as [request | ];
    [ | discriminate H ].
  cbn [bind] in H.
  destruct (if truthy (get (VObj o) "returns") then _ else _) as [response | ];
    [ | discriminate H ].
  cbn [bind] in H. injection H as <-.
  exists name, request, response. repeat split.
Qed.

Lemma generate_function_ok func g g' :
  generated_ok g -> generate_function func g = Return g' -> generated_ok g'.
Proof.
  intros [Hpaths Hnames] H.
  destruct (generate_function_spec _ _ _ H)
    as [name [request [response [Hname [Hs [Hp Hn]]]]]].
  split.
  - intros path item Hin. rewrite Hp in Hin. apply In_assign in Hin as [Heq | Hin].
    + injection Heq as -> ->. exists func, name. split; [ reflexivity | ].
      split; [ reflexivity | ].
      rewrite Hn. apply in_or_app. right. left. reflexivity.
    + destruct (Hpaths path item Hin) as [func0 [name0 [Hitem [Hpath Hin0]]]].
      exists func0, name0. split; [ exact Hitem | ]. split; [ exact Hpath | ].
      rewrite Hn. apply in_or_app. left. exact Hin0.
  - intros name0 Hin. rewrite Hn in Hin. apply in_app_or in Hin as [Hin | [<- | []]].
    + destruct (Hnames name0 Hin) as [H1 [H2 H3]]. rewrite Hs, Hp.
      repeat split; repeat apply has_assign_keeps; assumption.
    + rewrite Hs, Hp. repeat split.
      * apply has_assign_keeps, has_assign_new, schema_name_not_proto. tauto.
      * apply has_assign_new, schema_name_not_proto. tauto.
      * apply has_assign_new. reflexivity.
Qed.

Lemma generate_functions_ok funcs : forall g g',
  generated_ok g -> generate_functions funcs g = Return g' ->
  generated_ok g'
  /\ (forall func, In func funcs ->
        exists name, get func "name" = VStr name /\ In name (names g')).
Proof.
  induction funcs as [ | func funcs IH ]; intros g g' Hok H; cbn [generate_functions] in H.
  - injection H as <-. split; [ exact Hok | ]. intros func [].
  - destruct (generate_function func g) as [g1 | ] eqn:Hstep; [ | discriminate H ].
    cbn [bind] in H.
    destruct (IH g1 g' (generate_function_ok _ _ _ Hok Hstep) H) as [Hok' Hfuncs].
    split; [ exact Hok' | ].
    intros func0 [<- | Hin]; [ | apply Hfuncs, Hin ].
    destruct (generate_function_spec _ _ _ Hstep) as [name [_ [_ [Hname [_ [_ Hn]]]]]].
    exists name. split; [ exact Hname | ].
    assert (Hmono : forall funcs' g2 g3,
               generate_functions funcs' g2 = Return g3 ->
               forall n, In n (names g2) -> In n (names g3)).
    { clear. induction funcs' as [ | f funcs' IH' ]; intros g2 g3 H n Hin;
        cbn [generate_functions] in H.
      - injection H as <-. exact Hin.
      - destruct (generate_function f g2) as [g4 | ] eqn:Hstep; [ | discriminate H ].
        cbn [bind] in H. apply (IH' g4 g3 H).
        destruct (generate_function_spec _ _ _ Hstep) as [nm [_ [_ [_ [_ [_ Hn]]]]]].
        rewrite Hn. apply in_or_app. left. exact Hin. }
    apply (Hmono funcs g1 g' H). rewrite Hn. apply in_or_app. right. left. reflexivity.
Qed.

Lemma generated_ok_initial : generated_ok {| schemas := []; paths := []; names := [] |}.
Proof. split; [ intros path item [] | intros name [] ]. Qed.

(** The references of a path item, whatever the function carries. *)
Lemma path_item_references func name request response :
  get (request_schema (path_item func name request response)) "$ref"
  = VStr ("#/components/schemas/" ++ request)
  /\ get (response_schema "200" (path_item func name request response)) "$ref"
     = VStr ("#/components/schemas/" ++ response)
  /\ get (response_schema "400" (path_item func name request response)) "$ref"
     = VStr "#/components/schemas/MoodleError"
  /\ get (response_schema "401" (path_item func name request response)) "$ref"
     = VStr "#/components/schemas/MoodleError"
  /\ get (get (path_item func name request response) "post") "tags"
     = VArr [VStr (getTagFromFunctionName name)]
  /\ get (get (path_item func name request response) "post") "operationId" = VStr name.
Proof.
  unfold request_schema, response_schema, path_item, and_then.
  destruct (truthy (get func "capabilities"));
    destruct (strict_eq (get func "ajax") VUndef);
    destruct (strict_eq (get func "loginrequired") VUndef);
    repeat split; reflexivity.
Qed.

(** The document, once everything that can raise has returned. *)
Lemma generateOpenAPISpec_returns now schema schemaName document :
  generateOpenAPISpec now schema schemaName = Return document ->
  exists functions funcs g,
    get schema "functions" = functions
    /\ iterate (or_value functions (VArr [])) = Return funcs
    /\ generate_functions funcs {| schemas := []; paths := []; names := [] |} = Return g
    /\ get document "paths" = VObj (paths g)
    /\ get document "tags" = generateTags (names g)
    /\ get (get document "components") "schemas"
       = VObj (assign (assign (schemas g) "MoodleError" MoodleError_schema)
                 "MoodleWarning" MoodleWarning_schema).
Proof.
  unfold generateOpenAPISpec. intros H.
  destruct schema as [ | | b | n | s | items | o ]; try discriminate H;
    cbn [get_checked bind] in H.
  all: destruct (iterate _) as [funcs | ] eqn:Hiter; [ | discriminate H ];
    cbn [bind] in H;
    destruct (generate_functions funcs _) as [g | ] eqn:Hgen; [ | discriminate H ];
    cbn [bind] in H;
    destruct (to_string _) as [release | ]; [ | discriminate H ];
    cbn [bind] in H; injection H as <-;
    eexists; exists funcs, g;
    (split; [ reflexivity | ]);
    (split; [ exact Hiter | ]);
    (split; [ exact Hgen | ]);
    repeat split.
Qed.

(** X21. In every document the generator returns, the references resolve:
    each operation refers, for its request body and for its 200 response,
    to a schema that is a key of [components.schemas], and for its 400 and
    401 responses to [MoodleError], which is a key too, like
    [MoodleWarning]. *)
Theorem generateOpenAPISpec_references_resolve :
  forall (now : string) (schema : value) (schemaName : string) (document : value),
    generateOpenAPISpec now schema schemaName = Return document ->
    exists (paths schemas : object),
      get document "paths" = VObj paths
      /\ get (get document "components") "schemas" = VObj schemas
      /\ has schemas "MoodleError" = true
      /\ has schemas "MoodleWarning" = true
      /\ (forall path item, In (path, item) paths ->
            exists request response,
              get (request_schema item) "$ref" = VStr ("#/components/schemas/" ++ request)
              /\ has schemas request = true
              /\ get (response_schema "200" item) "$ref"
                 = VStr ("#/components/schemas/" ++ response)
              /\ has schemas response = true
              /\ get (response_schema "400" item) "$ref"
                 = VStr "#/components/schemas/MoodleError"
              /\ get (response_schema "401" item) "$ref"
                 = VStr "#/components/schemas/MoodleError").
Proof.
  intros now schema schemaName document H.
  destruct (generateOpenAPISpec_returns _ _ _ _ H)
    as [functions [funcs [g [_ [_ [Hgen [Hpaths [_ Hschemas]]]]]]]].
  destruct (generate_functions_ok _ _ _ generated_ok_initial Hgen) as [[Hitems Hnames] _].
  exists (paths g). eexists. split; [ exact Hpaths | ]. split; [ exact Hschemas | ].
  split; [ apply has_assign_keeps, has_assign_new; reflexivity | ].
  split; [ apply has_assign_new; reflexivity | ].
  intros path item Hin.
  destruct (Hitems path item Hin) as [func [name [-> [_ Hname]]]].
  destruct (Hnames name Hname) as [Hreq [Hresp _]].
  destruct (path_item_references func name (pascal_name name ++ "Request")
              (pascal_name name ++ "Response")) as [R1 [R2 [R3 [R4 _]]]].
  exists (pascal_name name ++ "Request"), (pascal_name name ++ "Response").
  repeat split; try assumption; repeat apply has_assign_keeps; assumption.
Qed.

Lemma generateOpenAPISpec_references_resolve_witness :
  exists document,
    generateOpenAPISpec "2026-01-01T00:00:00.000Z" example_schema "MOODLE_405_STABLE"
    = Return document
    /\ exists (paths schemas : object),
         get document "paths" = VObj paths
         /\ get (get document "components") "schemas" = VObj schemas
         /\ has schemas "MoodleError" = true
         /\ has schemas "MoodleWarning" = true
         /\ (forall path item, In (path, item) paths ->
               exists request response,
                 get (request_schema item) "$ref"
                 = VStr ("#/components/schemas/" ++ request)
                 /\ has schemas request = true
                 /\ get (response_schema "200" item) "$ref"
                    = VStr ("#/components/schemas/" ++ response)
                 /\ has schemas response = true
                 /\ get (response_schema "400" item) "$ref"
                    = VStr "#/components/schemas/MoodleError"
                 /\ get (response_schema "401" item) "$ref"
                    = VStr "#/components/schemas/MoodleError").
Proof.
  eexists. split; [ vm_compute; reflexivity | ].
  apply (generateOpenAPISpec_references_resolve "2026-01-01T00:00:00.000Z"
           example_schema "MOODLE_405_STABLE").
  vm_compute. reflexivity.
Defined.

(** X22. Every function of the input has its place in a document that is
    returned: its name is a string, the document has the path
    [/webservice/rest/<name>], and [components.schemas] has the request and
    the response schema named after the PascalCase form of the name.  So a
    function entry without a string name never gets past the generator. *)
Theorem generateOpenAPISpec_covers_functions :
  forall (now : string) (schema : value) (schemaName : string) (document : value)
         (funcs : list value),
    generateOpenAPISpec now schema schemaName = Return document ->
    get schema "functions" = VArr funcs ->
    exists (paths schemas : object),
      get document "paths" = VObj paths
      /\ get (get document "components") "schemas" = VObj schemas
      /\ (forall func, In func funcs ->
            exists name,
              get func "name" = VStr name
              /\ has paths ("/webservice/rest/" ++ name) = true
              /\ has schemas (pascal_name name ++ "Request") = true
              /\ has schemas (pascal_name name ++ "Response") = true).
Proof.
  intros now schema schemaName document funcs H Hfuncs.
  destruct (generateOpenAPISpec_returns _ _ _ _ H)
    as [functions [funcs' [g [Hf [Hiter [Hgen [Hpaths [_ Hschemas]]]]]]]].
  rewrite Hfuncs in Hf. subst functions. simpl in Hiter. injection Hiter as <-.
  destruct (generate_functions_ok _ _ _ generated_ok_initial Hgen) as [[_ Hnames] Hall].
  exists (paths g). eexists. split; [ exact Hpaths | ]. split; [ exact Hschemas | ].
  intros func Hin. destruct (Hall func Hin) as [name [Hname Hin']].
  destruct (Hnames name Hin') as [Hreq [Hresp Hpath]].
  exists name. repeat split; try assumption; repeat apply has_assign_keeps; assumption.
Qed.

Lemma generateOpenAPISpec_covers_functions_witness :
  exists document,
    generateOpenAPISpec "2026-01-01T00:00:00.000Z" example_schema "MOODLE_405_STABLE"
    = Return document
    /\ exists (paths schemas : object),
         get document "paths" = VObj paths
         /\ get (get document "components") "schemas" = VObj schemas
         /\ has paths "/webservice/rest/core_course_get_courses" = true
         /\ has schemas "CoreCourseGetCoursesRequest" = true
         /\ has schemas "CoreCourseGetCoursesResponse" = true.
Proof.
  assert (Hrun : exists document,
             generateOpenAPISpec "2026-01-01T00:00:00.000Z" example_schema
               "MOODLE_405_STABLE" = Return document)
    by (eexists; vm_compute; reflexivity).
  destruct Hrun as [document Hrun]. exists document. split; [ exact Hrun | ].
  destruct (generateOpenAPISpec_covers_functions "2026-01-01T00:00:00.000Z"
              example_schema "MOODLE_405_STABLE" document
              [VObj [("name", VStr "core_course_get_courses");
                     ("description", VStr "Return course details");
                     ("parameters", course_schema);
                     ("returns", VNull)]] Hrun eq_refl)
    as [paths [schemas [Hp [Hs Hall]]]].
  exists paths, schemas. split; [ exact Hp | ]. split; [ exact Hs | ].
  destruct (Hall _ (or_introl eq_refl)) as [name [Hname [H1 [H2 H3]]]].
  injection Hname as <-. repeat split; assumption.
Defined.

(** X23. Every path of the document is the route of the operation it
    holds, [/webservice/rest/<operationId>], and every tag attached to an
    operation is declared: the [tags] of an operation is the one-element
    list with the tag of its function, and the tag list of the document has
    an entry of that name. *)
Theorem generateOpenAPISpec_tags_declared :
  forall (now : string) (schema : value) (schemaName : string) (document : value),
    generateOpenAPISpec now schema schemaName = Return document ->
    exists (paths : object) (entries : list value),
      get document "paths" = VObj paths
      /\ get document "tags" = VArr entries
      /\ (forall path item, In (path, item) paths ->
            exists name tag entry,
              get (get item "post") "operationId" = VStr name
              /\ path = "/webservice/rest/" ++ name
              /\ get (get item "post") "tags" = VArr [VStr tag]
              /\ tag = getTagFromFunctionName name
              /\ In entry entries
              /\ get entry "name" = VStr tag).
Proof.
  intros now schema schemaName document H.
  destruct (generateOpenAPISpec_returns _ _ _ _ H)
    as [functions [funcs [g [_ [_ [Hgen [Hpaths [Htags _]]]]]]]].
  destruct (generate_functions_ok _ _ _ generated_ok_initial Hgen) as [[Hitems Hnames] _].
  exists (paths g). eexists. split; [ exact Hpaths | ].
  split; [ rewrite Htags; reflexivity | ].
  intros path item Hin.
  destruct (Hitems path item Hin) as [func [name [-> [Hpath Hname]]]].
  destruct (path_item_references func name (pascal_name name ++ "Request")
              (pascal_name name ++ "Response")) as [_ [_ [_ [_ [Htag Hid]]]]].
  exists name, (getTagFromFunctionName name). eexists.
  split; [ exact Hid | ]. split; [ exact Hpath | ].
  split; [ exact Htag | ]. split; [ reflexivity | ]. split.
  - apply in_map_iff. exists (getTagFromFunctionName name). split; [ reflexivity | ].
    apply sort_strings_In.
    apply (proj2 (tagSet_spec (names g) [] (NoDup_nil _))).
    right. exists name. split; [ exact Hname | reflexivity ].
  - reflexivity.
Qed.

Lemma generateOpenAPISpec_tags_declared_witness :
  exists document,
    generateOpenAPISpec "2026-01-01T00:00:00.000Z" example_schema "MOODLE_405_STABLE"
    = Return document
    /\ exists (paths : object) (entries : list value),
         get document "paths" = VObj paths
         /\ get document "tags" = VArr entries
         /\ (forall path item, In (path, item) paths ->
               exists name tag entry,
                 get (get item "post") "operationId" = VStr name
                 /\ path = "/webservice/rest/" ++ name
                 /\ get (get item "post") "tags" = VArr [VStr tag]
                 /\ tag = getTagFromFunctionName name
                 /\ In entry entries
                 /\ get entry "name" = VStr tag).
Proof.
  eexists. split; [ vm_compute; reflexivity | ].
  apply (generateOpenAPISpec_tags_declared "2026-01-01T00:00:00.000Z"
           example_schema "MOODLE_405_STABLE").
  vm_compute. reflexivity.
Defined.

(** X24. The edge of the input.  A schema document that is [null] or
    [undefined] makes the generator raise a TypeError.  A document without a
    list of functions (none, or an empty one) gives a document without
    paths and without tags, whose only component schemas are [MoodleError]
    and [MoodleWarning]; the version is the one of the input, or the text
    unknown. *)
Theorem generateOpenAPISpec_without_functions :
  forall (now : string) (schema : value) (schemaName : string),
    (schema = VNull \/ schema = VUndef ->
       exists message,
         generateOpenAPISpec now schema schemaName = Throw (type_error message))
    /\ (forall (o : object) (release : string),
          schema = VObj o ->
          truthy (lookup o "functions") = false \/ lookup o "functions" = VArr [] ->
          to_string (or_value (lookup o "moodleRelease") (VStr "unknown")) = Some release ->
          exists document,
            generateOpenAPISpec now schema schemaName = Return document
            /\ get document "paths" = VObj []
            /\ get document "tags" = VArr []
            /\ get (get document "components") "schemas"
               = VObj [("MoodleError", MoodleError_schema);
                       ("MoodleWarning", MoodleWarning_schema)]
            /\ get (get document "info") "version"
               = or_value (lookup o "moodleVersion") (VStr "unknown")
            /\ get (get document "info") "description"
               = VStr (info_description release now)).
Proof.
  intros now schema schemaName. split.
  - intros [-> | ->]; eexists; reflexivity.
  - intros o release -> Hfuncs Hrelease.
    unfold generateOpenAPISpec. cbn [get_checked bind get].
    assert (Hiter : iterate (or_value (lookup o "functions") (VArr [])) = Return []).
    { unfold or_value. destruct Hfuncs as [-> | ->]; reflexivity. }
    rewrite Hiter. cbn [bind generate_functions]. rewrite Hrelease. cbn [bind].
    eexists. split; [ reflexivity | ]. repeat split.
Qed.

Lemma generateOpenAPISpec_without_functions_witness :
  exists document,
    generateOpenAPISpec "2026-01-01T00:00:00.000Z" empty_schema_document "empty"
    = Return document
    /\ get document "paths" = VObj []
    /\ get document "tags" = VArr []
    /\ get (get document "components") "schemas"
       = VObj [("MoodleError", MoodleError_schema);
               ("MoodleWarning", MoodleWarning_schema)]
    /\ get (get document "info") "version"
       = or_value
           (lookup [("moodleVersion", VStr "2024100700"); ("moodleRelease", VStr "4.5")]
              "moodleVersion")
           (VStr "unknown")
    /\ get (get document "info") "description"
       = VStr (info_description "4.5" "2026-01-01T00:00:00.000Z").
Proof.
  apply (proj2 (generateOpenAPISpec_without_functions "2026-01-01T00:00:00.000Z"
                  empty_schema_document "empty")
           [("moodleVersion", VStr "2024100700"); ("moodleRelease", VStr "4.5")] "4.5").
  - reflexivity.
  - left. reflexivity.
  - reflexivity.
Defined.

(* ================================================================== *)
(** * Further properties of the YAML emitter *)
(* ================================================================== *)

Lemma jsonToYaml_VArr items indent :
  jsonToYaml (VArr items) indent
  = if (length items =? 0)%nat then Return "[]" else yaml_items indent items "".
Proof. reflexivity. Qed.

Lemma jsonToYaml_VObj props indent :
  jsonToYaml (VObj props) indent
  = if (length props =? 0)%nat then Return "{}" else yaml_entries indent props "".
Proof. reflexivity. Qed.

Lemma yaml_items_nil indent yaml : yaml_items indent [] yaml = Return yaml.
Proof. reflexivity. Qed.

Lemma yaml_items_cons indent item rest yaml :
  yaml_items indent (item :: rest) yaml
  = let spaces := repeat_string "  " indent in
    if is_object item then
      let yaml := yaml ++ LF ++ spaces ++ "-" in
      itemYaml <- jsonToYaml item (S indent) ;;
      match filter (fun l => negb (trim l =? "")) (split lf itemYaml) with
      | [] => yaml_items indent rest yaml
      | first :: more =>
          yaml_items indent rest
            (fold_left (fun yaml line => yaml ++ LF ++ spaces ++ "  " ++ trim line)
               more (yaml ++ " " ++ trim first))
      end
    else
      formatted <- formatYamlValue item ;;
      yaml_items indent rest (yaml ++ LF ++ spaces ++ "- " ++ formatted).
Proof. reflexivity. Qed.

Lemma yaml_entries_nil indent yaml : yaml_entries indent [] yaml = Return yaml.
Proof. reflexivity. Qed.

Lemma yaml_entries_cons indent key value rest yaml :
  yaml_entries indent ((key, value) :: rest) yaml
  = let spaces := repeat_string "  " indent in
    if is_object value then
      nestedYaml <- jsonToYaml value (S indent) ;;
      if startsWith nestedYaml LF || (nestedYaml =? "{}") || (nestedYaml =? "[]")
      then
        yaml_entries indent rest
          (yaml ++ spaces ++ yaml_key key ++ ":"
           ++ (if (nestedYaml =? "{}") || (nestedYaml =? "[]")
               then " " ++ nestedYaml else nestedYaml)
           ++ LF)
      else
        yaml_entries indent rest (yaml ++ spaces ++ yaml_key key ++ ": " ++ nestedYaml ++ LF)
    else
      formatted <- formatYamlValue value ;;
      yaml_entries indent rest (yaml ++ spaces ++ yaml_key key ++ ": " ++ formatted ++ LF).
Proof. reflexivity. Qed.

Lemma formatYamlValue_scalar v :
  is_object v = false -> formatYamlValue v = Return (scalar_yaml v).
Proof. destruct v; intros H; try discriminate H; reflexivity. Qed.

Lemma yaml_items_returns indent items :
  Forall (fun item => forall indent, exists text, jsonToYaml item indent = Return text) items ->
  forall yaml, exists text, yaml_items indent items yaml = Return text.
Proof.
  induction 1 as [ | item items Hitem _ IH ]; intros yaml.
  - eexists. reflexivity.
  - rewrite yaml_items_cons. cbv zeta. destruct (is_object item) eqn:Hobj.
    + destruct (Hitem (S indent)) as [itemYaml ->]. cbn [bind].
      destruct (filter _ (split lf itemYaml)); apply IH.
    + rewrite (formatYamlValue_scalar _ Hobj). cbn [bind]. apply IH.
Qed.

Lemma yaml_entries_returns indent props :
  Forall (fun kv => forall indent, exists text, jsonToYaml (snd kv) indent = Return text)
    props ->
  forall yaml, exists text, yaml_entries indent props yaml = Return text.
Proof.
  induction 1 as [ | [key value] props Hvalue _ IH ]; intros yaml.
  - eexists. reflexivity.
  - rewrite yaml_entries_cons. cbv zeta. destruct (is_object value) eqn:Hobj.
    + destruct (Hvalue (S indent)) as [nested Hnested]. cbn [snd] in Hnested.
      rewrite Hnested. cbn [bind].
      destruct (startsWith nested LF || (nested =? "{}") || (nested =? "[]")); apply IH.
    + rewrite (formatYamlValue_scalar _ Hobj). cbn [bind]. apply IH.
Qed.

Lemma jsonToYaml_returns (v : value) :
  forall indent : nat, exists text, jsonToYaml v indent = Return text.
Proof.
  induction v as [ | | b | n | s | items IH | o IH ] using value_induction;
    intros indent; try (eexists; reflexivity).
  - rewrite jsonToYaml_VArr. destruct (length items =? 0)%nat.
    + eexists. reflexivity.
    + apply yaml_items_returns. exact IH.
  - rewrite jsonToYaml_VObj. destruct (length o =? 0)%nat.
    + eexists. reflexivity.
    + apply yaml_entries_returns. exact IH.
Qed.

(** X25. The emitter never raises: every value, at every indentation, is
    turned into a text.  The empty list is written [[]], the empty mapping
    [{}], and a value that is neither a list nor a mapping as
    [formatYamlValue] writes it, whatever the indentation. *)
Theorem jsonToYaml_never_fails :
  forall (v : value) (indent : nat),
    exists text,
      jsonToYaml v indent = Return text
      /\ (v = VArr [] -> text = "[]")
      /\ (v = VObj [] -> text = "{}")
      /\ (is_object v = false -> text = scalar_yaml v).
Proof.
  intros v indent. destruct (jsonToYaml_returns v indent) as [text Htext].
  exists text. split; [ exact Htext | ]. repeat split.
  - intros ->. cbn in Htext. congruence.
  - intros ->. cbn in Htext. congruence.
  - intros Hscalar.
    assert (Hv : jsonToYaml v indent = Return (scalar_yaml v))
      by (destruct v; try discriminate Hscalar; reflexivity).
    congruence.
Qed.

Lemma jsonToYaml_never_fails_witness :
  exists text,
    jsonToYaml yaml_example 0 = Return text
    /\ jsonToYaml (VArr []) 2 = Return "[]"
    /\ jsonToYaml (VObj []) 2 = Return "{}"
    /\ jsonToYaml (VStr "no") 2 = Return (DQ ++ "no" ++ DQ).
Proof.
  destruct (jsonToYaml_never_fails yaml_example 0) as [text [Htext _]].
  exists text. split; [ exact Htext | ].
  destruct (jsonToYaml_never_fails (VArr []) 2) as [t1 [H1 [E1 _]]].
  destruct (jsonToYaml_never_fails (VObj []) 2) as [t2 [H2 [_ [E2 _]]]].
  destruct (jsonToYaml_never_fails (VStr "no") 2) as [t3 [H3 [_ [_ E3]]]].
  rewrite H1, H2, H3, (E1 eq_refl), (E2 eq_refl), (E3 eq_refl).
  repeat split.
Defined.

Lemma includes_single_line s : includes s LF = false -> single_line s = true.
Proof.
  unfold single_line. induction s as [ | c s IH ]; [ reflexivity | ].
  rewrite includes_unfold. intros H. apply orb_false_iff in H as [Hhead Hrest].
  cbn [all_chars]. rewrite (IH Hrest). rewrite andb_true_r.
  destruct (Ascii.eqb_spec c lf) as [-> | ]; [ | reflexivity ].
  exfalso. assert (Hp : String.prefix LF (String lf s) = true)
    by (apply prefix_spec; exists s; reflexivity).
  rewrite Hp in Hhead. discriminate Hhead.
Qed.

(** X26. A string scalar always comes out on one line: there is no line
    feed in the text [formatYamlValue] returns for a string; and when the
    text is quoted, every double quote between the two outer quotes follows
    a backslash. *)
Theorem formatYamlValue_single_line :
  forall s : string,
    exists text,
      formatYamlValue (VStr s) = Return text
      /\ single_line text = true
      /\ (needs_quotes s = true ->
            exists inner,
              text = DQ ++ inner ++ DQ /\ quotes_escaped false inner = true).
Proof.
  intros s. cbn [formatYamlValue]. eexists. split; [ reflexivity | ].
  destruct (needs_quotes s) eqn:Hq.
  - destruct (quoted_escapes s) as [inner [Hinner [Hline Hesc]]]. split.
    + rewrite Hinner. unfold single_line in *.
      rewrite !all_chars_append, Hline. reflexivity.
    + intros _. exists inner. split; assumption.
  - split; [ | discriminate ].
    apply includes_single_line.
    unfold needs_quotes in Hq.
    repeat (apply orb_false_iff in Hq as [Hq ?]). assumption.
Qed.

Lemma formatYamlValue_single_line_witness :
  exists text,
    formatYamlValue (VStr ("a" ++ LF ++ "b")) = Return text
    /\ single_line text = true.
Proof.
  destruct (formatYamlValue_single_line ("a" ++ LF ++ "b")) as [text [H [Hline _]]].
  exists text. split; assumption.
Defined.

(** ** Lists and mappings *)

Lemma yaml_entries_scalars indent props :
  scalars (map snd props) = true ->
  forall yaml,
    yaml_entries indent props yaml = Return (yaml ++ mapping_text indent props).
Proof.
  induction props as [ | [key value] props IH ]; intros Hscalars yaml.
  - cbn [mapping_text fold_right]. rewrite string_append_nil_r. reflexivity.
  - cbn [scalars map snd forallb] in Hscalars.
    apply andb_true_iff in Hscalars as [Hvalue Hrest].
    apply negb_true_iff in Hvalue.
    rewrite yaml_entries_cons. cbv zeta. rewrite Hvalue.
    rewrite (formatYamlValue_scalar _ Hvalue). cbn [bind].
    rewrite (IH Hrest). cbn [mapping_text fold_right fst snd].
    rewrite !string_append_assoc. reflexivity.
Qed.

Lemma yaml_items_scalars indent items :
  scalars items = true ->
  forall yaml,
    yaml_items indent items yaml = Return (yaml ++ list_text indent items).
Proof.
  induction items as [ | item items IH ]; intros Hscalars yaml.
  - cbn [list_text fold_right]. rewrite string_append_nil_r. reflexivity.
  - cbn [scalars forallb] in Hscalars.
    apply andb_true_iff in Hscalars as [Hitem Hrest].
    apply negb_true_iff in Hitem.
    rewrite yaml_items_cons. cbv zeta. rewrite Hitem.
    rewrite (formatYamlValue_scalar _ Hitem). cbn [bind].
    rewrite (IH Hrest). cbn [list_text fold_right].
    rewrite !string_append_assoc. reflexivity.
Qed.

(** X27. A mapping whose values are all scalars is written one entry per
    line, in property order: the indentation, the key (quoted when it is
    not an identifier), a colon and a space, the scalar, a line feed. *)
Theorem jsonToYaml_flat_mapping :
  forall (props : object) (indent : nat),
    props <> [] ->
    scalars (map snd props) = true ->
    jsonToYaml (VObj props) indent = Return (mapping_text indent props).
Proof.
  intros props indent Hne Hscalars. rewrite jsonToYaml_VObj.
  destruct props as [ | kv props ]; [ contradiction | ].
  cbn [length Nat.eqb]. rewrite (yaml_entries_scalars indent _ Hscalars).
  reflexivity.
Qed.

Lemma jsonToYaml_flat_mapping_witness :
  jsonToYaml (VObj [("title", VStr "Moodle: API"); ("x-count", VNum 3);
                    ("deprecated", VBool false)]) 1
  = Return ("  title: " ++ DQ ++ "Moodle: API" ++ DQ ++ LF
            ++ "  " ++ DQ ++ "x-count" ++ DQ ++ ": 3" ++ LF
            ++ "  deprecated: false" ++ LF).
Proof.
  rewrite (jsonToYaml_flat_mapping
             [("title", VStr "Moodle: API"); ("x-count", VNum 3);
              ("deprecated", VBool false)] 1);
    [ vm_compute; reflexivity | discriminate | reflexivity ].
Defined.

(** X28. A list of scalars is written one item per line, each line
    opened by a line feed: the indentation, a dash and a space, the
    scalar.  The text therefore starts with a line feed and does not end
    with one. *)
Theorem jsonToYaml_scalar_list :
  forall (items : list value) (indent : nat),
    items <> [] ->
    scalars items = true ->
    jsonToYaml (VArr items) indent = Return (list_text indent items).
Proof.
  intros items indent Hne Hscalars. rewrite jsonToYaml_VArr.
  destruct items as [ | item items ]; [ contradiction | ].
  cbn [length Nat.eqb]. rewrite (yaml_items_scalars indent _ Hscalars).
  reflexivity.
Qed.

Lemma jsonToYaml_scalar_list_witness :
  jsonToYaml (VArr [VStr "id"; VStr "yes"; VNull]) 1
  = Return (LF ++ "  - id" ++ LF ++ "  - " ++ DQ ++ "yes" ++ DQ ++ LF ++ "  - null").
Proof.
  rewrite (jsonToYaml_scalar_list [VStr "id"; VStr "yes"; VNull] 1);
    [ vm_compute; reflexivity | discriminate | reflexivity ].
Defined.

(** The text so far is only ever extended: what a loop adds does not depend
    on it. *)
Lemma yaml_entries_acc indent props :
  exists tail, forall yaml, yaml_entries indent props yaml = Return (yaml ++ tail).
Proof.
  induction props as [ | [key value] props [tail IH] ].
  - exists "". intros yaml. rewrite string_append_nil_r. reflexivity.
  - destruct (is_object value) eqn:Hobj.
    + destruct (jsonToYaml_returns value (S indent)) as [nested Hnested].
      destruct (startsWith nested LF || (nested =? "{}") || (nested =? "[]")) eqn:Hcase.
      * eexists. intros yaml. rewrite yaml_entries_cons. cbv zeta.
        rewrite Hobj, Hnested. cbn [bind]. rewrite Hcase, IH.
        rewrite !string_append_assoc. reflexivity.
      * eexists. intros yaml. rewrite yaml_entries_cons. cbv zeta.
        rewrite Hobj, Hnested. cbn [bind]. rewrite Hcase, IH.
        rewrite !string_append_assoc. reflexivity.
    + eexists. intros yaml. rewrite yaml_entries_cons. cbv zeta.
      rewrite Hobj, (formatYamlValue_scalar _ Hobj). cbn [bind]. rewrite IH.
      rewrite !string_append_assoc. reflexivity.
Qed.

Lemma yaml_items_acc indent items :
  exists tail, forall yaml, yaml_items indent items yaml = Return (yaml ++ tail).
Proof.
  induction items as [ | item items [tail IH] ].
  - exists "". intros yaml. rewrite string_append_nil_r. reflexivity.
  - destruct (is_object item) eqn:Hobj.
    + destruct (jsonToYaml_returns item (S indent)) as [itemYaml HitemYaml].
      destruct (filter (fun l => negb (trim l =? "")) (split lf itemYaml))
        as [ | first more ] eqn:Hlines.
      * eexists. intros yaml. rewrite yaml_items_cons. cbv zeta.
        rewrite Hobj, HitemYaml. cbn [bind]. rewrite Hlines, IH.
        rewrite !string_append_assoc. reflexivity.
      * assert (Hfold : forall (lines : list string) (yaml : string),
                   fold_left
                     (fun yaml line =>
                        yaml ++ LF ++ repeat_string "  " indent ++ "  " ++ trim line)
                     lines yaml
                   = yaml ++ fold_right
                               (fun line text =>
                                  LF ++ repeat_string "  " indent ++ "  " ++ trim line
                                  ++ text) "" lines).
        { induction lines as [ | line lines IHl ]; intros yaml; cbn [fold_left fold_right].
          - rewrite string_append_nil_r. reflexivity.
          - rewrite IHl, !string_append_assoc. reflexivity. }
        eexists. intros yaml. rewrite yaml_items_cons. cbv zeta.
        rewrite Hobj, HitemYaml. cbn [bind]. rewrite Hlines, IH, Hfold.
        rewrite !string_append_assoc. reflexivity.
    + eexists. intros yaml. rewrite yaml_items_cons. cbv zeta.
      rewrite Hobj, (formatYamlValue_scalar _ Hobj). cbn [bind]. rewrite IH.
      rewrite !string_append_assoc. reflexivity.
Qed.

Lemma yaml_entries_head indent key value rest :
  exists tail,
    forall yaml,
      yaml_entries indent ((key, value) :: rest) yaml
      = Return (yaml ++ repeat_string "  " indent ++ yaml_key key ++ ":" ++ tail).
Proof.
  destruct (yaml_entries_acc indent rest) as [tail Hrest].
  destruct (is_object value) eqn:Hobj.
  - destruct (jsonToYaml_returns value (S indent)) as [nested Hnested].
    destruct (startsWith nested LF || (nested =? "{}") || (nested =? "[]")) eqn:Hcase.
    + eexists. intros yaml. rewrite yaml_entries_cons. cbv zeta.
      rewrite Hobj, Hnested. cbn [bind]. rewrite Hcase, Hrest.
      rewrite !string_append_assoc. reflexivity.
    + exists (" " ++ nested ++ LF ++ tail).
      intros yaml. rewrite yaml_entries_cons. cbv zeta.
      rewrite Hobj, Hnested. cbn [bind]. rewrite Hcase, Hrest.
      rewrite !string_append_assoc. reflexivity.
  - exists (" " ++ scalar_yaml value ++ LF ++ tail).
    intros yaml. rewrite yaml_entries_cons. cbv zeta.
    rewrite Hobj, (formatYamlValue_scalar _ Hobj). cbn [bind]. rewrite Hrest.
    rewrite !string_append_assoc. reflexivity.
Qed.

Lemma yaml_items_head indent item rest :
  exists tail,
    forall yaml,
      yaml_items indent (item :: rest) yaml
      = Return (yaml ++ LF ++ repeat_string "  " indent ++ "-" ++ tail).
Proof.
  destruct (yaml_items_acc indent rest) as [tail Hrest].
  destruct (is_object item) eqn:Hobj.
  - destruct (jsonToYaml_returns item (S indent)) as [itemYaml HitemYaml].
    destruct (filter (fun l => negb (trim l =? "")) (split lf itemYaml))
      as [ | first more ] eqn:Hlines.
    + eexists. intros yaml. rewrite yaml_items_cons. cbv zeta.
      rewrite Hobj, HitemYaml. cbn [bind]. rewrite Hlines, Hrest.
      rewrite !string_append_assoc. reflexivity.
    + assert (Hfold : forall (lines : list string) (yaml : string),
                 fold_left
                   (fun yaml line =>
                      yaml ++ LF ++ repeat_string "  " indent ++ "  " ++ trim line)
                   lines yaml
                 = yaml ++ fold_right
                             (fun line text =>
                                LF ++ repeat_string "  " indent ++ "  " ++ trim line
                                ++ text) "" lines).
      { induction lines as [ | line lines IHl ]; intros yaml; cbn [fold_left fold_right].
        - rewrite string_append_nil_r. reflexivity.
        - rewrite IHl, !string_append_assoc. reflexivity. }
      eexists. intros yaml. rewrite yaml_items_cons. cbv zeta.
      rewrite Hobj, HitemYaml. cbn [bind]. rewrite Hlines, Hrest, Hfold.
      rewrite !string_append_assoc. reflexivity.
  - exists (" " ++ scalar_yaml item ++ tail).
    intros yaml. rewrite yaml_items_cons. cbv zeta.
    rewrite Hobj, (formatYamlValue_scalar _ Hobj). cbn [bind]. rewrite Hrest.
    rewrite !string_append_assoc. reflexivity.
Qed.

(** X29. A key that holds a non-empty mapping does not open a block of
    its own: the text of the nested mapping starts with the indentation of
    its first entry, so it is neither [{}] nor a text that starts with a
    line feed, and the emitter writes it after the key, a colon and a
    space, on the line of the key. *)
Theorem jsonToYaml_nested_mapping :
  forall (key : string) (inner rest : object) (indent : nat),
    inner <> [] ->
    exists nested tail,
      jsonToYaml (VObj inner) (S indent) = Return nested
      /\ startsWith nested "  " = true
      /\ jsonToYaml (VObj ((key, VObj inner) :: rest)) indent
         = Return (repeat_string "  " indent ++ yaml_key key ++ ": "
                   ++ nested ++ LF ++ tail).
Proof.
  intros key inner rest indent Hne.
  destruct inner as [ | [k v] inner ]; [ contradiction | ].
  destruct (yaml_entries_head (S indent) k v inner) as [t Hinner].
  destruct (yaml_entries_acc indent rest) as [tail Hrest].
  pose (x := repeat_string "  " indent ++ yaml_key k ++ ":" ++ t).
  assert (Hnested : jsonToYaml (VObj ((k, v) :: inner)) (S indent)
                    = Return (String " " (String " " x))).
  { rewrite jsonToYaml_VObj. cbn [length Nat.eqb]. rewrite Hinner. reflexivity. }
  exists (String " " (String " " x)), tail.
  split; [ exact Hnested | ]. split.
  - apply prefix_spec. exists x. reflexivity.
  - rewrite jsonToYaml_VObj. cbn [length Nat.eqb].
    rewrite yaml_entries_cons. cbv zeta. cbn [is_object].
    rewrite Hnested. cbn [bind].
    replace (startsWith (String " " (String " " x)) LF) with false by reflexivity.
    replace (String " " (String " " x) =? "{}") with false by reflexivity.
    replace (String " " (String " " x) =? "[]") with false by reflexivity.
    cbn [orb]. rewrite Hrest. rewrite !string_append_assoc. reflexivity.
Qed.

Lemma jsonToYaml_nested_mapping_witness :
  exists nested tail,
    jsonToYaml (VObj [("title", VStr "Moodle")]) 1 = Return nested
    /\ startsWith nested "  " = true
    /\ jsonToYaml (VObj [("info", VObj [("title", VStr "Moodle")])]) 0
       = Return (repeat_string "  " 0 ++ yaml_key "info" ++ ": " ++ nested ++ LF ++ tail).
Proof.
  apply (jsonToYaml_nested_mapping "info" [("title", VStr "Moodle")] [] 0).
  discriminate.
Defined.

(** X30. A key that holds a non-empty list opens a block: the text of the
    list starts with a line feed, and the emitter writes it straight after
    the key and the colon, so that the first item is on the next line. *)
Theorem jsonToYaml_nested_list :
  forall (key : string) (items : list value) (rest : object) (indent : nat),
    items <> [] ->
    exists nested tail,
      jsonToYaml (VArr items) (S indent) = Return nested
      /\ startsWith nested LF = true
      /\ jsonToYaml (VObj ((key, VArr items) :: rest)) indent
         = Return (repeat_string "  " indent ++ yaml_key key ++ ":"
                   ++ nested ++ LF ++ tail).
Proof.
  intros key items rest indent Hne.
  destruct items as [ | item items ]; [ contradiction | ].
  destruct (yaml_items_head (S indent) item items) as [t Hitems].
  destruct (yaml_entries_acc indent rest) as [tail Hrest].
  pose (x := repeat_string "  " (S indent) ++ "-" ++ t).
  assert (Hnested : jsonToYaml (VArr (item :: items)) (S indent)
                    = Return (String lf x)).
  { rewrite jsonToYaml_VArr. cbn [length Nat.eqb]. rewrite Hitems. reflexivity. }
  exists (String lf x), tail.
  split; [ exact Hnested | ]. split.
  - apply prefix_spec. exists x. reflexivity.
  - rewrite jsonToYaml_VObj. cbn [length Nat.eqb].
    rewrite yaml_entries_cons. cbv zeta. cbn [is_object].
    rewrite Hnested. cbn [bind].
    replace (startsWith (String lf x) LF) with true
      by (symmetry; apply prefix_spec; exists x; reflexivity).
    replace (String lf x =? "{}") with false by reflexivity.
    replace (String lf x =? "[]") with false by reflexivity.
    cbn [orb]. rewrite Hrest. rewrite !string_append_assoc. reflexivity.
Qed.

Lemma jsonToYaml_nested_list_witness :
  exists nested tail,
    jsonToYaml (VArr [VStr "id"]) 1 = Return nested
    /\ startsWith nested LF = true
    /\ jsonToYaml (VObj [("required", VArr [VStr "id"])]) 0
       = Return (repeat_string "  " 0 ++ yaml_key "required" ++ ":" ++ nested ++ LF ++ tail).
Proof.
  apply (jsonToYaml_nested_list "required" [VStr "id"] [] 0).
  discriminate.
Defined.
